(** * Flit audio generator: a shallow embedding of [scripts/generate_audio.py]

    The Python program synthesises sample buffers (lists of floats) from
    oscillators, seeded noise, one-pole filters and envelopes, and places
    rendered notes on a beat grid.  The embedding below follows the source
    function by function.

    Numbers.  Python floats are modelled through an interface, [PyFloat],
    with two instances:
    - [float]: IEEE-754 binary64 (Rocq's primitive floats), bit-faithful for
      literals, [+ - * /], comparisons, [abs] and [int()];
    - [R]: exact real arithmetic, the idealisation in which the algebraic
      laws of the oscillators and of the normaliser are stated.
    The functions of [math] ([sin], [exp], [tanh], [log]) and the power
    [**] form a second interface, [PyMath]; over [R] they are the real
    functions, over [float] they are whatever the platform's libm computes
    and stay abstract.
    [random.Random] is a third interface, [PyRandom].

    Errors.  A function that can raise ([IndexError] from list indexing,
    [ValueError] from [max] of an empty sequence or [int] of a non-finite
    float) returns an [option]; [None] is the exception. *)

From Stdlib Require Import ZArith QArith Qround Qreals Reals Lra Lia Floats.
From stdpp Require Import base option list list_numbers strings.

(** ** The interfaces *)

Class PyFloat (F : Type) := {
  (** a decimal literal of the source, given as the rational it denotes *)
  lit : Q -> F;
  (** the implicit [int -> float] conversion of mixed arithmetic *)
  of_int : Z -> F;
  (** [int(x)]: truncation toward zero; [None] when [x] is not finite *)
  to_int : F -> option Z;
  fadd : F -> F -> F;
  fsub : F -> F -> F;
  fmul : F -> F -> F;
  (** [x / y].  Python raises [ZeroDivisionError] on a zero divisor, which
      is not modelled: the program divides by nonzero literals, by the
      sample rate, by a loop bound or a duration inside a loop that runs
      only when they are nonzero, by a value that passed the [1e-9] guard
      of [normalize], and, in the filters, by a cutoff that is a nonzero
      literal at every call. *)
  fdiv : F -> F -> F;
  fneg : F -> F;
  fabs : F -> F;
  (** [x < y]; [x > y] is written [fltb y x] *)
  fltb : F -> F -> bool;
  (** [math.pi] *)
  pi : F
}.

Class PyMath (F : Type) := {
  sin : F -> F;
  exp : F -> F;
  tanh : F -> F;
  (** [math.log(x)], the natural logarithm *)
  log : F -> F;
  (** [x ** y] on floats *)
  pow : F -> F -> F
}.

(** [random.Random]: a generator object is its state; [rng_random] is
    [rng.random()], one draw from [0, 1) and the advanced state. *)
Class PyRandom (F : Type) := {
  rng_state : Type;
  seed_rng : Z -> rng_state;
  rng_random : rng_state -> F * rng_state
}.

Declare Scope py_scope.
Delimit Scope py_scope with py.
Infix "+" := fadd : py_scope.
Infix "-" := fsub : py_scope.
Infix "*" := fmul : py_scope.
Infix "/" := fdiv : py_scope.
Notation "- x" := (fneg x) : py_scope.
Infix "<?" := fltb : py_scope.
Notation "x >? y" := (fltb y x) : py_scope.

(** ** Instance: IEEE-754 binary64 *)

Module Binary64.

(** [float(z)]: the nearest double, ties to even. *)
Definition of_Z (z : Z) : float :=
  SF2Prim (binary_normalize prec emax z 0 false).

(** [int(x)]: the integer part of the exact value of [x]. *)
Definition trunc (x : float) : option Z :=
  match Prim2SF x with
  | S754_zero _ => Some 0%Z
  | S754_infinity _ | S754_nan => None
  | S754_finite s m e =>
      let v := if (0 <=? e)%Z then (Z.pos m * 2 ^ e)%Z
               else (Z.pos m / 2 ^ (- e))%Z in
      Some (if s then (- v)%Z else v)
  end.

(** A decimal literal is read as the double nearest to it: numerator and
    denominator of the literals of this program are exact doubles, and
    IEEE division rounds their exact quotient correctly. *)
Definition of_Q (q : Q) : float :=
  PrimFloat.div (of_Z (Qnum q)) (of_Z (Z.pos (Qden q))).

#[global] Instance ops : PyFloat float := {|
  lit := of_Q;
  of_int := of_Z;
  to_int := trunc;
  fadd := PrimFloat.add;
  fsub := PrimFloat.sub;
  fmul := PrimFloat.mul;
  fdiv := PrimFloat.div;
  fneg := PrimFloat.opp;
  fabs := PrimFloat.abs;
  fltb := PrimFloat.ltb;
  pi := 0x1.921fb54442d18p+1%float
|}.

End Binary64.

(** ** Instance: exact reals *)

Module Exact.

Definition trunc (x : R) : Z :=
  if Rle_dec 0 x then Int_part x else (- Int_part (- x))%Z.

Definition ltb (x y : R) : bool := if Rlt_dec x y then true else false.

#[global] Instance ops : PyFloat R := {|
  lit := Q2R;
  of_int := IZR;
  to_int := fun x => Some (trunc x);
  fadd := Rplus;
  fsub := Rminus;
  fmul := Rmult;
  fdiv := Rdiv;
  fneg := Ropp;
  fabs := Rabs;
  fltb := ltb;
  pi := PI
|}.

(** [x ** y]: the real power of a positive base; 1 for a zero exponent; 0
    for a zero base and a positive exponent; for a negative base and an
    integer exponent the power of the absolute value, with the sign of the
    parity.  Where Python leaves the floats (a zero base with a negative
    exponent raises, a negative base with a fractional exponent is complex)
    the value is 0; the program has no such power. *)
Definition power (x y : R) : R :=
  if Req_dec_T y 0 then 1%R
  else if Rlt_dec 0 x then Rpower x y
  else if Req_dec_T x 0 then 0%R
  else if Req_dec_T (IZR (Int_part y)) y
       then if Z.even (Int_part y) then Rpower (- x) y
            else (- Rpower (- x) y)%R
       else 0%R.

#[global] Instance math : PyMath R := {|
  sin := Rtrigo_def.sin;
  exp := Rtrigo_def.exp;
  tanh := Rtrigo_def.tanh;
  log := ln;
  pow := power
|}.

End Exact.

(** ** Python control and data *)

(** [for i in range(n): s = body(i, s)] *)
Definition for_range {S : Type} (n : nat) (body : nat -> S -> S) (s : S) : S :=
  fold_left (fun acc i => body i acc) (seq 0 n) s.

(** The same loop with a body that can raise: the first error ends it. *)
Definition for_range_err {S : Type} (n : nat) (body : nat -> S -> option S)
    (s : S) : option S :=
  fold_left (fun acc i => acc ≫= body i) (seq 0 n) (Some s).

(** [range(n)] of a Python int is empty when [n <= 0]. *)
Definition range_len (n : Z) : nat := Z.to_nat n.

(** List indexing [l[idx]]: a negative index counts from the end, an index
    outside [-len, len) raises [IndexError]. *)
Definition py_index (len : nat) (idx : Z) : option nat :=
  if (0 <=? idx)%Z && (idx <? Z.of_nat len)%Z then Some (Z.to_nat idx)
  else if (- Z.of_nat len <=? idx)%Z && (idx <? 0)%Z
       then Some (Z.to_nat (Z.of_nat len + idx))
       else None.

(** [l[idx] = f(l[idx])], as in [l[idx] *= x] and [l[idx] += x]. *)
Definition list_update {A : Type} (f : A -> A) (idx : Z) (l : list A)
    : option (list A) :=
  i ← py_index (length l) idx; Some (alter f i l).

(** [if phase > threshold: phase -= threshold], the phase reduction of the
    oscillator loops *)
Definition wrap_at `{PyFloat F} (threshold phase : F) : F :=
  if (phase >? threshold)%py then (phase - threshold)%py else phase.

(** No reduction: the phase of a reference oscillator only advances. *)
Definition no_wrap {F : Type} (phase : F) : F := phase.

(** [max(a, b)] on two floats: [b] when it compares greater, else [a]. *)
Definition py_max2 `{PyFloat F} (a b : F) : F :=
  if (b >? a)%py then b else a.

(** [max(xs)] on floats: the first element, replaced by each later one that
    compares greater; [ValueError] on an empty sequence. *)
Definition py_max `{PyFloat F} (xs : list F) : option F :=
  match xs with
  | [] => None
  | x :: rest => Some (fold_left (fun m y => if (y >? m)%py then y else m) rest x)
  end.

(** [min(a, b)] on two floats: [b] when it compares smaller, else [a]. *)
Definition py_min2 `{PyFloat F} (a b : F) : F :=
  if (b <? a)%py then b else a.

(** [struct.pack("<h", v)]: the two bytes of a 16-bit two's complement
    integer, low byte first; [struct.error] outside [-32768, 32767]. *)
Definition pack_h (v : Z) : option (list Z) :=
  if ((-32768 <=? v) && (v <=? 32767))%Z
  then let u := (v mod 65536)%Z in Some [u mod 256; u / 256]%Z
  else None.

(** [struct.pack(f"<{len(vs)}h", *vs)]: the values packed one after the
    other. *)
Definition struct_pack_h (vs : list Z) : option (list Z) :=
  bss ← mapM pack_h vs; Some (concat bss).

(** [enumerate(l)] *)
Definition enumerate {A : Type} (l : list A) : list (nat * A) :=
  zip (seq 0 (length l)) l.

(** ** Ambient interpreter state

    What a Python function could consult besides its arguments: the hidden
    module-level generator behind [random.random()], and the operating
    system's entropy (or the clock) that seeds a generator created without
    a seed. *)
Record Ambient `{PyRandom F} := {
  module_rng : rng_state;
  os_entropy : Z
}.
Arguments Ambient F {_}.

Definition SAMPLE_RATE : Z := 44100.

(** ** The front end of the encoder

    [encode_mp3(pcm_samples, output_path, bitrate)] turns the samples into
    16-bit integers, packs them, and hands the bytes to the LAME encoder
    and to the file system.  The embedding stops at the packed bytes. *)

Section Encoder.
Context {F : Type} `{PyFloat F}.

Local Open Scope py_scope.

(** One pass of the first loop of [encode_mp3]:
    [s = max(-1.0, min(1.0, s)); int16_samples.append(int(s * 32767))]. *)
Definition int16_sample (s : F) : option Z :=
  let s := py_max2 (- lit 1) (py_min2 (lit 1) s) in
  to_int (s * of_int 32767).

(** [int16_samples] after the loop *)
Definition int16_samples (pcm_samples : list F) : option (list Z) :=
  mapM int16_sample pcm_samples.

(** [raw] of [encode_mp3] *)
Definition encode_mp3_raw (pcm_samples : list F) : option (list Z) :=
  int16_samples pcm_samples ≫= struct_pack_h.

End Encoder.

(** ** Primitives *)

Section Primitives.
Context {F : Type} `{PyFloat F} `{PyMath F} `{PyRandom F}.
Variable amb : Ambient F.

Local Open Scope py_scope.

(** [random.Random(x)]: a fresh generator.  Seeded with an int, its state
    is a function of that int; created with [None], it is seeded from the
    ambient entropy. *)
Definition Random (x : option Z) : rng_state :=
  match x with
  | Some seed => seed_rng seed
  | None => seed_rng (os_entropy amb)
  end.

(** [rng.uniform(a, b)] is [a + (b - a) * rng.random()]. *)
Definition uniform (a b : F) (rng : rng_state) : F * rng_state :=
  let '(u, rng) := rng_random rng in (a + (b - a) * u, rng).

(** [apply_envelope(samples, attack, release)] (defaults 0.01, 0.05).
    [i / attack_samples] divides two ints: the quotient of the two
    converted values, correctly rounded. *)
Definition apply_envelope (samples : list F) (attack release : F)
    : option (list F) :=
  let n := Z.of_nat (length samples) in
  attack_samples ← to_int (attack * of_int SAMPLE_RATE);
  release_samples ← to_int (release * of_int SAMPLE_RATE);
  result ← for_range_err (range_len attack_samples)
    (fun i result =>
       list_update
         (fun v => v * (of_int (Z.of_nat i) / of_int attack_samples))
         (Z.of_nat i) result)
    samples;
  for_range_err (range_len release_samples)
    (fun i result =>
       let idx := (n - release_samples + Z.of_nat i)%Z in
       list_update
         (fun v => v * (of_int (release_samples - Z.of_nat i)
                        / of_int release_samples))
         idx result)
    result.

(** [white_noise(n_samples, seed)] (default seed 42) *)
Definition white_noise (n_samples seed : Z) : list F :=
  let rng := Random (Some seed) in
  fst (for_range (range_len n_samples)
         (fun _ '(out, rng) =>
            let '(x, rng) := uniform (- lit 1) (lit 1) rng in
            (out ++ [x], rng))
         ([], rng)).

(** [lowpass_filter(samples, cutoff_hz)]; the [resonance] argument of the
    source is never read. *)
Definition lowpass_filter (samples : list F) (cutoff_hz : F) : list F :=
  let rc := lit 1 / (lit 2 * pi * cutoff_hz) in
  let dt := lit 1 / of_int SAMPLE_RATE in
  let alpha := dt / (rc + dt) in
  fst (fold_left
         (fun '(filtered, prev) s =>
            let y := prev + alpha * (s - prev) in
            (filtered ++ [y], y))
         samples ([], lit 0)).

Definition highpass_filter (samples : list F) (cutoff_hz : F) : list F :=
  let rc := lit 1 / (lit 2 * pi * cutoff_hz) in
  let dt := lit 1 / of_int SAMPLE_RATE in
  let alpha := rc / (rc + dt) in
  let '(filtered, _, _) :=
    fold_left
      (fun '(filtered, prev_x, prev_y) s =>
         let y := alpha * (prev_y + s - prev_x) in
         (filtered ++ [y], s, y))
      samples ([], lit 0, lit 0) in
  filtered.

Definition bandpass_filter (samples : list F) (low_hz high_hz : F) : list F :=
  highpass_filter (lowpass_filter samples high_hz) low_hz.

(** [mix] of the variadic argument [sample_lists] and the keyword
    [weights] (default [None]) *)
Definition mix (sample_lists : list (list F)) (weights : option (list F))
    : option (list F) :=
  n ← match sample_lists with
      | [] => None
      | _ => Some (max_list (length <$> sample_lists))
      end;
  let weights :=
    match weights with
    | None =>
        replicate (length sample_lists)
          (lit 1 / of_int (Z.of_nat (length sample_lists)))
    | Some ws => ws
    end in
  fold_left
    (fun acc '(sl, w) =>
       result ← acc;
       for_range_err (length sl)
         (fun i result =>
            s ← sl !! i;
            list_update (fun v => v + s * w) (Z.of_nat i) result)
         result)
    (zip sample_lists weights)
    (Some (replicate n (lit 0))).

(** [sine_wave(freq, n_samples, phase, amp)] *)
Definition sine_wave (freq : F) (n_samples : Z) (phase amp : F) : list F :=
  (fun i : nat =>
     amp * sin (of_int 2 * pi * freq * of_int (Z.of_nat i)
                / of_int SAMPLE_RATE + phase))
  <$> seq 0 (range_len n_samples).

(** One pass of the body of the loop of [sine_wave_varying]; the state is
    [(samples, phase)].  [reduce] is the last statement of the body, the
    phase reduction: [wrap_at (2 * math.pi)] in the program. *)
Definition sine_wave_varying_step (reduce : F -> F) (freq_fn : F -> F) (amp : F)
    (i : nat) (st : list F * F) : list F * F :=
  let '(samples, phase) := st in
  let t := of_int (Z.of_nat i) / of_int SAMPLE_RATE in
  let freq := freq_fn t in
  let samples := samples ++ [amp * sin phase] in
  let phase := phase + of_int 2 * pi * freq / of_int SAMPLE_RATE in
  let phase := reduce phase in
  (samples, phase).

Definition sine_wave_varying_loop (reduce : F -> F) (freq_fn : F -> F)
    (n_samples : Z) (amp : F) : list F * F :=
  for_range (range_len n_samples) (sine_wave_varying_step reduce freq_fn amp)
    ([], lit 0).

(** [sine_wave_varying(freq_fn, n_samples, amp)] *)
Definition sine_wave_varying (freq_fn : F -> F) (n_samples : Z) (amp : F)
    : list F :=
  (sine_wave_varying_loop (wrap_at (of_int 2 * pi)) freq_fn n_samples amp).1.

(** [normalize(samples, peak)] (default peak 0.85) *)
Definition normalize (samples : list F) (peak : F) : option (list F) :=
  max_val ← py_max (fabs <$> samples);
  if max_val <? lit 1e-9 then Some samples
  else
    let scale := peak / max_val in
    Some ((fun s => s * scale) <$> samples).

(** [note_to_freq(note)]: [note - 69] is int arithmetic, [2 ** x] the
    float power. *)
Definition note_to_freq (note : Z) : F :=
  lit 440 * pow (of_int 2) (of_int (note - 69) / lit 12).

(** [overlay_samples(base, overlay, start_sample, amp)] (default amp 1.0) *)
Definition overlay_samples (base overlay : list F) (start_sample : Z) (amp : F)
    : option (list F) :=
  fold_left
    (fun acc '(i, s) =>
       result ← acc;
       let idx := (start_sample + Z.of_nat i)%Z in
       if (idx <? Z.of_nat (length result))%Z
       then list_update (fun v => v + s * amp) idx result
       else Some result)
    (enumerate overlay)
    (Some base).

End Primitives.

(** ** Sound recipes

    Every oscillator loop below takes the reduction of its phase, the last
    statement of its body in the source, as the parameter [reduce]: the
    recipe passes the [wrap_at] of the source, the reference oscillators
    further down pass [no_wrap]. *)

Section Recipes.
Context {F : Type} `{PyFloat F} `{PyMath F} `{PyRandom F}.
Variable amb : Ambient F.

Local Open Scope py_scope.

(** [i / SAMPLE_RATE] *)
Definition time_of (i : nat) : F := of_int (Z.of_nat i) / of_int SAMPLE_RATE.

(** [n = int(duration * SAMPLE_RATE)] *)
Definition n_samples_of (duration : F) : option Z :=
  to_int (duration * of_int SAMPLE_RATE).

(** [[samples[i] * a + noise[i] * b for i in range(n)]] *)
Definition blend (n : Z) (samples noise : list F) (a b : F) : option (list F) :=
  mapM (fun i => s ← samples !! i; x ← noise !! i; Some (s * a + x * b))
       (seq 0 (range_len n)).

(** [[xs[i] * a + ys[i] * b + zs[i] * c for i in range(n)]] *)
Definition blend3 (n : Z) (xs ys zs : list F) (a b c : F) : option (list F) :=
  mapM (fun i =>
          x ← xs !! i; y ← ys !! i; z ← zs !! i;
          Some (x * a + y * b + z * c))
       (seq 0 (range_len n)).

(** [[s * modulation(i / SAMPLE_RATE) for i, s in enumerate(samples)]] *)
Definition modulate (modulation : F -> F) (samples : list F) : list F :=
  (fun '(i, s) => s * modulation (time_of i)) <$> enumerate samples.

(** [normalize(apply_envelope(result, attack=a, release=a), peak)], the
    last line of the engines and of the tracks *)
Definition fade_and_normalize (result : list F) (attack peak : F)
    : option (list F) :=
  enveloped ← apply_envelope result attack attack;
  normalize enveloped peak.

(** *** Engines *)

(** The oscillator loop of [gen_biplane_engine]; the state is
    [(samples, phase, rng)]. *)
Definition biplane_step (reduce : F -> F) (i : nat)
    (st : list F * F * rng_state) : list F * F * rng_state :=
  let '(samples, phase, rng) := st in
  let t := time_of i in
  let base_freq := lit 95 + lit 20 * sin (of_int 2 * pi * lit 0.7 * t) in
  let '(u, rng) := uniform (of_int (-1)) (of_int 1) rng in
  let irregularity :=
    lit 1 + lit 0.08 * sin (of_int 2 * pi * lit 3.1 * t) + lit 0.03 * u in
  let freq := base_freq * irregularity in
  let s := lit 0.5 * sin phase
           + lit 0.25 * sin (of_int 2 * phase)
           + lit 0.15 * sin (of_int 3 * phase)
           + lit 0.08 * sin (of_int 4 * phase)
           + lit 0.04 * sin (of_int 6 * phase) in
  let samples := samples ++ [s] in
  let phase := phase + of_int 2 * pi * freq / of_int SAMPLE_RATE in
  let phase := reduce phase in
  (samples, phase, rng).

Definition biplane_loop (reduce : F -> F) (n : Z) : list F * F * rng_state :=
  for_range (range_len n) (biplane_step reduce)
    ([], lit 0, Random amb (Some 1%Z)).

(** [gen_biplane_engine(duration)] (default 4.0) *)
Definition gen_biplane_engine (duration : F) : option (list F) :=
  n ← n_samples_of duration;
  let samples := (biplane_loop (wrap_at (of_int 6 * pi)) n).1.1 in
  let noise := lowpass_filter (white_noise amb n 2) (of_int 200) in
  combined ← blend n samples noise (lit 0.75) (lit 0.15);
  let result :=
    modulate (fun t => lit 0.85 + lit 0.15 * sin (of_int 2 * pi * lit 14 * t))
             combined in
  fade_and_normalize result (lit 0.05) (lit 0.85).

(** The oscillator loop of [gen_prop_engine]; the state is
    [(samples, phase)]. *)
Definition prop_step (reduce : F -> F) (i : nat) (st : list F * F)
    : list F * F :=
  let '(samples, phase) := st in
  let t := time_of i in
  let freq := lit 175 + lit 8 * sin (of_int 2 * pi * lit 0.4 * t) in
  let s := lit 0.45 * sin phase
           + lit 0.30 * sin (of_int 2 * phase)
           + lit 0.15 * sin (of_int 3 * phase)
           + lit 0.07 * sin (of_int 4 * phase)
           + lit 0.03 * sin (of_int 5 * phase) in
  let samples := samples ++ [s] in
  let phase := phase + of_int 2 * pi * freq / of_int SAMPLE_RATE in
  let phase := reduce phase in
  (samples, phase).

Definition prop_loop (reduce : F -> F) (n : Z) : list F * F :=
  for_range (range_len n) (prop_step reduce) ([], lit 0).

(** [gen_prop_engine(duration)] (default 4.0).  The generator
    [random.Random(3)] of the source is created and never drawn from. *)
Definition gen_prop_engine (duration : F) : option (list F) :=
  n ← n_samples_of duration;
  let _rng := Random amb (Some 3%Z) in
  let samples := (prop_loop (wrap_at (of_int 10 * pi)) n).1 in
  let result :=
    modulate (fun t => lit 0.92 + lit 0.08 * sin (of_int 2 * pi * lit 8.5 * t))
             samples in
  let noise := lowpass_filter (white_noise amb n 4) (of_int 400) in
  combined ← blend n result noise (lit 0.88) (lit 0.08);
  fade_and_normalize combined (lit 0.05) (lit 0.85).

Definition bomber_freqs : list F := [lit 68; lit 72; lit 76; lit 80].
Definition bomber_phases : list F := [lit 0; lit 0.5; lit 1; lit 1.5].

(** The inner loop of [gen_bomber_engine], one engine of the four; the
    state is [(samples, phase)], and [samples[i] += s * 0.25] updates the
    shared buffer in place. *)
Definition bomber_step (reduce : F -> F) (base_freq : F) (fi : nat) (i : nat)
    (st : list F * F) : option (list F * F) :=
  let '(samples, phase) := st in
  let t := time_of i in
  let freq :=
    base_freq
    + lit 3 * sin (of_int 2 * pi * lit 0.3 * t + of_int (Z.of_nat fi)) in
  let s := lit 0.5 * sin phase
           + lit 0.25 * sin (of_int 2 * phase)
           + lit 0.12 * sin (of_int 3 * phase)
           + lit 0.08 * sin (of_int 4 * phase) in
  samples ← list_update (fun v => v + s * lit 0.25) (Z.of_nat i) samples;
  let phase := phase + of_int 2 * pi * freq / of_int SAMPLE_RATE in
  let phase := reduce phase in
  Some (samples, phase).

(** The outer loop,
    [for fi, (base_freq, init_phase) in enumerate(zip(freqs, phases))]. *)
Definition bomber_loop (reduce : F -> F) (n : Z) : option (list F) :=
  fold_left
    (fun acc '(fi, (base_freq, init_phase)) =>
       samples ← acc;
       fst <$> for_range_err (range_len n) (bomber_step reduce base_freq fi)
                 (samples, init_phase))
    (enumerate (zip bomber_freqs bomber_phases))
    (Some (replicate (range_len n) (lit 0))).

(** [gen_bomber_engine(duration)] (default 5.0) *)
Definition gen_bomber_engine (duration : F) : option (list F) :=
  n ← n_samples_of duration;
  samples ← bomber_loop (wrap_at (of_int 8 * pi)) n;
  let result :=
    modulate (fun t => lit 0.80 + lit 0.20 * sin (of_int 2 * pi * lit 6 * t))
             samples in
  let noise := lowpass_filter (white_noise amb n 5) (of_int 150) in
  combined ← blend n result noise (lit 0.82) (lit 0.12);
  fade_and_normalize combined (lit 0.08) (lit 0.85).

(** The turbine whine of [gen_jet_engine]; the state is [(whine, phase)]. *)
Definition jet_step (reduce : F -> F) (i : nat) (st : list F * F)
    : list F * F :=
  let '(whine, phase) := st in
  let t := time_of i in
  let freq := of_int 820 + of_int 30 * sin (of_int 2 * pi * lit 0.6 * t) in
  let s := sin phase * lit 0.3 + sin (of_int 2 * phase) * lit 0.15 in
  let whine := whine ++ [s] in
  let phase := phase + of_int 2 * pi * freq / of_int SAMPLE_RATE in
  let phase := reduce phase in
  (whine, phase).

Definition jet_loop (reduce : F -> F) (n : Z) : list F * F :=
  for_range (range_len n) (jet_step reduce) ([], lit 0).

(** [gen_jet_engine(duration)] (default 4.0) *)
Definition gen_jet_engine (duration : F) : option (list F) :=
  n ← n_samples_of duration;
  let noise := white_noise amb n 6 in
  let bp := bandpass_filter noise (of_int 2000) (of_int 6000) in
  let bp2 := bandpass_filter bp (of_int 1500) (of_int 8000) in
  let whine := (jet_loop (wrap_at (of_int 4 * pi)) n).1 in
  let rumble := lowpass_filter (white_noise amb n 7) (of_int 120) in
  combined ← blend3 n bp2 whine rumble (lit 0.55) (lit 0.25) (lit 0.15);
  let result :=
    modulate (fun t => lit 0.93 + lit 0.07 * sin (of_int 2 * pi * lit 47 * t))
             combined in
  fade_and_normalize result (lit 0.06) (lit 0.85).

(** The rumble of [gen_rocket_engine]; the state is [(rumble, phase)]. *)
Definition rocket_step (reduce : F -> F) (i : nat) (st : list F * F)
    : list F * F :=
  let '(rumble, phase) := st in
  let t := time_of i in
  let freq := lit 45 + of_int 10 * sin (of_int 2 * pi * lit 0.8 * t) in
  let s := sin phase * lit 0.6
           + sin (of_int 2 * phase) * lit 0.3
           + sin (of_int 3 * phase) * lit 0.1 in
  let rumble := rumble ++ [s] in
  let phase := phase + of_int 2 * pi * freq / of_int SAMPLE_RATE in
  let phase := reduce phase in
  (rumble, phase).

Definition rocket_loop (reduce : F -> F) (n : Z) : list F * F :=
  for_range (range_len n) (rocket_step reduce) ([], lit 0).

(** [gen_rocket_engine(duration)] (default 4.0) *)
Definition gen_rocket_engine (duration : F) : option (list F) :=
  n ← n_samples_of duration;
  let noise1 := white_noise amb n 8 in
  let noise_lp := lowpass_filter noise1 (of_int 3000) in
  let noise2 :=
    bandpass_filter (white_noise amb n 9) (of_int 300) (of_int 1200) in
  let rumble := (rocket_loop (wrap_at (of_int 6 * pi)) n).1 in
  combined ← blend3 n noise_lp noise2 rumble (lit 0.45) (lit 0.30) (lit 0.25);
  let result :=
    modulate
      (fun t =>
         lit 0.88
         + lit 0.12 * (sin (of_int 2 * pi * lit 23 * t) * lit 0.5
                       + sin (of_int 2 * pi * lit 37 * t) * lit 0.5))
      combined in
  fade_and_normalize result (lit 0.04) (lit 0.85).

(** [gen_wind(duration)] (default 5.0) *)
Definition gen_wind (duration : F) : option (list F) :=
  n ← n_samples_of duration;
  let low_wind := lowpass_filter (white_noise amb n 10) (of_int 400) in
  let mid_wind :=
    bandpass_filter (white_noise amb n 11) (of_int 200) (of_int 1200) in
  result ←
    mapM (fun i =>
            let t := time_of i in
            let gust :=
              lit 0.75
              + lit 0.15 * sin (of_int 2 * pi * lit 0.3 * t)
              + lit 0.10 * sin (of_int 2 * pi * lit 0.7 * t + lit 1.2) in
            lo ← low_wind !! i; mid ← mid_wind !! i;
            let s := lo * lit 0.65 + mid * lit 0.35 in
            Some (s * gust))
         (seq 0 (range_len n));
  fade_and_normalize result (lit 0.15) (lit 0.6).

(** *** Instruments *)

Definition piano_step (reduce : F -> F) (freq amp : F) (i : nat)
    (st : list F * F) : list F * F :=
  let '(samples, phase) := st in
  let t := time_of i in
  let env := exp (- t * lit 3.5) * (lit 1 - exp (- t * lit 60)) in
  let s := sin phase * lit 0.50
           + sin (of_int 2 * phase) * lit 0.25
           + sin (of_int 3 * phase) * lit 0.12
           + sin (of_int 4 * phase) * lit 0.08
           + sin (of_int 6 * phase) * lit 0.05 in
  let samples := samples ++ [s * env * amp] in
  let phase := phase + of_int 2 * pi * freq / of_int SAMPLE_RATE in
  let phase := reduce phase in
  (samples, phase).

Definition piano_loop (reduce : F -> F) (freq amp : F) (n : Z) : list F * F :=
  for_range (range_len n) (piano_step reduce freq amp) ([], lit 0).

(** [gen_piano_note(freq, duration, amp)] *)
Definition gen_piano_note (freq duration amp : F) : option (list F) :=
  n ← n_samples_of duration;
  Some (piano_loop (wrap_at (of_int 12 * pi)) freq amp n).1.

(** [gen_kick(duration)] (default 0.25) *)
Definition gen_kick (duration : F) : option (list F) :=
  n ← n_samples_of duration;
  Some ((fun i : nat =>
           let t := time_of i in
           let freq := of_int 150 * exp (- t * of_int 20) in
           let env := exp (- t * of_int 18) in
           let s := sin (of_int 2 * pi * freq * t) in
           let click := exp (- t * of_int 200) * lit 0.5 in
           (s + click) * env)
        <$> seq 0 (range_len n)).

(** [gen_hihat(duration, open_hat)] (defaults 0.08, [False]) *)
Definition gen_hihat (duration : F) (open_hat : bool) : option (list F) :=
  let decay := if negb open_hat then lit 2 else lit 12 in
  n ← to_int (if negb open_hat then duration * of_int SAMPLE_RATE
              else lit 0.15 * of_int SAMPLE_RATE);
  let noise := white_noise amb n 20 in
  let hp := bandpass_filter noise (of_int 6000) (of_int 16000) in
  Some ((fun '(i, s) =>
           let t := time_of i in
           let env := exp (- t * (decay * of_int 10)) in
           s * env * lit 0.4)
        <$> enumerate hp).

(** The loop of [gen_snare]; its tone phase is never reduced. *)
Definition snare_step (bp : list F) (i : nat) (st : list F * F)
    : option (list F * F) :=
  let '(result, tone_phase) := st in
  let t := time_of i in
  let env := exp (- t * of_int 25) in
  let tone := sin tone_phase * lit 0.3 in
  x ← bp !! i;
  let result := result ++ [(x * lit 0.7 + tone) * env * lit 0.6] in
  let tone_phase :=
    tone_phase + of_int 2 * pi * of_int 200 / of_int SAMPLE_RATE in
  Some (result, tone_phase).

(** [gen_snare(duration)] (default 0.15) *)
Definition gen_snare (duration : F) : option (list F) :=
  n ← n_samples_of duration;
  let noise := white_noise amb n 25 in
  let bp := bandpass_filter noise (of_int 800) (of_int 5000) in
  fst <$> for_range_err (range_len n) (snare_step bp) ([], lit 0).

(** [apply_lofi_filter(samples)] *)
Definition apply_lofi_filter (samples : list F) : list F :=
  let lp := lowpass_filter samples (of_int 8000) in
  (fun s => tanh (s * lit 1.3) * lit 0.77) <$> lp.

(** *** Effects *)

(** The exponential sweep
    [f0 * math.exp(t * math.log(f1 / f0) / duration)] of the effects;
    [f1 / f0] divides two ints. *)
Definition sweep (f0 f1 : Z) (duration t : F) : F :=
  of_int f0 * exp (t * log (of_int f1 / of_int f0) / duration).

Definition clue_pop_step (reduce : F -> F) (duration : F) (i : nat)
    (st : list F * F) : list F * F :=
  let '(samples, phase) := st in
  let t := time_of i in
  let freq := sweep 200 800 duration t in
  let env := exp (- t * of_int 18) * (of_int 1 - exp (- t * of_int 200)) in
  let s := sin phase * lit 0.7
           + sin (of_int 2 * phase) * lit 0.2
           + sin (of_int 3 * phase) * lit 0.1 in
  let samples := samples ++ [s * env] in
  let phase := phase + of_int 2 * pi * freq / of_int SAMPLE_RATE in
  let phase := reduce phase in
  (samples, phase).

Definition clue_pop_loop (reduce : F -> F) (duration : F) (n : Z) : list F * F :=
  for_range (range_len n) (clue_pop_step reduce duration) ([], lit 0).

(** [gen_clue_pop(duration)] (default 0.4) *)
Definition gen_clue_pop (duration : F) : option (list F) :=
  n ← n_samples_of duration;
  normalize (clue_pop_loop (wrap_at (of_int 6 * pi)) duration n).1 (lit 0.85).

(** The chord of [gen_landing_success]: [(t_start, freq, amp)]. *)
Definition chord_notes : list (F * F * F) :=
  [ (lit 0, lit 523.25, lit 0.35);
    (lit 0.15, lit 659.25, lit 0.35);
    (lit 0.30, lit 783.99, lit 0.35);
    (lit 0.50, lit 1046.50, lit 0.40) ].

Definition chime_step (reduce : F -> F) (freq amp : F) (i : nat)
    (st : list F * F) : list F * F :=
  let '(note_samples, phase) := st in
  let t := time_of i in
  let env := exp (- t * lit 5) * (of_int 1 - exp (- t * of_int 80)) in
  let s := sin phase * lit 0.5
           + sin (of_int 2 * phase) * lit 0.3
           + sin (of_int 3 * phase) * lit 0.15
           + sin (of_int 4 * phase) * lit 0.05 in
  let note_samples := note_samples ++ [s * env * amp] in
  let phase := phase + of_int 2 * pi * freq / of_int SAMPLE_RATE in
  let phase := reduce phase in
  (note_samples, phase).

Definition chime_loop (reduce : F -> F) (freq amp : F) (note_n : Z)
    : list F * F :=
  for_range (range_len note_n) (chime_step reduce freq amp) ([], lit 0).

(** The loop over the chord, with the reduction of the inner loop as a
    parameter. *)
Definition landing_chord (reduce : F -> F) (duration : F) (result : list F)
    : option (list F) :=
  fold_left
    (fun acc '(t_start, freq, amp) =>
       result ← acc;
       let note_dur := duration - t_start in
       note_n ← to_int (note_dur * of_int SAMPLE_RATE);
       let note_samples := (chime_loop reduce freq amp note_n).1 in
       start_idx ← to_int (t_start * of_int SAMPLE_RATE);
       overlay_samples result note_samples start_idx (lit 1))
    chord_notes (Some result).

(** [gen_landing_success(duration)] (default 0.9) *)
Definition gen_landing_success (duration : F) : option (list F) :=
  n ← n_samples_of duration;
  let result := replicate (range_len n) (lit 0) in
  result ← landing_chord (wrap_at (of_int 8 * pi)) duration result;
  normalize result (lit 0.85).

Definition coin_freq1 : F := lit 1318.5.
Definition coin_freq2 : F := lit 2093.
Definition coin_freq3 : F := lit 880.

(** The loop of [gen_coin_collect]; the state is
    [(samples, phase1, phase2, phase3)].  The inner loop
    [for p in [phase1, phase2, phase3]: if p > 2 * math.pi: p -= 2 * math.pi]
    assigns to its own variable [p]: it is run, and its last value of [p]
    is dropped with the iteration. *)
Definition coin_step (i : nat) (st : list F * F * F * F) : list F * F * F * F :=
  let '(samples, phase1, phase2, phase3) := st in
  let t := time_of i in
  let env := exp (- t * of_int 15) * (of_int 1 - exp (- t * of_int 300)) in
  let s := sin phase1 * lit 0.5 + sin phase2 * lit 0.3 + sin phase3 * lit 0.2 in
  let samples := samples ++ [s * env] in
  let phase1 := phase1 + of_int 2 * pi * coin_freq1 / of_int SAMPLE_RATE in
  let phase2 := phase2 + of_int 2 * pi * coin_freq2 / of_int SAMPLE_RATE in
  let phase3 := phase3 + of_int 2 * pi * coin_freq3 / of_int SAMPLE_RATE in
  let _p :=
    fold_left (fun (_ : option F) p => Some (wrap_at (of_int 2 * pi) p))
              [phase1; phase2; phase3] None in
  (samples, phase1, phase2, phase3).

Definition coin_loop (n : nat) : list F * F * F * F :=
  for_range n coin_step ([], lit 0, lit 0, lit 0).

(** [gen_coin_collect(duration)] (default 0.35) *)
Definition gen_coin_collect (duration : F) : option (list F) :=
  n ← n_samples_of duration;
  let '(samples, _, _, _) := coin_loop (range_len n) in
  normalize samples (lit 0.85).

(** The second loop of [gen_ui_click], the tonal component added in place;
    its phase is never reduced. *)
Definition ui_click_step (i : nat) (st : list F * F) : option (list F * F) :=
  let '(samples, phase) := st in
  let freq := lit 1200 in
  let t := time_of i in
  let env := exp (- t * of_int 150) in
  samples ← list_update (fun v => v + sin phase * env * lit 0.4)
              (Z.of_nat i) samples;
  let phase := phase + of_int 2 * pi * freq / of_int SAMPLE_RATE in
  Some (samples, phase).

(** [gen_ui_click(duration)] (default 0.06) *)
Definition gen_ui_click (duration : F) : option (list F) :=
  n ← n_samples_of duration;
  let noise := white_noise amb n 30 in
  let bp := bandpass_filter noise (of_int 800) (of_int 4000) in
  let samples :=
    (fun '(i, s) =>
       let t := time_of i in
       let env := exp (- t * of_int 120) * (of_int 1 - exp (- t * of_int 1000)) in
       s * env * lit 0.7)
    <$> enumerate bp in
  st ← for_range_err (range_len n) ui_click_step (samples, lit 0);
  normalize st.1 (lit 0.80).

Definition altitude_step (reduce : F -> F) (duration : F) (noise : list F)
    (i : nat) (st : list F * F) : option (list F * F) :=
  let '(result, phase) := st in
  let t := time_of i in
  let freq := sweep 300 1800 duration t in
  let env := sin (pi * t / duration) in
  let tone := sin phase * lit 0.4 in
  x ← noise !! i;
  let noise_val := x * lit 0.3 in
  let result := result ++ [(tone + noise_val) * env] in
  let phase := phase + of_int 2 * pi * freq / of_int SAMPLE_RATE in
  let phase := reduce phase in
  Some (result, phase).

Definition altitude_loop (reduce : F -> F) (duration : F) (n : Z)
    : option (list F * F) :=
  let noise := white_noise amb n 35 in
  for_range_err (range_len n) (altitude_step reduce duration noise) ([], lit 0).

(** [gen_altitude_change(duration)] (default 0.6) *)
Definition gen_altitude_change (duration : F) : option (list F) :=
  n ← n_samples_of duration;
  st ← altitude_loop (wrap_at (of_int 2 * pi)) duration n;
  normalize st.1 (lit 0.82).

Definition boost_step (reduce : F -> F) (duration : F) (noise_hp : list F)
    (i : nat) (st : list F * F) : option (list F * F) :=
  let '(samples, phase) := st in
  let t := time_of i in
  let freq := sweep 200 1200 duration t in
  let env :=
    pow (t / duration) (lit 0.5)
    * exp (- pow (t - duration) (of_int 2) * of_int 8) in
  let env := py_max2 (lit 0) env in
  let s := sin phase * lit 0.45
           + sin (of_int 2 * phase) * lit 0.30
           + sin (of_int 3 * phase) * lit 0.15
           + sin (of_int 4 * phase) * lit 0.10 in
  let noise_amp := t / duration * lit 0.25 in
  x ← noise_hp !! i;
  let result_s := s * lit 0.75 + x * noise_amp in
  let samples := samples ++ [result_s * env] in
  let phase := phase + of_int 2 * pi * freq / of_int SAMPLE_RATE in
  let phase := reduce phase in
  Some (samples, phase).

Definition boost_loop (reduce : F -> F) (duration : F) (n : Z)
    : option (list F * F) :=
  let noise := white_noise amb n 40 in
  let noise_hp := highpass_filter noise (of_int 800) in
  for_range_err (range_len n) (boost_step reduce duration noise_hp) ([], lit 0).

(** [gen_boost_start(duration)] (default 0.8) *)
Definition gen_boost_start (duration : F) : option (list F) :=
  n ← n_samples_of duration;
  st ← boost_loop (wrap_at (of_int 8 * pi)) duration n;
  normalize st.1 (lit 0.85).

End Recipes.

(** ** Sequencer: the three lo-fi tracks *)

(** A note of a melody or bass list: [(beat_off, note, dur_beats, amp)],
    with the literals of the source as rationals. *)
Definition NoteEvent : Type := Q * Z * Q * Q.

Definition note (beat_off : Q) (pitch : Z) (dur_beats amp : Q) : NoteEvent :=
  (beat_off, pitch, dur_beats, amp).

Definition melody_notes_01 : list NoteEvent :=
  [ note 0 72 1.0 0.6; note 1 69 0.5 0.5; note 1.5 67 0.5 0.5;
    note 2 64 1.0 0.55; note 3 67 0.5 0.5; note 3.5 69 0.5 0.5;
    note 4 72 1.5 0.6; note 5.5 67 0.5 0.5; note 6 64 1.0 0.55;
    note 7 60 1.0 0.5; note 8 69 0.75 0.55; note 9 67 0.5 0.5;
    note 9.5 64 0.5 0.5; note 10 72 1.0 0.6; note 11 69 1.0 0.55 ].

Definition bass_notes_01 : list NoteEvent :=
  [ note 0 48 1.0 0.45; note 2 43 1.0 0.40; note 4 48 1.0 0.45;
    note 6 45 1.0 0.40; note 8 48 1.0 0.45; note 10 43 1.0 0.40 ].

Definition melody_notes_02 : list NoteEvent :=
  [ note 0 69 1.0 0.6; note 1 67 0.5 0.5; note 1.5 64 0.5 0.5;
    note 2 62 1.5 0.55; note 3.5 60 0.5 0.5; note 4 64 1.0 0.6;
    note 5 67 0.75 0.55; note 5.75 69 1.25 0.6; note 7 64 1.0 0.55;
    note 8 60 0.5 0.5; note 8.5 62 0.5 0.5; note 9 67 1.0 0.55;
    note 10 69 1.5 0.6; note 11.5 67 1.5 0.5 ].

Definition bass_notes_02 : list NoteEvent :=
  [ note 0 45 1.5 0.45; note 2 43 1.0 0.40; note 4 45 1.5 0.45;
    note 6 40 1.0 0.40; note 8 45 1.5 0.45; note 10 43 1.0 0.40 ].

Definition melody_notes_03 : list NoteEvent :=
  [ note 0 72 0.75 0.6; note 0.75 74 0.5 0.55; note 1.25 72 0.5 0.5;
    note 1.75 69 0.75 0.55; note 2.5 67 0.5 0.5; note 3 65 1.0 0.6;
    note 4 69 0.5 0.55; note 4.5 72 1.0 0.6; note 5.5 74 0.75 0.55;
    note 6.25 72 0.5 0.5; note 6.75 67 0.75 0.55; note 7.5 65 0.5 0.5;
    note 8 72 1.0 0.6; note 9 69 0.5 0.55; note 9.5 67 0.5 0.5;
    note 10 65 1.5 0.6; note 11.5 67 0.5 0.5; note 12 69 1.0 0.55;
    note 13 65 1.0 0.5 ].

Definition bass_notes_03 : list NoteEvent :=
  [ note 0 53 1.0 0.45; note 2 55 1.0 0.40; note 4 53 1.0 0.45;
    note 6 57 1.0 0.40; note 8 53 1.0 0.45; note 10 55 1.0 0.40;
    note 12 53 2.0 0.45 ].

Section Sequencer.
Context {F : Type} `{PyFloat F} `{PyMath F} `{PyRandom F}.
Variable amb : Ambient F.

Local Open Scope py_scope.

(** [beat = SAMPLE_RATE * 60.0 / bpm], samples per beat *)
Definition samples_per_beat (bpm : F) : F := of_int SAMPLE_RATE * lit 60 / bpm.

(** [start = int(beat_off * beat)] of the melody and bass loops *)
Definition note_start (beat beat_off : F) : option Z := to_int (beat_off * beat).

(** [start = int(beat_idx * beat)] of the kick and snare loops *)
Definition drum_start (beat : F) (beat_idx : nat) : option Z :=
  to_int (of_int (Z.of_nat beat_idx) * beat).

(** [start = int(beat_idx_h * beat / 2)] of the half-beat hi-hat loops *)
Definition hihat_start (beat : F) (beat_idx_h : nat) : option Z :=
  to_int (of_int (Z.of_nat beat_idx_h) * beat / of_int 2).

(** The loop over a melody or bass list, the same in the three tracks. *)
Definition overlay_notes (bpm beat : F) (notes : list NoteEvent)
    (result : list F) : option (list F) :=
  fold_left
    (fun acc '(beat_off, note, dur_beats, amp) =>
       result ← acc;
       let freq := note_to_freq note in
       let dur_s := lit dur_beats * lit 60 / bpm in
       tone ← gen_piano_note freq dur_s (lit amp);
       start ← note_start beat (lit beat_off);
       overlay_samples result tone start (lit 1))
    notes (Some result).

(** A drum loop: [for beat_idx in range(count)], a hit at [start_of
    beat_idx] with amplitude [amp_of beat_idx] when [fires beat_idx]. *)
Definition overlay_drums (count : Z) (fires : nat -> bool)
    (start_of : nat -> option Z) (amp_of : nat -> F) (hit result : list F)
    : option (list F) :=
  for_range_err (range_len count)
    (fun beat_idx result =>
       if fires beat_idx then
         start ← start_of beat_idx;
         overlay_samples result hit start (amp_of beat_idx)
       else Some result)
    result.

(** The tail of every track: lo-fi colouring, fade, normalisation. *)
Definition finish_track (result : list F) : option (list F) :=
  let result := apply_lofi_filter result in
  fade_and_normalize result (lit 0.1) (lit 0.80).

(** [gen_lofi_track_01(duration)] (default 12.0) *)
Definition gen_lofi_track_01 (duration : F) : option (list F) :=
  n ← n_samples_of duration;
  let bpm := lit 75 in
  let beat := samples_per_beat bpm in
  let result := replicate (range_len n) (lit 0) in
  result ← overlay_notes bpm beat melody_notes_01 result;
  result ← overlay_notes bpm beat bass_notes_01 result;
  kick ← gen_kick (lit 0.25);
  beats ← to_int (duration * bpm / of_int 60);
  result ← overlay_drums beats (fun i => (i mod 2 =? 0)%nat)
             (drum_start beat) (fun _ => lit 0.6) kick result;
  snare ← gen_snare amb (lit 0.15);
  result ← overlay_drums beats (fun i => (i mod 2 =? 1)%nat)
             (drum_start beat) (fun _ => lit 0.5) snare result;
  hihat ← gen_hihat amb (lit 0.08) false;
  half_beats ← to_int (duration * bpm / of_int 30);
  result ← overlay_drums half_beats (fun _ => true)
             (hihat_start beat)
             (fun i => if (i mod 2 =? 0)%nat then lit 0.35 else lit 0.20)
             hihat result;
  finish_track result.

(** [gen_lofi_track_02(duration)] (default 13.0) *)
Definition gen_lofi_track_02 (duration : F) : option (list F) :=
  n ← n_samples_of duration;
  let bpm := lit 68 in
  let beat := samples_per_beat bpm in
  let result := replicate (range_len n) (lit 0) in
  result ← overlay_notes bpm beat melody_notes_02 result;
  result ← overlay_notes bpm beat bass_notes_02 result;
  kick ← gen_kick (lit 0.25);
  beats ← to_int (duration * bpm / of_int 60);
  result ← overlay_drums beats
             (fun i => bool_decide (i mod 4 ∈ [0; 2])%nat)
             (drum_start beat) (fun _ => lit 0.65) kick result;
  snare ← gen_snare amb (lit 0.15);
  result ← overlay_drums beats (fun i => (i mod 4 =? 2)%nat)
             (drum_start beat) (fun _ => lit 0.55) snare result;
  hihat ← gen_hihat amb (lit 0.08) true;
  result ← overlay_drums beats (fun i => (i mod 2 =? 1)%nat)
             (drum_start beat) (fun _ => lit 0.30) hihat result;
  finish_track result.

(** [gen_lofi_track_03(duration)] (default 14.0) *)
Definition gen_lofi_track_03 (duration : F) : option (list F) :=
  n ← n_samples_of duration;
  let bpm := lit 80 in
  let beat := samples_per_beat bpm in
  let result := replicate (range_len n) (lit 0) in
  result ← overlay_notes bpm beat melody_notes_03 result;
  result ← overlay_notes bpm beat bass_notes_03 result;
  kick ← gen_kick (lit 0.25);
  beats ← to_int (duration * bpm / of_int 60);
  result ← overlay_drums beats
             (fun i => bool_decide (i mod 4 ∈ [0; 3])%nat)
             (drum_start beat) (fun _ => lit 0.60) kick result;
  snare ← gen_snare amb (lit 0.15);
  result ← overlay_drums beats
             (fun i => bool_decide (i mod 4 ∈ [1; 2])%nat)
             (drum_start beat) (fun _ => lit 0.45) snare result;
  hihat ← gen_hihat amb (lit 0.08) false;
  half_beats ← to_int (duration * bpm / of_int 30);
  result ← overlay_drums half_beats (fun _ => true)
             (hihat_start beat)
             (fun i => if bool_decide (i mod 4 ∈ [0; 2])%nat
                       then lit 0.30 else lit 0.18)
             hihat result;
  finish_track result.

End Sequencer.


(** ** The manifest of [main] *)

Section Main.
Context {F : Type} `{PyFloat F} `{PyMath F} `{PyRandom F}.
Variable amb : Ambient F.

(** [base] of [main] *)
Definition main_base : string := "/home/user/flit/assets/audio".

(** [files] of [main]: [(path, gen_fn, kwargs["duration"])] *)
Definition main_files : list (string * (F -> option (list F)) * F) :=
  [ (main_base +:+ "/engines/biplane_engine.mp3", gen_biplane_engine amb, lit 4);
    (main_base +:+ "/engines/prop_engine.mp3", gen_prop_engine amb, lit 4);
    (main_base +:+ "/engines/bomber_engine.mp3", gen_bomber_engine amb, lit 5);
    (main_base +:+ "/engines/jet_engine.mp3", gen_jet_engine amb, lit 4);
    (main_base +:+ "/engines/rocket_engine.mp3", gen_rocket_engine amb, lit 4);
    (main_base +:+ "/engines/wind.mp3", gen_wind amb, lit 5);
    (main_base +:+ "/music/lofi_track_01.mp3", gen_lofi_track_01 amb, lit 12);
    (main_base +:+ "/music/lofi_track_02.mp3", gen_lofi_track_02 amb, lit 13);
    (main_base +:+ "/music/lofi_track_03.mp3", gen_lofi_track_03 amb, lit 14);
    (main_base +:+ "/sfx/clue_pop.mp3", gen_clue_pop, lit 0.4);
    (main_base +:+ "/sfx/landing_success.mp3", gen_landing_success, lit 0.9);
    (main_base +:+ "/sfx/coin_collect.mp3", gen_coin_collect, lit 0.35);
    (main_base +:+ "/sfx/ui_click.mp3", gen_ui_click amb, lit 0.06);
    (main_base +:+ "/sfx/altitude_change.mp3", gen_altitude_change amb, lit 0.6);
    (main_base +:+ "/sfx/boost_start.mp3", gen_boost_start amb, lit 0.8) ].

End Main.

(** ** Vocabulary of the properties *)

Section Vocabulary.
Context {F : Type} `{PyFloat F} `{PyMath F} `{PyRandom F}.
Local Open Scope py_scope.

(** What index [i] of the overlaid buffer holds, given what [base] holds
    there: the overlay sample that lands on [i], scaled and added. *)
Definition overlaid_at (overlay : list F) (start : nat) (amp : F) (i : nat)
    (b : F) : F :=
  match (if decide (start <= i)%nat then overlay !! (i - start)%nat else None) with
  | Some o => b + o * amp
  | None => b
  end.

(** The inner loop of [mix]: [for i in range(len(sl)): result[i] += sl[i] * w] *)
Definition mix_add (sl : list F) (w : F) (result : list F) : option (list F) :=
  for_range_err (length sl)
    (fun i result =>
       s ← sl !! i;
       list_update (fun v => v + s * w) (Z.of_nat i) result)
    result.

(** The factor of the attack ramp at index [i], and of the release ramp at
    its [i]-th sample. *)
Definition attack_gain (a : Z) (i : nat) : F :=
  of_int (Z.of_nat i) / of_int a.
Definition release_gain (r : Z) (i : nat) : F :=
  of_int (r - Z.of_nat i) / of_int r.

(** The generator seeded with [seed], after [i] draws. *)
Definition rng_after (seed : Z) (i : nat) : rng_state :=
  Nat.iter i (fun rng => snd (rng_random rng)) (seed_rng seed).

(** The [i]-th sample [rng.uniform(-1.0, 1.0)] of that generator. *)
Definition noise_sample (seed : Z) (i : nat) : F :=
  let u := fst (rng_random (rng_after seed i)) in
  - lit 1 + (lit 1 - - lit 1) * u.

(** The reference of [sine_wave_varying]: the same loop, its phase never
    reduced. *)
Definition sine_wave_varying_reference (freq_fn : F -> F) (n_samples : Z)
    (amp : F) : list F :=
  (sine_wave_varying_loop no_wrap freq_fn n_samples amp).1.

(** The phase accumulators of a state of the loop of [gen_coin_collect]. *)
Definition coin_phases (st : list F * F * F * F) : F * F * F :=
  let '(_, phase1, phase2, phase3) := st in (phase1, phase2, phase3).


(** A conversion [int(x)] that succeeds with a non-negative result. *)
Definition start_ok (start : option Z) : bool :=
  match start with
  | Some s => (0 <=? s)%Z
  | None => false
  end.

(** The notes of a list all have a duration [int] accepts and a
    non-negative start. *)
Definition notes_ok (bpm beat : F) (notes : list NoteEvent) : bool :=
  forallb
    (fun ev : NoteEvent =>
       let '(beat_off, _, dur_beats, _) := ev in
       bool_decide (is_Some (n_samples_of (lit dur_beats * lit 60 / bpm)))
       && start_ok (note_start beat (lit beat_off)))
    notes.

(** The hits of a drum loop all have a non-negative start. *)
Definition drums_ok (count : Z) (fires : nat -> bool)
    (start_of : nat -> option Z) : bool :=
  forallb (fun i => if fires i then start_ok (start_of i) else true)
          (seq 0 (range_len count)).

(** The starts [int(t_start * SAMPLE_RATE)] of a chord are all
    non-negative. *)
Definition chord_starts_ok (notes : list (F * F * F)) : bool :=
  forallb (fun note : F * F * F =>
             start_ok (to_int (note.1.1 * of_int SAMPLE_RATE)))
          notes.

(** The note lengths [int((duration - t_start) * SAMPLE_RATE)] of a chord;
    [None] when [int] rejects one. *)
Definition chord_note_lengths (duration : F) (notes : list (F * F * F))
    : option (list Z) :=
  mapM (fun note : F * F * F =>
          to_int ((duration - note.1.1) * of_int SAMPLE_RATE))
       notes.

End Vocabulary.

(** A call that returns a buffer of [n] samples ([0] for a negative [n]). *)
Definition has_length {F : Type} (r : option (list F)) (n : Z) : Prop :=
  exists buf, r = Some buf /\ length buf = Z.to_nat n.

(** A call that returns a buffer of [n] samples when [n] is at least
    [least], and raises otherwise. *)
Definition returns_length {F : Type} (r : option (list F)) (n least : Z) : Prop :=
  if (least <=? n)%Z then has_length r n else r = None.

(** [m] is the peak of a buffer: the largest absolute value among its
    samples.  Only a nonempty buffer has one. *)
Definition is_peak (samples : list R) (m : R) : Prop :=
  (exists s, s ∈ samples /\ Rabs s = m) /\
  (forall s, s ∈ samples -> (Rabs s <= m)%R).

(** The wrapped phase trails the unwrapped one by whole turns. *)
Definition turns_behind (wrapped unwrapped : R) : Prop :=
  exists m : nat, unwrapped = (wrapped + 2 * INR m * PI)%R.

(** A step of an oscillator loop with state [(samples, phase)] respects
    the reduction when, from two states with the same samples and the
    wrapped phase whole turns behind, it leaves two such states. *)
Definition respects_wrap (threshold : R)
    (step : (R -> R) -> nat -> list R * R -> list R * R) : Prop :=
  forall i ss pw pr,
    turns_behind pw pr ->
    (step (wrap_at threshold) i (ss, pw)).1 = (step no_wrap i (ss, pr)).1 /\
    turns_behind (step (wrap_at threshold) i (ss, pw)).2
                 (step no_wrap i (ss, pr)).2.

(** The same for a step that can raise. *)
Definition respects_wrap_err (threshold : R)
    (step : (R -> R) -> nat -> list R * R -> option (list R * R)) : Prop :=
  forall i ss pw pr,
    turns_behind pw pr ->
    option_Forall2 (fun st st' => st.1 = st'.1 /\ turns_behind st.2 st'.2)
      (step (wrap_at threshold) i (ss, pw)) (step no_wrap i (ss, pr)).

(** The per-sample increment [2 pi f / 44100] of an oscillator at [f] Hz. *)
Definition phase_increment (f : R) : R := (2 * PI * f / 44100)%R.






(** *** Vocabulary of the further properties *)

(** The clamp of [encode_mp3] on exact reals. *)
Definition clamp_unit (s : R) : R := Rmax (-1) (Rmin 1 s).

Section FilterVocabulary.
Context {F : Type} `{PyFloat F}.
Local Open Scope py_scope.

(** The coefficients [alpha] of [lowpass_filter] and of [highpass_filter]. *)
Definition lowpass_alpha (cutoff_hz : F) : F :=
  let rc := lit 1 / (lit 2 * pi * cutoff_hz) in
  let dt := lit 1 / of_int SAMPLE_RATE in
  dt / (rc + dt).

Definition highpass_alpha (cutoff_hz : F) : F :=
  let rc := lit 1 / (lit 2 * pi * cutoff_hz) in
  let dt := lit 1 / of_int SAMPLE_RATE in
  rc / (rc + dt).

(** The loops of the two filters as recursions on the input, from a given
    state: [prev] for the lowpass, [(prev_x, prev_y)] for the highpass. *)
Fixpoint lowpass_from (alpha prev : F) (samples : list F) : list F :=
  match samples with
  | [] => []
  | s :: rest =>
      let y := prev + alpha * (s - prev) in y :: lowpass_from alpha y rest
  end.

Fixpoint highpass_from (alpha prev_x prev_y : F) (samples : list F) : list F :=
  match samples with
  | [] => []
  | s :: rest =>
      let y := alpha * (prev_y + s - prev_x) in
      y :: highpass_from alpha s y rest
  end.

(** What [mix] leaves at index [i]: from 0.0, each buffer that is long
    enough adds its sample times its weight, in the order of the arguments. *)
Definition mix_at (pairs : list (list F * F)) (i : nat) : F :=
  fold_left
    (fun acc '(sl, w) =>
       match sl !! i with
       | Some s => acc + s * w
       | None => acc
       end)
    pairs (lit 0).

(** The weights [mix] works with: the given ones, or [1 / len(sample_lists)]
    for each buffer. *)
Definition mix_weights (sample_lists : list (list F)) (weights : option (list F))
    : list F :=
  match weights with
  | None =>
      replicate (length sample_lists)
        (lit 1 / of_int (Z.of_nat (length sample_lists)))
  | Some ws => ws
  end.

End FilterVocabulary.

(** A generator that always draws [1/2], and an ambient state for it: the
    concrete generator the statements about generators are exercised on. *)
Definition constant_generator : PyRandom R :=
  {| rng_state := unit;
     seed_rng := fun _ => tt;
     rng_random := fun _ => ((1 / 2)%R, tt) |}.

Definition constant_ambient : Ambient (H := constant_generator) R :=
  {| module_rng := tt : @rng_state R constant_generator; os_entropy := 0 |}.

(** A call whose result, when it returns, stays within [peak] in absolute
    value. *)
Definition within_peak (r : option (list R)) (peak : R) : Prop :=
  forall out, r = Some out -> Forall (fun y => (Rabs y <= peak)%R) out.

(** A call whose result, when it returns, begins with a sample of exactly
    zero. *)
Definition starts_at_zero (r : option (list R)) : Prop :=
  forall out, r = Some out -> out !! 0%nat = Some 0%R.

(** * Properties *)

(** ** Loops and list updates *)

Lemma for_range_0 {S : Type} (body : nat -> S -> S) (s : S) :
  for_range 0 body s = s.
Proof. reflexivity. Qed.

Lemma for_range_S {S : Type} (n : nat) (body : nat -> S -> S) (s : S) :
  for_range (Datatypes.S n) body s = body n (for_range n body s).
Proof.
  unfold for_range. rewrite seq_S, fold_left_app. reflexivity.
Qed.

Lemma for_range_err_S {S : Type} (n : nat) (body : nat -> S -> option S) (s : S) :
  for_range_err (Datatypes.S n) body s = for_range_err n body s ≫= body n.
Proof.
  unfold for_range_err. rewrite seq_S, fold_left_app. reflexivity.
Qed.

(** An invariant of the loop state carries through [for_range]. *)
Lemma for_range_ind {S : Type} (P : nat -> S -> Prop) (body : nat -> S -> S)
    (s : S) (n : nat) :
  P 0%nat s ->
  (forall i st, (i < n)%nat -> P i st -> P (Datatypes.S i) (body i st)) ->
  P n (for_range n body s).
Proof.
  intros H0 Hstep. induction n as [|n IH]; [exact H0|].
  rewrite for_range_S. apply Hstep; [lia|]. apply IH.
  intros i st Hi. apply Hstep. lia.
Qed.

Lemma for_range_err_ind {S : Type} (P : nat -> S -> Prop)
    (body : nat -> S -> option S) (s : S) (n : nat) :
  P 0%nat s ->
  (forall i st, (i < n)%nat -> P i st ->
     exists st', body i st = Some st' /\ P (Datatypes.S i) st') ->
  exists st, for_range_err n body s = Some st /\ P n st.
Proof.
  intros H0 Hstep. induction n as [|n IH]; [by exists s|].
  destruct IH as (st & Hst & HP); [intros i st' Hi; apply Hstep; lia|].
  destruct (Hstep n st) as (st' & Hb & HP'); [lia|done|].
  exists st'. by rewrite for_range_err_S, Hst.
Qed.

(** Once an iteration raises, the loop has raised. *)
Lemma for_range_err_None {S : Type} (P : nat -> S -> Prop)
    (body : nat -> S -> option S) (s : S) (n k : nat) :
  (k < n)%nat ->
  P 0%nat s ->
  (forall i st, (i < k)%nat -> P i st ->
     forall st', body i st = Some st' -> P (Datatypes.S i) st') ->
  (forall st, P k st -> body k st = None) ->
  for_range_err n body s = None.
Proof.
  intros Hk H0 Hstep Hfail.
  assert (Hpre : forall j, (j <= k)%nat ->
            for_range_err j body s = None \/
            exists st, for_range_err j body s = Some st /\ P j st).
  { induction j as [|j IH]; intros Hj; [right; by exists s|].
    destruct IH as [Hn | (st & Hst & HP)]; [lia| |].
    - left. by rewrite for_range_err_S, Hn.
    - rewrite for_range_err_S, Hst. simpl.
      destruct (body j st) as [st'|] eqn:Hb; [|by left].
      right. exists st'. split; [done|]. eapply Hstep; [|done..]. lia. }
  assert (Hat : for_range_err (Datatypes.S k) body s = None).
  { rewrite for_range_err_S.
    destruct (Hpre k) as [Hn | (st & Hst & HP)]; [lia| |].
    - by rewrite Hn.
    - rewrite Hst. simpl. by apply Hfail. }
  clear Hpre. induction n as [|n IH]; [lia|].
  destruct (decide (n = k)) as [->|Hne]; [done|].
  rewrite for_range_err_S, IH; [done|lia].
Qed.

Lemma py_index_inside (len : nat) (idx : Z) :
  (0 <= idx < Z.of_nat len)%Z -> py_index len idx = Some (Z.to_nat idx).
Proof.
  intros [H1 H2]. unfold py_index.
  by rewrite (proj2 (Z.leb_le _ _) H1), (proj2 (Z.ltb_lt _ _) H2).
Qed.

Lemma py_index_above (len : nat) (idx : Z) :
  (Z.of_nat len <= idx)%Z -> py_index len idx = None.
Proof.
  intros Hge. unfold py_index.
  rewrite (proj2 (Z.ltb_ge _ _) Hge), andb_false_r.
  destruct (Z.ltb_spec idx 0); [lia|]. by rewrite andb_false_r.
Qed.

Lemma py_index_lt (len : nat) (idx : Z) (i : nat) :
  py_index len idx = Some i -> (i < len)%nat.
Proof.
  unfold py_index. intros Hi.
  destruct (Z.leb_spec 0 idx), (Z.ltb_spec idx (Z.of_nat len));
    simpl in Hi; try (injection Hi as <-; lia);
  destruct (Z.leb_spec (- Z.of_nat len) idx), (Z.ltb_spec idx 0);
    simpl in Hi; try discriminate; injection Hi as <-; lia.
Qed.

Lemma list_update_inside {A : Type} (f : A -> A) (i : nat) (l : list A) :
  (i < length l)%nat -> list_update f (Z.of_nat i) l = Some (alter f i l).
Proof.
  intros Hi. unfold list_update. rewrite py_index_inside by lia.
  simpl. by rewrite Nat2Z.id.
Qed.

Lemma list_update_length {A : Type} (f : A -> A) (idx : Z) (l l' : list A) :
  list_update f idx l = Some l' -> length l' = length l.
Proof.
  unfold list_update. destruct (py_index _ _); simpl; [|done].
  intros [= <-]. apply length_alter.
Qed.

Lemma enumerate_snoc {A : Type} (l : list A) (x : A) :
  enumerate (l ++ [x]) = enumerate l ++ [(length l, x)].
Proof.
  unfold enumerate. rewrite length_app. simpl.
  rewrite Nat.add_1_r, seq_S, zip_with_app by (by rewrite length_seq).
  reflexivity.
Qed.

Lemma enumerate_length {A : Type} (l : list A) : length (enumerate l) = length l.
Proof.
  unfold enumerate. rewrite length_zip_with, length_seq. lia.
Qed.

Lemma enumerate_lookup {A : Type} (l : list A) (i : nat) :
  enumerate l !! i = (fun x => (i, x)) <$> l !! i.
Proof.
  induction l as [|x l IH] using rev_ind in i |- *; [done|].
  rewrite enumerate_snoc.
  destruct (decide (i < length l)%nat) as [Hlt|Hge].
  - rewrite !lookup_app_l by (by rewrite ?enumerate_length). apply IH.
  - rewrite !lookup_app_r by (rewrite ?enumerate_length; lia).
    rewrite enumerate_length.
    destruct (i - length l)%nat as [|j] eqn:Hj; simpl; [|done].
    do 3 f_equal. lia.
Qed.

(** ** [overlay_samples] *)

Section Overlay.
Context {F : Type} `{PyFloat F}.
Local Open Scope py_scope.

Lemma overlay_samples_snoc (base overlay : list F) (x : F) (start : Z) (amp : F) :
  overlay_samples base (overlay ++ [x]) start amp =
  result ← overlay_samples base overlay start amp;
  let idx := (start + Z.of_nat (length overlay))%Z in
  if (idx <? Z.of_nat (length result))%Z
  then list_update (fun v => v + x * amp) idx result
  else Some result.
Proof.
  unfold overlay_samples. by rewrite enumerate_snoc, fold_left_app.
Qed.

Lemma overlay_samples_lookup (base overlay : list F) (start : Z) (amp : F) :
  (0 <= start)%Z ->
  exists result,
    overlay_samples base overlay start amp = Some result /\
    length result = length base /\
    forall i, result !! i = overlaid_at overlay (Z.to_nat start) amp i <$> base !! i.
Proof.
  intros Hstart.
  induction overlay as [|x overlay IH] using rev_ind.
  - exists base. split; [done|]. split; [done|]. intros i.
    unfold overlaid_at. destruct (base !! i); simpl; [|done].
    by destruct (decide _).
  - destruct IH as (result & Hres & Hlen & Hlook).
    rewrite overlay_samples_snoc, Hres. simpl.
    set (k := (Z.to_nat start + length overlay)%nat).
    assert (Hsnoc : forall i b, i <> k ->
              overlaid_at (overlay ++ [x]) (Z.to_nat start) amp i b
              = overlaid_at overlay (Z.to_nat start) amp i b).
    { intros i b Hi. unfold overlaid_at.
      destruct (decide _) as [Hle|]; [|done].
      destruct (decide (i - Z.to_nat start < length overlay)%nat).
      - by rewrite lookup_app_l.
      - rewrite lookup_app_r by lia.
        rewrite (lookup_ge_None_2 overlay) by lia.
        destruct (i - Z.to_nat start - length overlay)%nat eqn:E; [lia|done]. }
    destruct (Z.ltb_spec (start + Z.of_nat (length overlay))
                         (Z.of_nat (length result))) as [Hin|Hout].
    + replace (start + Z.of_nat (length overlay))%Z with (Z.of_nat k) by lia.
      rewrite list_update_inside by lia.
      eexists. split; [done|]. split; [by rewrite length_alter|].
      intros i. destruct (decide (i = k)) as [->|Hne].
      * rewrite list_lookup_alter, decide_True by done.
        rewrite Hlook. destruct (base !! k) as [b|]; simpl; [|done].
        f_equal. unfold overlaid_at.
        rewrite !decide_True by lia.
        replace (k - Z.to_nat start)%nat with (length overlay) by lia.
        rewrite (lookup_ge_None_2 overlay) by lia.
        by rewrite lookup_app_r, Nat.sub_diag by lia.
      * rewrite list_lookup_alter_ne by done. rewrite Hlook.
        destruct (base !! i); simpl; [|done]. f_equal.
        symmetry. by apply Hsnoc.
    + exists result. split; [done|]. split; [done|].
      intros i. rewrite Hlook.
      destruct (base !! i) as [b|] eqn:Hb; simpl; [|done].
      f_equal. symmetry. apply Hsnoc.
      apply lookup_lt_Some in Hb. lia.
Qed.

End Overlay.

Section OverlayLaws.
Context {F : Type} `{PyFloat F}.
Local Open Scope py_scope.

Lemma overlaid_at_inside (overlay : list F) (start : nat) (amp : F) (i : nat)
    (b o : F) :
  (start <= i)%nat -> overlay !! (i - start)%nat = Some o ->
  overlaid_at overlay start amp i b = b + o * amp.
Proof.
  intros Hle Ho. unfold overlaid_at. by rewrite decide_True, Ho.
Qed.

Lemma overlaid_at_outside (overlay : list F) (start : nat) (amp : F) (i : nat)
    (b : F) :
  (i < start \/ start + length overlay <= i)%nat ->
  overlaid_at overlay start amp i b = b.
Proof.
  intros Hout. unfold overlaid_at.
  destruct (decide _); [|done].
  by rewrite lookup_ge_None_2 by lia.
Qed.

(** Two one-sample events of amplitude 1 at the same offset [k] of a
    silent buffer: what index [k] holds, as the code computes it. *)
Lemma overlay_twice (n k : nat) :
  (k < n)%nat ->
  exists r1 r2,
    overlay_samples (replicate n (lit 0)) [lit 1] (Z.of_nat k) (lit 1) = Some r1 /\
    overlay_samples r1 [lit 1] (Z.of_nat k) (lit 1) = Some r2 /\
    r2 !! k = Some (lit 0 + lit 1 * lit 1 + lit 1 * lit 1).
Proof.
  intros Hk.
  destruct (overlay_samples_lookup (replicate n (lit 0)) [lit 1] (Z.of_nat k) (lit 1))
    as (r1 & H1 & Hlen1 & Hlook1); [lia|].
  destruct (overlay_samples_lookup r1 [lit 1] (Z.of_nat k) (lit 1))
    as (r2 & H2 & Hlen2 & Hlook2); [lia|].
  exists r1, r2. split; [done|]. split; [done|].
  rewrite Hlook2, Hlook1, Nat2Z.id, lookup_replicate_2 by done. simpl.
  by rewrite !(overlaid_at_inside _ _ _ _ _ (lit 1))
    by (try lia; by rewrite Nat.sub_diag).
Qed.

End OverlayLaws.

(** C5.  For a start offset [start >= 0], [overlay_samples] returns a buffer
    of the length of [base]; index [i] holds [base[i] + overlay[i - start] *
    amp] when [start <= i < min(len(base), start + len(overlay))] and
    [base[i]] otherwise: samples past the end are dropped and the buffer
    does not grow.  Two one-sample events of amplitude 1 overlaid at the
    same offset of a silent buffer leave exactly 2.0 there, in binary64 and
    in exact arithmetic. *)
Theorem overlay_samples_spec :
  (forall (F : Type) (ops : PyFloat F) (base overlay : list F) (start : Z)
          (amp : F),
     (0 <= start)%Z ->
     exists result,
       overlay_samples base overlay start amp = Some result /\
       length result = length base /\
       (forall i b o,
          base !! i = Some b -> (Z.to_nat start <= i)%nat ->
          overlay !! (i - Z.to_nat start)%nat = Some o ->
          result !! i = Some (b + o * amp)%py) /\
       (forall i,
          (i < Z.to_nat start \/ Z.to_nat start + length overlay <= i)%nat ->
          result !! i = base !! i)) /\
  (forall n k : nat, (k < n)%nat ->
     exists r1 r2 : list float,
       overlay_samples (replicate n (lit 0)) [lit 1] (Z.of_nat k) (lit 1) = Some r1 /\
       overlay_samples r1 [lit 1] (Z.of_nat k) (lit 1) = Some r2 /\
       r2 !! k = Some 2%float) /\
  (forall n k : nat, (k < n)%nat ->
     exists r1 r2 : list R,
       overlay_samples (replicate n (lit 0)) [lit 1] (Z.of_nat k) (lit 1) = Some r1 /\
       overlay_samples r1 [lit 1] (Z.of_nat k) (lit 1) = Some r2 /\
       r2 !! k = Some 2%R).
Proof.
  split; [|split].
  - intros F ops base overlay start amp Hstart.
    destruct (overlay_samples_lookup base overlay start amp Hstart)
      as (result & Hres & Hlen & Hlook).
    exists result. split; [done|]. split; [done|]. split.
    + intros i b o Hb Hle Ho. rewrite Hlook, Hb. simpl.
      by rewrite (overlaid_at_inside _ _ _ _ _ o).
    + intros i Hout. rewrite Hlook.
      destruct (base !! i); simpl; [|done].
      by rewrite overlaid_at_outside.
  - intros n k Hk.
    destruct (overlay_twice (F := float) n k Hk) as (r1 & r2 & H1 & H2 & Hat).
    exists r1, r2. split; [done|]. split; [done|]. rewrite Hat.
    f_equal.
  - intros n k Hk.
    destruct (overlay_twice (F := R) n k Hk) as (r1 & r2 & H1 & H2 & Hat).
    exists r1, r2. split; [done|]. split; [done|]. rewrite Hat.
    f_equal. simpl. unfold Q2R. simpl. lra.
Qed.

Lemma overlay_samples_spec_witness :
  exists result : list float,
    overlay_samples [0; 0; 0]%float [1; 1; 1]%float 1 1%float = Some result /\
    length result = 3%nat /\
    result !! 1%nat = Some 1%float /\
    result !! 0%nat = Some 0%float.
Proof.
  destruct (proj1 overlay_samples_spec float _ [0; 0; 0]%float [1; 1; 1]%float
              1%Z 1%float ltac:(lia))
    as (result & Hres & Hlen & Hin & Hout).
  exists result. split; [exact Hres|]. split; [exact Hlen|]. split.
  - exact (Hin 1%nat 0%float 1%float eq_refl ltac:(simpl; lia) eq_refl).
  - exact (Hout 0%nat ltac:(simpl; lia)).
Defined.

(** ** [mix] *)

Section Mix.
Context {F : Type} `{PyFloat F}.
Local Open Scope py_scope.

Lemma mix_add_length (sl : list F) (w : F) (result : list F) :
  (length sl <= length result)%nat ->
  exists result', mix_add sl w result = Some result' /\
                  length result' = length result.
Proof.
  intros Hle. unfold mix_add.
  apply (for_range_err_ind (fun _ r => length r = length result)); [done|].
  intros i st Hi Hst.
  destruct (lookup_lt_is_Some_2 sl i Hi) as [s Hs].
  rewrite Hs. simpl. rewrite list_update_inside by lia.
  eexists. split; [done|]. by rewrite length_alter.
Qed.

Lemma mix_fold_length (pairs : list (list F * F)) (result : list F) :
  Forall (fun p => length p.1 <= length result)%nat pairs ->
  exists result',
    fold_left (fun acc '(sl, w) => result ← acc; mix_add sl w result)
              pairs (Some result) = Some result' /\
    length result' = length result.
Proof.
  induction pairs as [|[sl w] pairs IH] in result |- *; intros Hall.
  - by exists result.
  - apply Forall_cons in Hall as [Hsl Hall]. simpl in *.
    destruct (mix_add_length sl w result Hsl) as (r & -> & Hr).
    destruct (IH r) as (r' & Hr' & Hlen); [by rewrite Hr|].
    exists r'. split; [done|]. congruence.
Qed.

Lemma mix_nonempty (sample_lists : list (list F)) (weights : option (list F)) :
  sample_lists <> [] ->
  exists result,
    mix sample_lists weights = Some result /\
    length result = max_list (length <$> sample_lists).
Proof.
  intros Hne. unfold mix.
  destruct sample_lists as [|sl0 rest] eqn:E; [done|]. rewrite <- E. simpl.
  set (ws := match weights with Some ws => ws | None => _ end).
  destruct (mix_fold_length (zip sample_lists ws)
              (replicate (max_list (length <$> sample_lists)) (lit 0)))
    as (r & Hr & Hlen).
  - apply Forall_forall. intros [sl w] Hin. simpl.
    rewrite length_replicate. apply max_list_elem_of_le.
    apply list_elem_of_fmap. exists sl. split; [done|].
    apply (elem_of_zip_l _ _ _ _ Hin).
  - exists r. split; [exact Hr|]. by rewrite Hlen, length_replicate.
Qed.

End Mix.

(** C3.  [mix] of no buffers raises ([max] of an empty sequence); of one or
    more buffers it returns a buffer as long as the longest input, and
    omitted weights stand for [1 / len(sample_lists)] per buffer. *)
Theorem mix_spec :
  (forall (F : Type) (ops : PyFloat F) (weights : option (list F)),
     mix [] weights = None) /\
  (forall (F : Type) (ops : PyFloat F) (sample_lists : list (list F))
          (weights : option (list F)),
     sample_lists <> [] ->
     exists result,
       mix sample_lists weights = Some result /\
       length result = max_list (length <$> sample_lists)) /\
  (forall (F : Type) (ops : PyFloat F) (sample_lists : list (list F)),
     mix sample_lists None =
     mix sample_lists
       (Some (replicate (length sample_lists)
                (lit 1 / of_int (Z.of_nat (length sample_lists)))%py))).
Proof.
  split; [done|]. split; [|done].
  intros F ops sample_lists weights Hne. by apply mix_nonempty.
Qed.

Lemma mix_spec_witness :
  exists result : list float,
    mix [[1; 2]%float; [3]%float] None = Some result /\ length result = 2%nat.
Proof.
  exact (proj1 (proj2 mix_spec) float _ [[1; 2]%float; [3]%float] None
           ltac:(discriminate)).
Defined.

(** C3, as stated, fails on the empty call: [mix()] does not return an
    empty buffer. *)
Lemma mix_empty_raises :
  mix (F := float) [] None = None /\ mix (F := float) [] None <> Some [].
Proof. split; [reflexivity|discriminate]. Qed.

(** ** [apply_envelope] *)

Lemma for_range_err_ext {S : Type} (n : nat) (body body' : nat -> S -> option S)
    (s : S) :
  (forall i st, (i < n)%nat -> body i st = body' i st) ->
  for_range_err n body s = for_range_err n body' s.
Proof.
  intros Hext. induction n as [|n IH]; [done|].
  rewrite !for_range_err_S, IH by (intros; apply Hext; lia).
  destruct (for_range_err n body' s); simpl; [|done]. apply Hext. lia.
Qed.

(** [for i in range(k): l[off + i] = g(i, l[off + i])] inside the list. *)
Lemma update_range {A : Type} (g : nat -> A -> A) (off k : nat) (l : list A) :
  (off + k <= length l)%nat ->
  exists l',
    for_range_err k (fun i res => list_update (g i) (Z.of_nat (off + i)) res) l
      = Some l' /\
    length l' = length l /\
    forall j, l' !! j =
              if decide (off <= j < off + k)%nat then g (j - off)%nat <$> l !! j
              else l !! j.
Proof.
  intros Hfit.
  assert (Hgen : forall m, (m <= k)%nat ->
    exists l',
      for_range_err m (fun i res => list_update (g i) (Z.of_nat (off + i)) res) l
        = Some l' /\
      length l' = length l /\
      forall j, l' !! j =
                if decide (off <= j < off + m)%nat then g (j - off)%nat <$> l !! j
                else l !! j).
  { induction m as [|m IH]; intros Hm.
    - exists l. split; [done|]. split; [done|]. intros j.
      destruct (decide _); [lia|done].
    - destruct IH as (l' & Hl' & Hlen & Hlook); [lia|].
      rewrite for_range_err_S, Hl'. simpl.
      rewrite list_update_inside by lia.
      eexists. split; [done|]. split; [by rewrite length_alter|].
      intros j. destruct (decide (j = off + m)%nat) as [->|Hne].
      + rewrite list_lookup_alter, decide_True by done.
        rewrite Hlook. rewrite decide_False by lia. rewrite decide_True by lia.
        by replace (off + m - off)%nat with m by lia.
      + rewrite list_lookup_alter_ne by done. rewrite Hlook.
        destruct (decide _), (decide _); try lia; done. }
  by apply Hgen.
Qed.

Section Envelope.
Context {F : Type} `{PyFloat F}.
Local Open Scope py_scope.

Lemma apply_envelope_lookup (samples : list F) (attack release : F) (a r : nat) :
  to_int (attack * of_int SAMPLE_RATE) = Some (Z.of_nat a) ->
  to_int (release * of_int SAMPLE_RATE) = Some (Z.of_nat r) ->
  (a <= length samples)%nat -> (r <= length samples)%nat ->
  exists result,
    apply_envelope samples attack release = Some result /\
    length result = length samples /\
    forall j, result !! j =
      (fun s =>
         let s := if decide (j < a)%nat
                  then s * attack_gain (Z.of_nat a) j else s in
         if decide (length samples - r <= j)%nat
         then s * release_gain (Z.of_nat r) (j - (length samples - r)) else s)
      <$> samples !! j.
Proof.
  intros Ha Hr Hale Hrle. unfold apply_envelope. rewrite Ha, Hr. simpl.
  unfold range_len. rewrite !Nat2Z.id.
  destruct (update_range (fun i v => v * attack_gain (Z.of_nat a) i) 0 a samples)
    as (r1 & H1 & Hlen1 & Hlook1); [simpl; lia|].
  simpl in H1. unfold attack_gain in H1. rewrite H1. simpl.
  destruct (update_range (fun i v => v * release_gain (Z.of_nat r) i)
              (length samples - r) r r1)
    as (r2 & H2 & Hlen2 & Hlook2); [lia|].
  exists r2. split.
  - rewrite <- H2. apply for_range_err_ext. intros i st Hi.
    unfold release_gain. f_equal. lia.
  - split; [congruence|]. intros j. rewrite Hlook2, Hlook1.
    destruct (samples !! j) as [s|] eqn:Hs; simpl.
    + apply lookup_lt_Some in Hs.
      repeat case_decide; try lia; simpl; by rewrite ?Nat.sub_0_r.
    + by repeat case_decide.
Qed.

(** A buffer shorter than the attack ramp: the ramp indexes past its end. *)
Lemma apply_envelope_short (samples : list F) (attack release : F) (a : Z) :
  to_int (attack * of_int SAMPLE_RATE) = Some a ->
  (Z.of_nat (length samples) < a)%Z ->
  apply_envelope samples attack release = None.
Proof.
  intros Ha Hshort. unfold apply_envelope. rewrite Ha. simpl.
  destruct (to_int (release * of_int SAMPLE_RATE)); simpl; [|done].
  rewrite (for_range_err_None (fun _ res => length res = length samples)
             _ _ _ (length samples)); [done|unfold range_len; lia|done|..].
  - intros i st Hi Hst st' Hupd. apply list_update_length in Hupd. congruence.
  - intros st Hst. unfold list_update.
    by rewrite py_index_above by lia.
Qed.

End Envelope.

(** ** Exact reals: truncation and comparison *)

Lemma trunc_nonneg (x : R) (z : Z) :
  (IZR z <= x < IZR z + 1)%R -> (0 <= z)%Z -> Exact.trunc x = z.
Proof.
  intros [Hlo Hhi] Hz. unfold Exact.trunc.
  assert (0 <= x)%R by (apply IZR_le in Hz; lra).
  destruct (Rle_dec 0 x); [|lra].
  symmetry. apply Int_part_spec. lra.
Qed.

Lemma trunc_IZR (z : Z) : Exact.trunc (IZR z) = z.
Proof.
  unfold Exact.trunc. destruct (Rle_dec 0 (IZR z)) as [Hle|Hlt].
  - symmetry. apply Int_part_spec. lra.
  - rewrite <- opp_IZR.
    rewrite <- (Int_part_spec (IZR (- z)) (- z)); [lia|lra].
Qed.

Lemma ltb_true (x y : R) : Exact.ltb x y = true <-> (x < y)%R.
Proof. unfold Exact.ltb. destruct (Rlt_dec x y); split; (done || lra). Qed.

Lemma ltb_false (x y : R) : Exact.ltb x y = false <-> (y <= x)%R.
Proof. unfold Exact.ltb. destruct (Rlt_dec x y); split; (done || lra). Qed.



(** ** [normalize] *)

Lemma fold_max_exact (rest : list R) (x : R) :
  let m := fold_left (fun m y => if Exact.ltb m y then y else m) rest x in
  (m = x \/ m ∈ rest) /\ (x <= m)%R /\ (forall y, y ∈ rest -> (y <= m)%R).
Proof.
  induction rest as [|y rest IH] in x |- *; cbn [fold_left].
  - split; [by left|]. split; [lra|]. intros y Hy. by apply elem_of_nil in Hy.
  - destruct (Exact.ltb x y) eqn:Hxy.
    + apply ltb_true in Hxy.
      destruct (IH y) as (Hin & Hle & Hall).
      split; [right; destruct Hin as [->|Hin]; [left|by right]|].
      split; [lra|].
      intros z Hz. apply elem_of_cons in Hz as [->|Hz]; [done|by apply Hall].
    + apply ltb_false in Hxy.
      destruct (IH x) as (Hin & Hle & Hall).
      split; [destruct Hin as [Hin|Hin]; [by left|right; by right]|].
      split; [done|].
      intros z Hz. apply elem_of_cons in Hz as [->|Hz]; [lra|by apply Hall].
Qed.

Lemma py_max_exact (xs : list R) (m : R) :
  py_max xs = Some m -> m ∈ xs /\ forall x, x ∈ xs -> (x <= m)%R.
Proof.
  destruct xs as [|x rest]; [done|]. intros [= <-].
  destruct (fold_max_exact rest x) as (Hin & Hle & Hall). split.
  - destruct Hin as [->|Hin]; [left|by right].
  - intros y Hy. apply elem_of_cons in Hy as [->|Hy]; [done|by apply Hall].
Qed.

Lemma py_max_peak (samples : list R) (m : R) :
  is_peak samples m -> py_max (fabs <$> samples) = Some m.
Proof.
  intros [(s & Hs & Hm) Hall].
  destruct (py_max (fabs <$> samples)) as [m'|] eqn:Hmax.
  - apply py_max_exact in Hmax as [Hin Hle].
    apply list_elem_of_fmap in Hin as (s' & -> & Hs').
    f_equal. simpl in *. apply Rle_antisym; [by apply Hall|].
    rewrite <- Hm. apply Hle. apply list_elem_of_fmap. by exists s.
  - destruct samples; [by apply elem_of_nil in Hs|done].
Qed.

(** Literals of the exact instance, as fractions [lra] understands. *)
Ltac exact_literals :=
  change (@lit R Exact.ops) with Q2R in *;
  repeat match goal with
  | |- context [Q2R ?q] =>
      let n := eval vm_compute in (Qnum q) in
      let d := eval vm_compute in (Z.pos (Qden q)) in
      change (Q2R q) with (IZR n * / IZR d)%R
  end.

Lemma lit_guard : (lit 1e-9 : R) = (1 / 1000000000)%R.
Proof. exact_literals. lra. Qed.


Lemma is_peak_example : is_peak [1 / 2; - (1 / 4)]%R (1 / 2)%R.
Proof.
  split.
  - exists (1 / 2)%R. split; [left|]. apply Rabs_right. lra.
  - intros s Hs. apply elem_of_cons in Hs as [->|Hs].
    + rewrite Rabs_right; lra.
    + apply list_elem_of_singleton in Hs as ->. rewrite Rabs_left; lra.
Qed.



Lemma normalize_empty {F : Type} `{PyFloat F} (peak : F) :
  normalize [] peak = None.
Proof. reflexivity. Qed.

(** ** [note_to_freq] *)




(** ** Phase wrapping against the unwrapped oscillator *)

(** Two loops over the same range keep a relation between their states. *)
Lemma for_range_rel {S S' : Type} (Rel : S -> S' -> Prop)
    (body : nat -> S -> S) (body' : nat -> S' -> S') (s : S) (s' : S') (n : nat) :
  Rel s s' ->
  (forall i st st', Rel st st' -> Rel (body i st) (body' i st')) ->
  Rel (for_range n body s) (for_range n body' s').
Proof.
  intros H0 Hstep. induction n as [|n IH]; [done|].
  rewrite !for_range_S. by apply Hstep.
Qed.

(** The same for loops that can raise: both raise, or both go on. *)
Lemma for_range_err_rel {S S' : Type} (Rel : S -> S' -> Prop)
    (body : nat -> S -> option S) (body' : nat -> S' -> option S')
    (s : S) (s' : S') (n : nat) :
  Rel s s' ->
  (forall i st st', Rel st st' -> option_Forall2 Rel (body i st) (body' i st')) ->
  option_Forall2 Rel (for_range_err n body s) (for_range_err n body' s').
Proof.
  intros H0 Hstep. induction n as [|n IH]; [by constructor|].
  rewrite !for_range_err_S.
  destruct IH as [st st' Hrel|]; simpl; [by apply Hstep|constructor].
Qed.

(** A harmonic does not see a whole number of turns of the fundamental. *)
Lemma sin_harmonic (k m : nat) (x : R) :
  Rtrigo_def.sin (INR k * (x + 2 * INR m * PI)) = Rtrigo_def.sin (INR k * x).
Proof.
  replace (INR k * (x + 2 * INR m * PI))%R
    with (INR k * x + 2 * INR (k * m) * PI)%R by (rewrite mult_INR; ring).
  apply sin_period.
Qed.

Section WrapExact.
Local Open Scope py_scope.

Lemma turns_behind_refl (phase : R) : turns_behind phase phase.
Proof. exists 0%nat. simpl. ring. Qed.

Lemma turns_behind_sin (pw pr : R) :
  turns_behind pw pr -> sin pr = sin pw.
Proof. intros [m ->]. apply sin_period. Qed.

Lemma turns_behind_harmonic (k : Z) (pw pr : R) :
  (0 <= k)%Z -> turns_behind pw pr ->
  sin (of_int k * pr) = sin (of_int k * pw).
Proof.
  intros Hk [m ->]. simpl.
  rewrite <- (Z2Nat.id k), <- INR_IZR_INZ by done.
  apply sin_harmonic.
Qed.

(** Advancing both phases by the same increment and reducing the wrapped
    one by a whole number of turns keeps it whole turns behind. *)
Lemma turns_behind_step (k : Z) (pw pr inc : R) :
  Z.even k = true -> (0 <= k)%Z -> turns_behind pw pr ->
  turns_behind (wrap_at (of_int k * pi) (pw + inc)) (no_wrap (pr + inc)).
Proof.
  intros Heven Hk [m ->]. unfold wrap_at, no_wrap. simpl.
  apply Z.even_spec in Heven as [j ->].
  destruct (Exact.ltb _ _).
  - exists (m + Z.to_nat j)%nat.
    rewrite plus_INR, INR_IZR_INZ, (INR_IZR_INZ (Z.to_nat j)), Z2Nat.id by lia.
    rewrite mult_IZR. ring.
  - exists m. ring.
Qed.

End WrapExact.

Lemma respects_wrap_loop (threshold : R)
    (step : (R -> R) -> nat -> list R * R -> list R * R) (n : nat) (p0 : R) :
  respects_wrap threshold step ->
  (for_range n (step (wrap_at threshold)) ([], p0)).1
  = (for_range n (step no_wrap) ([], p0)).1.
Proof.
  intros Hstep.
  apply (for_range_rel (fun st st' => st.1 = st'.1 /\ turns_behind st.2 st'.2)).
  - split; [done|]. apply turns_behind_refl.
  - intros i [ss pw] [ss' pr] [Hss Hturn]. simpl in Hss, Hturn. subst ss'.
    by apply Hstep.
Qed.

(** Rewrites every harmonic of the unwrapped phase into the same harmonic
    of the wrapped one. *)
Ltac same_harmonics Hturn :=
  rewrite ?(turns_behind_sin _ _ Hturn),
          ?(turns_behind_harmonic 2 _ _ ltac:(lia) Hturn),
          ?(turns_behind_harmonic 3 _ _ ltac:(lia) Hturn),
          ?(turns_behind_harmonic 4 _ _ ltac:(lia) Hturn),
          ?(turns_behind_harmonic 5 _ _ ltac:(lia) Hturn),
          ?(turns_behind_harmonic 6 _ _ ltac:(lia) Hturn).

Ltac wrap_step Hturn :=
  cbn [fst snd]; split;
  [ same_harmonics Hturn; reflexivity
  | apply turns_behind_step; [reflexivity | lia | exact Hturn] ].

Section WrapLoops.
Context `{PyRandom R}.
Variable amb : Ambient R.
Local Open Scope py_scope.

Lemma sine_wave_varying_respects (freq_fn : R -> R) (amp : R) :
  respects_wrap (of_int 2 * pi)%py
    (fun reduce => sine_wave_varying_step reduce freq_fn amp).
Proof. intros i ss pw pr Hturn. unfold sine_wave_varying_step. wrap_step Hturn. Qed.

Lemma prop_respects : respects_wrap (of_int 10 * pi)%py prop_step.
Proof. intros i ss pw pr Hturn. unfold prop_step. wrap_step Hturn. Qed.

Lemma jet_respects : respects_wrap (of_int 4 * pi)%py jet_step.
Proof. intros i ss pw pr Hturn. unfold jet_step. wrap_step Hturn. Qed.

Lemma rocket_respects : respects_wrap (of_int 6 * pi)%py rocket_step.
Proof. intros i ss pw pr Hturn. unfold rocket_step. wrap_step Hturn. Qed.

Lemma piano_respects (freq amp : R) :
  respects_wrap (of_int 12 * pi)%py (fun reduce => piano_step reduce freq amp).
Proof. intros i ss pw pr Hturn. unfold piano_step. wrap_step Hturn. Qed.

Lemma clue_pop_respects (duration : R) :
  respects_wrap (of_int 6 * pi)%py (fun reduce => clue_pop_step reduce duration).
Proof. intros i ss pw pr Hturn. unfold clue_pop_step. wrap_step Hturn. Qed.

Lemma chime_respects (freq amp : R) :
  respects_wrap (of_int 8 * pi)%py (fun reduce => chime_step reduce freq amp).
Proof. intros i ss pw pr Hturn. unfold chime_step. wrap_step Hturn. Qed.

End WrapLoops.

Lemma respects_wrap_err_loop (threshold : R)
    (step : (R -> R) -> nat -> list R * R -> option (list R * R))
    (n : nat) (s0 : list R) (p0 : R) :
  respects_wrap_err threshold step ->
  fst <$> for_range_err n (step (wrap_at threshold)) (s0, p0)
  = fst <$> for_range_err n (step no_wrap) (s0, p0).
Proof.
  intros Hstep.
  pose proof (for_range_err_rel
                (fun st st' : list R * R => st.1 = st'.1 /\ turns_behind st.2 st'.2)
                (step (wrap_at threshold)) (step no_wrap) (s0, p0) (s0, p0) n)
    as Hrel.
  destruct Hrel as [st st' [Hss _]|].
  - split; [done|]. apply turns_behind_refl.
  - intros i [ss pw] [ss' pr] [Hss Hturn]. simpl in Hss, Hturn. subst ss'.
    by apply Hstep.
  - simpl. by rewrite Hss.
  - done.
Qed.

Ltac wrap_step_err Hturn :=
  same_harmonics Hturn;
  match goal with
  | |- context [list_update ?f ?i ?l] => destruct (list_update f i l)
  | |- context [?l !! ?i] => destruct (l !! i)
  end;
  simpl; constructor; cbn [fst snd]; split;
  [ reflexivity
  | apply turns_behind_step; [reflexivity | lia | exact Hturn] ].

Section WrapLoopsErr.
Context `{PyRandom R}.
Variable amb : Ambient R.
Local Open Scope py_scope.

Lemma bomber_respects (base_freq : R) (fi : nat) :
  respects_wrap_err (of_int 8 * pi)%py
    (fun reduce => bomber_step reduce base_freq fi).
Proof. intros i ss pw pr Hturn. unfold bomber_step. wrap_step_err Hturn. Qed.

Lemma altitude_respects (duration : R) (noise : list R) :
  respects_wrap_err (of_int 2 * pi)%py
    (fun reduce => altitude_step reduce duration noise).
Proof. intros i ss pw pr Hturn. unfold altitude_step. wrap_step_err Hturn. Qed.

Lemma boost_respects (duration : R) (noise_hp : list R) :
  respects_wrap_err (of_int 8 * pi)%py
    (fun reduce => boost_step reduce duration noise_hp).
Proof. intros i ss pw pr Hturn. unfold boost_step. wrap_step_err Hturn. Qed.

Lemma bomber_loop_wrap (n : Z) :
  bomber_loop (wrap_at (of_int 8 * pi)) n = bomber_loop no_wrap n.
Proof.
  unfold bomber_loop.
  generalize (Some (replicate (range_len n) (lit 0 : R))).
  induction (enumerate (zip bomber_freqs bomber_phases))
    as [|[fi [base_freq init_phase]] voices IH]; intros acc; [done|].
  cbn [fold_left]. rewrite <- IH. f_equal.
  destruct acc as [samples|]; [|done]. cbn [mbind option_bind].
  apply (respects_wrap_err_loop _ (fun reduce => bomber_step reduce base_freq fi)).
  apply bomber_respects.
Qed.

Lemma landing_chord_wrap (duration : R) (result : list R) :
  landing_chord (wrap_at (of_int 8 * pi)) duration result
  = landing_chord no_wrap duration result.
Proof.
  unfold landing_chord.
  generalize (Some result).
  induction chord_notes as [|[[t_start freq] amp] notes IH]; intros acc; [done|].
  cbn [fold_left]. rewrite <- IH. f_equal.
  destruct acc as [res|]; [|done]. cbn [mbind option_bind].
  destruct (to_int ((duration - t_start) * of_int SAMPLE_RATE))
    as [note_n|]; [|done].
  cbn [mbind option_bind]. unfold chime_loop.
  by rewrite (respects_wrap_loop _ (fun reduce => chime_step reduce freq amp)
                _ _ (chime_respects freq amp)).
Qed.

Lemma biplane_loop_wrap (n : Z) :
  (biplane_loop amb (wrap_at (of_int 6 * pi)) n).1.1
  = (biplane_loop amb no_wrap n).1.1.
Proof.
  unfold biplane_loop.
  apply (for_range_rel
           (fun st st' : list R * R * rng_state =>
              st.1.1 = st'.1.1 /\
              (st.2 = st'.2 /\ turns_behind st.1.2 st'.1.2))).
  - split; [done|]. split; [done|]. apply turns_behind_refl.
  - intros i [[ss pw] g] [[ss' pr] g'] (Hss & Hg & Hturn).
    simpl in Hss, Hg, Hturn. subst ss' g'.
    unfold biplane_step.
    destruct (uniform (of_int (-1)) (of_int 1) g) as [u g'].
    cbn [fst snd]. split; [|split; [done|]].
    + same_harmonics Hturn. reflexivity.
    + apply turns_behind_step; [reflexivity | lia | exact Hturn].
Qed.

End WrapLoopsErr.

(** C7.  In exact real arithmetic every oscillator loop that reduces its
    phase gives, sample for sample, the output of the same loop with the
    phase never reduced: each reduction subtracts a whole number of turns
    ([2 pi] in [sine_wave_varying] and [gen_altitude_change], [4 pi] in
    [gen_jet_engine], [6 pi] in [gen_biplane_engine], [gen_rocket_engine]
    and [gen_clue_pop], [8 pi] in [gen_bomber_engine],
    [gen_landing_success] and [gen_boost_start], [10 pi] in
    [gen_prop_engine], [12 pi] in [gen_piano_note]), which no integer
    harmonic [sin (k * phase)] sees. *)
Theorem oscillator_wrap_refines (G : PyRandom R) (amb : Ambient R) :
  (forall (freq_fn : R -> R) (n_samples : Z) (amp : R),
     sine_wave_varying freq_fn n_samples amp
     = sine_wave_varying_reference freq_fn n_samples amp) /\
  (forall n : Z,
     (biplane_loop amb (wrap_at (of_int 6 * pi)%py) n).1.1
     = (biplane_loop amb no_wrap n).1.1) /\
  (forall n : Z,
     (prop_loop (wrap_at (of_int 10 * pi)%py) n).1 = (prop_loop no_wrap n).1) /\
  (forall n : Z,
     bomber_loop (wrap_at (of_int 8 * pi)%py) n = bomber_loop no_wrap n) /\
  (forall n : Z,
     (jet_loop (wrap_at (of_int 4 * pi)%py) n).1 = (jet_loop no_wrap n).1) /\
  (forall n : Z,
     (rocket_loop (wrap_at (of_int 6 * pi)%py) n).1 = (rocket_loop no_wrap n).1) /\
  (forall (freq amp : R) (n : Z),
     (piano_loop (wrap_at (of_int 12 * pi)%py) freq amp n).1
     = (piano_loop no_wrap freq amp n).1) /\
  (forall (duration : R) (n : Z),
     (clue_pop_loop (wrap_at (of_int 6 * pi)%py) duration n).1
     = (clue_pop_loop no_wrap duration n).1) /\
  (forall (duration : R) (result : list R),
     landing_chord (wrap_at (of_int 8 * pi)%py) duration result
     = landing_chord no_wrap duration result) /\
  (forall (duration : R) (n : Z),
     fst <$> altitude_loop amb (wrap_at (of_int 2 * pi)%py) duration n
     = fst <$> altitude_loop amb no_wrap duration n) /\
  (forall (duration : R) (n : Z),
     fst <$> boost_loop amb (wrap_at (of_int 8 * pi)%py) duration n
     = fst <$> boost_loop amb no_wrap duration n).
Proof.
  repeat split; intros.
  - exact (respects_wrap_loop _
             (fun reduce => sine_wave_varying_step reduce freq_fn amp) _ _
             (sine_wave_varying_respects freq_fn amp)).
  - apply biplane_loop_wrap.
  - exact (respects_wrap_loop _ prop_step _ _ prop_respects).
  - apply bomber_loop_wrap.
  - exact (respects_wrap_loop _ jet_step _ _ jet_respects).
  - exact (respects_wrap_loop _ rocket_step _ _ rocket_respects).
  - exact (respects_wrap_loop _ (fun reduce => piano_step reduce freq amp) _ _
             (piano_respects freq amp)).
  - exact (respects_wrap_loop _ (fun reduce => clue_pop_step reduce duration)
             _ _ (clue_pop_respects duration)).
  - apply landing_chord_wrap.
  - exact (respects_wrap_err_loop _
             (fun reduce => altitude_step reduce duration _) _ _ _
             (altitude_respects duration _)).
  - exact (respects_wrap_err_loop _
             (fun reduce => boost_step reduce duration _) _ _ _
             (boost_respects duration _)).
Qed.

(** ** The phase accumulators of [gen_coin_collect] *)

Lemma coin_freqs_exact :
  (coin_freq1 : R) = (13185 / 10)%R /\
  (coin_freq2 : R) = 2093%R /\ (coin_freq3 : R) = 880%R.
Proof.
  unfold coin_freq1, coin_freq2, coin_freq3. exact_literals.
  repeat split; lra.
Qed.

Lemma coin_loop_phases (k : nat) :
  coin_phases (coin_loop (F := R) k)
  = ((INR k * phase_increment (13185 / 10))%R,
     (INR k * phase_increment 2093)%R,
     (INR k * phase_increment 880)%R).
Proof.
  destruct coin_freqs_exact as (Hf1 & Hf2 & Hf3).
  unfold coin_loop.
  apply (for_range_ind
           (fun i st => coin_phases st
                        = ((INR i * phase_increment (13185 / 10))%R,
                           (INR i * phase_increment 2093)%R,
                           (INR i * phase_increment 880)%R))).
  - simpl. exact_literals. f_equal; [f_equal|]; lra.
  - intros i [[[ss p1] p2] p3] _ [= -> -> ->].
    unfold coin_step, coin_phases. rewrite Hf1, Hf2, Hf3, S_INR.
    unfold phase_increment, SAMPLE_RATE. simpl.
    f_equal; [f_equal|]; lra.
Qed.

(** C6 at [gen_coin_collect]: the three phase accumulators are never
    reduced.  After [k] samples they hold [k] increments, and from the 52nd
    sample on each of them is above [2 pi] plus its increment. *)
Theorem coin_collect_phases_unbounded :
  (forall k : nat,
     coin_phases (coin_loop (F := R) k)
     = ((INR k * phase_increment (13185 / 10))%R,
        (INR k * phase_increment 2093)%R,
        (INR k * phase_increment 880)%R)) /\
  (forall k : nat,
     let '(phase1, phase2, phase3) := coin_phases (coin_loop (F := R) (52 + k)) in
     (2 * PI + phase_increment (13185 / 10) < phase1)%R /\
     (2 * PI + phase_increment 2093 < phase2)%R /\
     (2 * PI + phase_increment 880 < phase3)%R).
Proof.
  split; [exact coin_loop_phases|].
  intros k. rewrite coin_loop_phases.
  assert (Hk : (52 <= INR (52 + k))%R).
  { rewrite plus_INR. pose proof (pos_INR k). simpl. lra. }
  pose proof PI_RGT_0 as Hpi. unfold phase_increment.
  repeat split.
  - apply Rlt_le_trans with (52 * (2 * PI * (13185 / 10) / 44100))%R; [lra|].
    apply Rmult_le_compat_r; [|done]. lra.
  - apply Rlt_le_trans with (52 * (2 * PI * 2093 / 44100))%R; [lra|].
    apply Rmult_le_compat_r; [|done]. lra.
  - apply Rlt_le_trans with (52 * (2 * PI * 880 / 44100))%R; [lra|].
    apply Rmult_le_compat_r; [|done]. lra.
Qed.

(** In binary64 the picture is the same whatever the platform's [sin] and
    [exp] return: the accumulators after 52 samples, computed bit for bit. *)
Lemma coin_collect_phases_binary64 (M : PyMath float) :
  let '(phase1, phase2, phase3) := coin_phases (coin_loop (F := float) 52) in
  let bound f := (of_int 2 * pi + of_int 2 * pi * f / of_int SAMPLE_RATE)%py in
  (bound coin_freq1 <? phase1)%py = true /\
  (bound coin_freq2 <? phase2)%py = true /\
  (bound coin_freq3 <? phase3)%py = true.
Proof. vm_compute. repeat split. Qed.

(** The sibling loop that does wrap: in [sine_wave_varying], for
    frequencies between 0 and the sample rate, the phase stays within one
    turn. *)
Lemma sine_wave_varying_phase_bound (freq_fn : R -> R) (amp : R) (n : nat) :
  (forall t, 0 <= freq_fn t <= 44100)%R ->
  let phase :=
    (for_range n (sine_wave_varying_step (wrap_at (of_int 2 * pi)%py) freq_fn amp)
       ([], lit 0)).2 in
  (0 <= phase <= 2 * PI)%R.
Proof.
  intros Hfreq.
  apply (for_range_ind (fun _ st => (0 <= st.2 <= 2 * PI)%R)).
  - simpl. exact_literals. pose proof PI_RGT_0. lra.
  - intros i [ss phase] _ Hphase. simpl in Hphase.
    unfold sine_wave_varying_step, wrap_at. cbn [snd].
    change (@fltb R Exact.ops) with Exact.ltb.
    set (f := freq_fn _). specialize (Hfreq (of_int (Z.of_nat i) / of_int SAMPLE_RATE)%py).
    fold f in Hfreq. simpl. unfold SAMPLE_RATE.
    pose proof PI_RGT_0 as Hpi.
    assert (Hinc : (0 <= 2 * PI * f / 44100 <= 2 * PI)%R).
    { split.
      - apply Rmult_le_pos; [|lra]. apply Rmult_le_pos; lra.
      - replace (2 * PI * f / 44100)%R with (2 * PI * (f / 44100))%R by lra.
        rewrite <- (Rmult_1_r (2 * PI)) at 2.
        apply Rmult_le_compat_l; lra. }
    destruct (Exact.ltb _ _) eqn:Hcmp.
    + apply ltb_true in Hcmp. lra.
    + apply ltb_false in Hcmp. lra.
Qed.

(** ** [white_noise] *)

Section Noise.
Context {F : Type} `{PyFloat F} `{PyRandom F}.
Local Open Scope py_scope.

Lemma white_noise_lookup (amb : Ambient F) (n_samples seed : Z) (i : nat) :
  white_noise amb n_samples seed !! i
  = if decide (i < range_len n_samples)%nat then Some (noise_sample seed i)
    else None.
Proof.
  unfold white_noise.
  set (body := fun (_ : nat) '(out, rng) => _).
  assert (Hinv :
    (fun k (st : list F * rng_state) =>
       st.2 = rng_after seed k /\ length st.1 = k /\
       forall j, (j < k)%nat -> st.1 !! j = Some (noise_sample seed j))
      (range_len n_samples)
      (for_range (range_len n_samples) body ([], Random amb (Some seed)))).
  { apply for_range_ind.
    - simpl. split; [done|]. split; [done|]. intros j Hj. lia.
    - intros k [out rng] _ (Hrng & Hlen & Hlook). simpl in Hrng, Hlen, Hlook.
      subst rng. unfold body, uniform.
      destruct (rng_random (rng_after seed k)) as [u rng'] eqn:Hdraw.
      cbn [fst snd]. split; [|split].
      + simpl. by rewrite Hdraw.
      + rewrite length_app. simpl. lia.
      + intros j Hj. destruct (decide (j < k)%nat) as [Hlt|Hge].
        * rewrite lookup_app_l by lia. by apply Hlook.
        * replace j with k by lia.
          rewrite lookup_app_r, Hlen, Nat.sub_diag by lia. simpl.
          unfold noise_sample. by rewrite Hdraw. }
  destruct Hinv as (_ & Hlen & Hlook).
  destruct (decide _) as [Hlt|Hge].
  - by apply Hlook.
  - apply lookup_ge_None_2. lia.
Qed.

Lemma white_noise_length (amb : Ambient F) (n_samples seed : Z) :
  length (white_noise amb n_samples seed) = range_len n_samples.
Proof.
  destruct (Nat.lt_trichotomy (length (white_noise amb n_samples seed))
              (range_len n_samples)) as [Hlt|[Heq|Hgt]]; [|done|].
  - pose proof (white_noise_lookup amb n_samples seed
                  (length (white_noise amb n_samples seed))) as Hl.
    rewrite decide_True, lookup_ge_None_2 in Hl by lia. done.
  - pose proof (white_noise_lookup amb n_samples seed (range_len n_samples)) as Hl.
    rewrite decide_False in Hl by lia.
    apply lookup_ge_None_1 in Hl. lia.
Qed.

End Noise.

(** C8.  [white_noise] is a function of [n_samples] and [seed] alone: two
    runs with the same arguments, in whatever ambient states (module-level
    generator, entropy), return the same list; it has [n_samples] elements,
    the [i]-th being the [i]-th draw of the generator seeded with [seed]. *)
Theorem white_noise_deterministic (F : Type) (ops : PyFloat F) (G : PyRandom F)
    (amb1 amb2 : Ambient F) (n_samples seed : Z) :
  white_noise amb1 n_samples seed = white_noise amb2 n_samples seed /\
  length (white_noise amb1 n_samples seed) = range_len n_samples /\
  forall i, white_noise amb1 n_samples seed !! i
            = if decide (i < range_len n_samples)%nat
              then Some (noise_sample seed i) else None.
Proof.
  split; [|split].
  - apply list_eq. intros i. by rewrite !white_noise_lookup.
  - apply white_noise_length.
  - apply white_noise_lookup.
Qed.

(** ** Buffer lengths *)

(** The state of a loop that appends one sample per pass. *)
Tactic Notation "append_loop" reference(step) :=
  apply (for_range_ind (fun k (st : list _ * _) => length st.1 = k)); [done|];
  intros i [ss p] _ Hlen; simpl in Hlen; unfold step; cbn [fst];
  rewrite length_app; simpl; lia.

Section Lengths.
Context {F : Type} `{PyFloat F} `{PyMath F} `{PyRandom F}.
Variable amb : Ambient F.
Local Open Scope py_scope.

Lemma lowpass_filter_length (samples : list F) (cutoff_hz : F) :
  length (lowpass_filter samples cutoff_hz) = length samples.
Proof.
  unfold lowpass_filter.
  set (step := fun '(filtered, prev) s => _).
  assert (Hgen : forall (acc : list F) (prev : F),
            length (fold_left step samples (acc, prev)).1
            = (length acc + length samples)%nat).
  { induction samples as [|s samples IH]; intros acc prev; simpl; [lia|].
    rewrite IH, length_app. simpl. lia. }
  by rewrite Hgen.
Qed.

Lemma highpass_filter_length (samples : list F) (cutoff_hz : F) :
  length (highpass_filter samples cutoff_hz) = length samples.
Proof.
  unfold highpass_filter.
  set (step := fun '(filtered, prev_x, prev_y) s => _).
  assert (Hgen : forall (acc : list F) (px py : F),
            length (fold_left step samples (acc, px, py)).1.1
            = (length acc + length samples)%nat).
  { induction samples as [|s samples IH]; intros acc px py; simpl; [lia|].
    rewrite IH, length_app. simpl. lia. }
  specialize (Hgen [] (lit 0) (lit 0)).
  by destruct (fold_left _ _ _) as [[filtered ?] ?].
Qed.

Lemma bandpass_filter_length (samples : list F) (low_hz high_hz : F) :
  length (bandpass_filter samples low_hz high_hz) = length samples.
Proof.
  unfold bandpass_filter.
  by rewrite highpass_filter_length, lowpass_filter_length.
Qed.

Lemma apply_lofi_filter_length (samples : list F) :
  length (apply_lofi_filter samples) = length samples.
Proof.
  unfold apply_lofi_filter. by rewrite length_fmap, lowpass_filter_length.
Qed.

Lemma modulate_length (modulation : F -> F) (samples : list F) :
  length (modulate modulation samples) = length samples.
Proof. unfold modulate. by rewrite length_fmap, enumerate_length. Qed.

(** A comprehension over [range(n)] that reads lists at least [n] long. *)
Lemma mapM_range_length {A : Type} (f : nat -> option A) (n : nat) :
  (forall i, (i < n)%nat -> is_Some (f i)) ->
  exists l, mapM f (seq 0 n) = Some l /\ length l = n.
Proof.
  intros Hf. destruct (mapM f (seq 0 n)) as [l|] eqn:Hmap.
  - exists l. split; [done|].
    apply length_mapM in Hmap. by rewrite <- Hmap, length_seq.
  - exfalso. apply eq_None_not_Some in Hmap. apply Hmap, mapM_is_Some.
    apply Forall_forall. intros i Hi. apply elem_of_seq in Hi. apply Hf. lia.
Qed.

Lemma blend_length (n : Z) (samples noise : list F) (a b : F) :
  length samples = range_len n -> length noise = range_len n ->
  exists combined,
    blend n samples noise a b = Some combined /\ length combined = range_len n.
Proof.
  intros Hs Hn. apply mapM_range_length. intros i Hi.
  destruct (lookup_lt_is_Some_2 samples i) as [s Hsi]; [lia|].
  destruct (lookup_lt_is_Some_2 noise i) as [x Hxi]; [lia|].
  rewrite Hsi, Hxi. by eexists.
Qed.

Lemma blend3_length (n : Z) (xs ys zs : list F) (a b c : F) :
  length xs = range_len n -> length ys = range_len n ->
  length zs = range_len n ->
  exists combined,
    blend3 n xs ys zs a b c = Some combined /\ length combined = range_len n.
Proof.
  intros Hx Hy Hz. apply mapM_range_length. intros i Hi.
  destruct (lookup_lt_is_Some_2 xs i) as [x Hxi]; [lia|].
  destruct (lookup_lt_is_Some_2 ys i) as [y Hyi]; [lia|].
  destruct (lookup_lt_is_Some_2 zs i) as [z Hzi]; [lia|].
  rewrite Hxi, Hyi, Hzi. by eexists.
Qed.

Lemma normalize_length (samples : list F) (peak : F) :
  samples <> [] ->
  exists out, normalize samples peak = Some out /\ length out = length samples.
Proof.
  intros Hne. unfold normalize.
  destruct samples as [|s samples]; [done|]. simpl.
  destruct (_ <? _); eexists; (split; [done|]); [done|].
  simpl. by rewrite length_fmap.
Qed.

(** [normalize] of a buffer of [range(n)] samples. *)
Lemma normalize_returns (samples : list F) (peak : F) (n : Z) :
  length samples = range_len n ->
  returns_length (normalize samples peak) n 1.
Proof.
  intros Hlen. unfold returns_length, has_length, range_len in *.
  destruct (Z.leb_spec 1 n).
  - destruct (normalize_length samples peak) as (out & -> & Hout).
    + intros ->. simpl in Hlen. lia.
    + exists out. split; [done|]. congruence.
  - destruct samples; [done|]. simpl in Hlen. lia.
Qed.

(** [fade_and_normalize] with an attack and release of [a >= 1] samples. *)
Lemma fade_and_normalize_returns (result : list F) (attack peak : F)
    (a n : Z) :
  to_int (attack * of_int SAMPLE_RATE) = Some a ->
  (1 <= a)%Z -> length result = range_len n ->
  returns_length (fade_and_normalize result attack peak) n a.
Proof.
  intros Ha Hpos Hlen. unfold returns_length, has_length, fade_and_normalize.
  unfold range_len in Hlen.
  destruct (Z.leb_spec a n) as [Hlong|Hshort].
  - rewrite <- (Z2Nat.id a) in Ha by lia.
    destruct (apply_envelope_lookup result attack attack _ _ Ha Ha)
      as (enveloped & -> & Hlen' & _); [lia..|].
    cbn [mbind option_bind].
    destruct (normalize_length enveloped peak) as (out & -> & Hout).
    { intros ->. simpl in Hlen'. lia. }
    exists out. split; [done|]. congruence.
  - rewrite (apply_envelope_short result attack attack a); [done|done|lia].
Qed.

Lemma sine_wave_varying_length (freq_fn : F -> F) (n_samples : Z) (amp : F) :
  length (sine_wave_varying freq_fn n_samples amp) = range_len n_samples.
Proof.
  unfold sine_wave_varying, sine_wave_varying_loop.
  append_loop sine_wave_varying_step.
Qed.

Lemma biplane_loop_length (reduce : F -> F) (n : Z) :
  length (biplane_loop amb reduce n).1.1 = range_len n.
Proof.
  unfold biplane_loop.
  apply (for_range_ind (fun k (st : list F * F * rng_state) => length st.1.1 = k));
    [done|].
  intros i [[ss p] g] _ Hlen. simpl in Hlen. unfold biplane_step.
  destruct (uniform _ _ g). cbn [fst]. rewrite length_app. simpl. lia.
Qed.

Lemma prop_loop_length (reduce : F -> F) (n : Z) :
  length (prop_loop reduce n).1 = range_len n.
Proof. unfold prop_loop. append_loop prop_step. Qed.

Lemma jet_loop_length (reduce : F -> F) (n : Z) :
  length (jet_loop reduce n).1 = range_len n.
Proof. unfold jet_loop. append_loop jet_step. Qed.

Lemma rocket_loop_length (reduce : F -> F) (n : Z) :
  length (rocket_loop reduce n).1 = range_len n.
Proof. unfold rocket_loop. append_loop rocket_step. Qed.

Lemma piano_loop_length (reduce : F -> F) (freq amp : F) (n : Z) :
  length (piano_loop reduce freq amp n).1 = range_len n.
Proof. unfold piano_loop. append_loop piano_step. Qed.

Lemma clue_pop_loop_length (reduce : F -> F) (duration : F) (n : Z) :
  length (clue_pop_loop reduce duration n).1 = range_len n.
Proof. unfold clue_pop_loop. append_loop clue_pop_step. Qed.

Lemma chime_loop_length (reduce : F -> F) (freq amp : F) (n : Z) :
  length (chime_loop reduce freq amp n).1 = range_len n.
Proof. unfold chime_loop. append_loop chime_step. Qed.

Lemma coin_loop_length (k : nat) :
  length (coin_loop k).1.1.1 = k.
Proof.
  unfold coin_loop.
  apply (for_range_ind (fun k (st : list F * F * F * F) => length st.1.1.1 = k));
    [done|].
  intros i [[[ss p1] p2] p3] _ Hlen. simpl in Hlen. unfold coin_step.
  cbn [fst]. rewrite length_app. simpl. lia.
Qed.

(** A loop that appends one sample per pass and reads a list long enough. *)
Lemma reading_loop_length (step : nat -> list F * F -> option (list F * F))
    (k : nat) :
  (forall i ss p, (i < k)%nat ->
     exists x p', step i (ss, p) = Some (ss ++ [x], p')) ->
  exists st, for_range_err k step ([], lit 0) = Some st /\ length st.1 = k.
Proof.
  intros Hstep.
  apply (for_range_err_ind (fun k st => length st.1 = k)); [done|].
  intros i [ss p] Hi Hlen. simpl in Hlen.
  destruct (Hstep i ss p Hi) as (x & p' & ->).
  eexists. split; [done|]. simpl. rewrite length_app. simpl. lia.
Qed.

(** A loop that updates sample [i] of its buffer at pass [i]. *)
Lemma updating_loop_length (step : nat -> list F * F -> option (list F * F))
    (k : nat) (samples : list F) (p0 : F) :
  (k <= length samples)%nat ->
  (forall i ss p, (i < length ss)%nat ->
     exists f p', step i (ss, p) = Some (alter f i ss, p')) ->
  exists st, for_range_err k step (samples, p0) = Some st /\
             length st.1 = length samples.
Proof.
  intros Hk Hstep.
  apply (for_range_err_ind (fun _ st => length st.1 = length samples)); [done|].
  intros i [ss p] Hi Hlen. simpl in Hlen.
  destruct (Hstep i ss p) as (f & p' & ->); [lia|].
  eexists. split; [done|]. simpl. by rewrite length_alter.
Qed.

Lemma snare_loop_length (bp : list F) (k : nat) :
  (k <= length bp)%nat ->
  exists st, for_range_err k (snare_step bp) ([], lit 0) = Some st /\
             length st.1 = k.
Proof.
  intros Hk. apply reading_loop_length. intros i ss p Hi. unfold snare_step.
  destruct (lookup_lt_is_Some_2 bp i) as [x Hx]; [lia|].
  rewrite Hx. simpl. by eexists _, _.
Qed.

Lemma altitude_loop_length (reduce : F -> F) (duration : F) (n : Z) :
  exists st, altitude_loop amb reduce duration n = Some st /\
             length st.1 = range_len n.
Proof.
  unfold altitude_loop. apply reading_loop_length. intros i ss p Hi.
  unfold altitude_step.
  destruct (lookup_lt_is_Some_2 (white_noise amb n 35) i) as [x Hx].
  { by rewrite white_noise_length. }
  rewrite Hx. simpl. by eexists _, _.
Qed.

Lemma boost_loop_length (reduce : F -> F) (duration : F) (n : Z) :
  exists st, boost_loop amb reduce duration n = Some st /\
             length st.1 = range_len n.
Proof.
  unfold boost_loop. apply reading_loop_length. intros i ss p Hi.
  unfold boost_step.
  destruct (lookup_lt_is_Some_2
              (highpass_filter (white_noise amb n 40) (of_int 800)) i) as [x Hx].
  { by rewrite highpass_filter_length, white_noise_length. }
  rewrite Hx. simpl. by eexists _, _.
Qed.

Lemma ui_click_loop_length (samples : list F) (k : nat) :
  (k <= length samples)%nat ->
  exists st, for_range_err k ui_click_step (samples, lit 0) = Some st /\
             length st.1 = length samples.
Proof.
  intros Hk. apply updating_loop_length; [done|]. intros i ss p Hi.
  unfold ui_click_step. rewrite list_update_inside by done. simpl.
  by eexists _, _.
Qed.

Lemma bomber_loop_length (reduce : F -> F) (n : Z) :
  exists samples, bomber_loop reduce n = Some samples /\
                  length samples = range_len n.
Proof.
  unfold bomber_loop.
  assert (Hgen : forall voices (samples : list F),
            length samples = range_len n ->
            exists samples',
              fold_left
                (fun acc '(fi, (base_freq, init_phase)) =>
                   samples ← acc;
                   fst <$> for_range_err (range_len n)
                             (bomber_step reduce base_freq fi)
                             (samples, init_phase))
                voices (Some samples) = Some samples' /\
              length samples' = range_len n).
  { induction voices as [|[fi [base_freq init_phase]] voices IH];
      intros samples Hlen; [by exists samples|].
    cbn [fold_left mbind option_bind].
    destruct (updating_loop_length (bomber_step reduce base_freq fi)
                (range_len n) samples init_phase) as (st & -> & Hst); [lia| |].
    - intros i ss p Hi. unfold bomber_step.
      rewrite list_update_inside by done. simpl. by eexists _, _.
    - simpl. apply IH. congruence. }
  apply Hgen. by rewrite length_replicate.
Qed.

End Lengths.

Section LengthsBinary64.
Context (M : PyMath float) (G : PyRandom float) (amb : Ambient float).
Local Open Scope py_scope.

(** The attack and release lengths [int(attack * SAMPLE_RATE)] of the
    engines and of the tracks. *)
Lemma attack_samples_binary64 :
  to_int (F := float) (lit 0.04 * of_int SAMPLE_RATE) = Some 1764%Z /\
  to_int (F := float) (lit 0.05 * of_int SAMPLE_RATE) = Some 2205%Z /\
  to_int (F := float) (lit 0.06 * of_int SAMPLE_RATE) = Some 2646%Z /\
  to_int (F := float) (lit 0.08 * of_int SAMPLE_RATE) = Some 3528%Z /\
  to_int (F := float) (lit 0.1 * of_int SAMPLE_RATE) = Some 4410%Z /\
  to_int (F := float) (lit 0.15 * of_int SAMPLE_RATE) = Some 6615%Z.
Proof. repeat split; by vm_compute. Qed.

Ltac use_blend :=
  match goal with
  | |- context [blend ?n ?x ?y ?a ?b] =>
      destruct (blend_length n x y a b) as (combined & -> & Hcombined)
  | |- context [blend3 ?n ?x ?y ?z ?a ?b ?c] =>
      destruct (blend3_length n x y z a b c) as (combined & -> & Hcombined)
  end;
  [ by rewrite ?modulate_length, ?bandpass_filter_length,
         ?lowpass_filter_length, ?white_noise_length,
         ?biplane_loop_length, ?prop_loop_length, ?jet_loop_length,
         ?rocket_loop_length ..
  | cbn [mbind option_bind] ].

Ltac use_fade a :=
  apply (fade_and_normalize_returns _ _ _ a);
  [ apply attack_samples_binary64
  | lia
  | by rewrite ?modulate_length, ?apply_lofi_filter_length ].

Lemma gen_biplane_engine_length (duration : float) (n : Z) :
  n_samples_of duration = Some n ->
  returns_length (gen_biplane_engine amb duration) n 2205.
Proof.
  intros Hn. unfold gen_biplane_engine. rewrite Hn. cbn [mbind option_bind].
  use_blend. use_fade 2205%Z.
Qed.

Lemma gen_prop_engine_length (duration : float) (n : Z) :
  n_samples_of duration = Some n ->
  returns_length (gen_prop_engine amb duration) n 2205.
Proof.
  intros Hn. unfold gen_prop_engine. rewrite Hn. cbn [mbind option_bind].
  use_blend. use_fade 2205%Z.
Qed.

Lemma gen_bomber_engine_length (duration : float) (n : Z) :
  n_samples_of duration = Some n ->
  returns_length (gen_bomber_engine amb duration) n 3528.
Proof.
  intros Hn. unfold gen_bomber_engine. rewrite Hn. cbn [mbind option_bind].
  destruct (bomber_loop_length (F := float) (wrap_at (of_int 8 * pi)) n)
    as (samples & -> & Hsamples).
  cbn [mbind option_bind].
  match goal with
  | |- context [blend ?n ?x ?y ?a ?b] =>
      destruct (blend_length n x y a b) as (combined & -> & Hcombined)
  end.
  { by rewrite modulate_length. }
  { by rewrite lowpass_filter_length, white_noise_length. }
  cbn [mbind option_bind]. use_fade 3528%Z.
Qed.

Lemma gen_jet_engine_length (duration : float) (n : Z) :
  n_samples_of duration = Some n ->
  returns_length (gen_jet_engine amb duration) n 2646.
Proof.
  intros Hn. unfold gen_jet_engine. rewrite Hn. cbn [mbind option_bind].
  use_blend. use_fade 2646%Z.
Qed.

Lemma gen_rocket_engine_length (duration : float) (n : Z) :
  n_samples_of duration = Some n ->
  returns_length (gen_rocket_engine amb duration) n 1764.
Proof.
  intros Hn. unfold gen_rocket_engine. rewrite Hn. cbn [mbind option_bind].
  use_blend. use_fade 1764%Z.
Qed.

Lemma gen_wind_length (duration : float) (n : Z) :
  n_samples_of duration = Some n ->
  returns_length (gen_wind amb duration) n 6615.
Proof.
  intros Hn. unfold gen_wind. rewrite Hn. cbn [mbind option_bind].
  match goal with
  | |- context [mapM ?f (seq 0 ?k)] =>
      destruct (mapM_range_length f k) as (result & -> & Hresult)
  end.
  { intros i Hi.
    destruct (lookup_lt_is_Some_2
                (lowpass_filter (white_noise amb n 10) (of_int 400)) i)
      as [lo Hlo].
    { by rewrite lowpass_filter_length, white_noise_length. }
    destruct (lookup_lt_is_Some_2
                (bandpass_filter (white_noise amb n 11) (of_int 200)
                   (of_int 1200)) i) as [mid Hmid].
    { by rewrite bandpass_filter_length, white_noise_length. }
    rewrite Hlo, Hmid. by eexists. }
  cbn [mbind option_bind]. use_fade 6615%Z.
Qed.

Lemma gen_hihat_length (duration : float) (open_hat : bool) (n : Z) :
  (if open_hat then n = 6615%Z else n_samples_of duration = Some n) ->
  has_length (gen_hihat amb duration open_hat) n.
Proof.
  intros Hn. unfold has_length, gen_hihat.
  assert (Hto : to_int (if negb open_hat then duration * of_int SAMPLE_RATE
                        else lit 0.15 * of_int SAMPLE_RATE) = Some n).
  { destruct open_hat; simpl negb; cbv iota; [subst n; by vm_compute|done]. }
  rewrite Hto. cbn [mbind option_bind]. eexists. split; [done|].
  by rewrite length_fmap, enumerate_length, bandpass_filter_length,
    white_noise_length.
Qed.

Lemma instrument_lengths (duration : float) (n : Z) :
  n_samples_of duration = Some n ->
  has_length (gen_kick duration) n /\
  has_length (gen_snare amb duration) n /\
  (forall freq amp, has_length (gen_piano_note freq duration amp) n).
Proof.
  intros Hn. unfold has_length, gen_kick, gen_snare, gen_piano_note.
  rewrite Hn. cbn [mbind option_bind]. split; [|split].
  - eexists. split; [done|]. by rewrite length_fmap, length_seq.
  - destruct (snare_loop_length
                (bandpass_filter (white_noise amb n 25) (of_int 800) (of_int 5000))
                (range_len n)) as (st & -> & Hlen).
    { by rewrite bandpass_filter_length, white_noise_length. }
    exists st.1. split; [done|]. exact Hlen.
  - intros freq amp. eexists. split; [done|]. apply piano_loop_length.
Qed.

Lemma gen_clue_pop_length (duration : float) (n : Z) :
  n_samples_of duration = Some n ->
  returns_length (gen_clue_pop duration) n 1.
Proof.
  intros Hn. unfold gen_clue_pop. rewrite Hn. cbn [mbind option_bind].
  apply normalize_returns, clue_pop_loop_length.
Qed.

Lemma gen_coin_collect_length (duration : float) (n : Z) :
  n_samples_of duration = Some n ->
  returns_length (gen_coin_collect duration) n 1.
Proof.
  intros Hn. unfold gen_coin_collect. rewrite Hn. cbn [mbind option_bind].
  pose proof (coin_loop_length (F := float) (range_len n)) as Hlen.
  destruct (coin_loop (range_len n)) as [[[samples p1] p2] p3].
  by apply normalize_returns.
Qed.

Lemma gen_ui_click_length (duration : float) (n : Z) :
  n_samples_of duration = Some n ->
  returns_length (gen_ui_click amb duration) n 1.
Proof.
  intros Hn. unfold gen_ui_click. rewrite Hn. cbn [mbind option_bind].
  match goal with
  | |- context [for_range_err ?k ui_click_step (?samples, _)] =>
      destruct (ui_click_loop_length samples k) as (st & -> & Hst);
      [|assert (Hlen : length samples = range_len n)]
  end.
  - by rewrite length_fmap, enumerate_length, bandpass_filter_length,
      white_noise_length.
  - by rewrite length_fmap, enumerate_length, bandpass_filter_length,
      white_noise_length.
  - cbn [mbind option_bind]. apply normalize_returns. congruence.
Qed.

Lemma gen_altitude_change_length (duration : float) (n : Z) :
  n_samples_of duration = Some n ->
  returns_length (gen_altitude_change amb duration) n 1.
Proof.
  intros Hn. unfold gen_altitude_change. rewrite Hn. cbn [mbind option_bind].
  destruct (altitude_loop_length amb (wrap_at (of_int 2 * pi)) duration n)
    as (st & -> & Hst).
  cbn [mbind option_bind]. by apply normalize_returns.
Qed.

Lemma gen_boost_start_length (duration : float) (n : Z) :
  n_samples_of duration = Some n ->
  returns_length (gen_boost_start amb duration) n 1.
Proof.
  intros Hn. unfold gen_boost_start. rewrite Hn. cbn [mbind option_bind].
  destruct (boost_loop_length amb (wrap_at (of_int 8 * pi)) duration n)
    as (st & -> & Hst).
  cbn [mbind option_bind]. by apply normalize_returns.
Qed.

End LengthsBinary64.

(** *** Overlaying loops *)

Section OverlayLoops.
Context {F : Type} `{PyFloat F} `{PyMath F} `{PyRandom F}.
Variable amb : Ambient F.
Local Open Scope py_scope.

Lemma overlay_samples_length (base overlay : list F) (start : Z) (amp : F) :
  (0 <= start)%Z ->
  exists result, overlay_samples base overlay start amp = Some result /\
                 length result = length base.
Proof.
  intros Hstart.
  destruct (overlay_samples_lookup base overlay start amp Hstart)
    as (result & Hres & Hlen & _).
  by exists result.
Qed.

Lemma start_ok_spec (start : option Z) :
  start_ok start = true -> exists s, start = Some s /\ (0 <= s)%Z.
Proof.
  destruct start as [s|]; [|done]. simpl. intros Hs%Z.leb_le. by exists s.
Qed.

Lemma overlay_notes_length (bpm beat : F) (notes : list NoteEvent)
    (result : list F) :
  notes_ok bpm beat notes = true ->
  exists result', overlay_notes bpm beat notes result = Some result' /\
                  length result' = length result.
Proof.
  unfold overlay_notes, notes_ok.
  induction notes as [|[[[beat_off pitch] dur_beats] amp] notes IH]
    in result |- *; intros Hok; [by exists result|].
  cbn [forallb] in Hok.
  apply andb_prop in Hok as [Hev Hrest].
  apply andb_prop in Hev as [Hdur Hstart].
  apply bool_decide_eq_true in Hdur as [n Hn].
  apply start_ok_spec in Hstart as (s & Hs & Hs0).
  cbn [fold_left mbind option_bind]. unfold gen_piano_note.
  rewrite Hn. cbn [mbind option_bind]. rewrite Hs. cbn [mbind option_bind].
  destruct (overlay_samples_length result
              (piano_loop (wrap_at (of_int 12 * pi)) (note_to_freq pitch) (lit amp) n).1
              s (lit 1) Hs0) as (result1 & -> & Hlen1).
  destruct (IH result1 Hrest) as (result' & Hres' & Hlen').
  exists result'. split; [exact Hres'|congruence].
Qed.

Lemma overlay_drums_length (count : Z) (fires : nat -> bool)
    (start_of : nat -> option Z) (amp_of : nat -> F) (hit result : list F) :
  drums_ok count fires start_of = true ->
  exists result',
    overlay_drums count fires start_of amp_of hit result = Some result' /\
    length result' = length result.
Proof.
  unfold overlay_drums, drums_ok. intros Hok.
  apply (for_range_err_ind (fun _ res => length res = length result)); [done|].
  intros i res Hi Hlen.
  assert (Hat : (if fires i then start_ok (start_of i) else true) = true).
  { eapply (proj1 (forallb_forall _ _) Hok). apply in_seq. lia. }
  destruct (fires i).
  - apply start_ok_spec in Hat as (s & -> & Hs0). cbn [mbind option_bind].
    destruct (overlay_samples_length res hit s (amp_of i) Hs0)
      as (res' & -> & Hlen').
    exists res'. split; [done|congruence].
  - by exists res.
Qed.

(** The chord loop of [gen_landing_success] over any list of notes whose
    starts are non-negative: it returns when [int] accepts every note
    duration, and raises otherwise. *)
Lemma chord_fold_length (reduce : F -> F) (duration : F)
    (notes : list (F * F * F)) (result : list F) :
  chord_starts_ok notes = true ->
  let chord :=
    fold_left
      (fun acc '(t_start, freq, amp) =>
         result ← acc;
         let note_dur := duration - t_start in
         note_n ← to_int (note_dur * of_int SAMPLE_RATE);
         let note_samples := (chime_loop reduce freq amp note_n).1 in
         start_idx ← to_int (t_start * of_int SAMPLE_RATE);
         overlay_samples result note_samples start_idx (lit 1))
      notes in
  match chord_note_lengths duration notes with
  | Some _ => exists result', chord (Some result) = Some result' /\
                              length result' = length result
  | None => chord (Some result) = None
  end.
Proof.
  intros Hok chord. unfold chord_note_lengths.
  assert (Hnone : forall ns, fold_left
            (fun acc '(t_start, freq, amp) =>
               result ← acc;
               let note_dur := duration - t_start in
               note_n ← to_int (note_dur * of_int SAMPLE_RATE);
               let note_samples := (chime_loop reduce freq amp note_n).1 in
               start_idx ← to_int (t_start * of_int SAMPLE_RATE);
               overlay_samples result note_samples start_idx (lit 1))
            ns None = None).
  { induction ns as [|[[t f] a] ns IHn]; [done|]. exact IHn. }
  subst chord.
  induction notes as [|[[t_start freq] amp] notes IH] in result, Hok |- *;
    [by exists result|].
  cbn [forallb] in Hok. apply andb_prop in Hok as [Hstart Hrest].
  apply start_ok_spec in Hstart as (s & Hs & Hs0). simpl in Hs.
  cbn [mapM fold_left mbind option_bind fst].
  destruct (to_int ((duration - t_start) * of_int SAMPLE_RATE)) as [note_n|];
    cbn [mbind option_bind]; [|apply Hnone].
  rewrite Hs. cbn [mbind option_bind].
  destruct (overlay_samples_length result (chime_loop reduce freq amp note_n).1
              s (lit 1) Hs0) as (result1 & -> & Hlen1).
  specialize (IH result1 Hrest).
  destruct (mapM _ notes); cbn [mbind option_bind mret option_ret].
  - destruct IH as (result' & Hres' & Hlen'). exists result'.
    split; [exact Hres'|congruence].
  - exact IH.
Qed.

End OverlayLoops.

Section TracksBinary64.
Context (M : PyMath float) (G : PyRandom float) (amb : Ambient float).
Local Open Scope py_scope.

Lemma gen_landing_success_length (duration : float) (n : Z) :
  n_samples_of duration = Some n ->
  match chord_note_lengths duration chord_notes with
  | Some _ => returns_length (gen_landing_success duration) n 1
  | None => gen_landing_success duration = None
  end.
Proof.
  intros Hn. unfold gen_landing_success, landing_chord. rewrite Hn.
  cbn [mbind option_bind].
  assert (Hok : chord_starts_ok (F := float) chord_notes = true)
    by (vm_compute; reflexivity).
  pose proof (chord_fold_length (wrap_at (of_int 8 * pi)) duration chord_notes
                (replicate (range_len n) (lit 0)) Hok) as Hchord.
  cbv zeta in Hchord.
  destruct (chord_note_lengths duration chord_notes).
  - destruct Hchord as (result & -> & Hlen). cbn [mbind option_bind].
    apply normalize_returns. by rewrite Hlen, length_replicate.
  - by rewrite Hchord.
Qed.

(** The three tracks at the durations [main] asks for: 12, 13 and 14
    seconds. *)
Lemma drum_hits_binary64 :
  n_samples_of (F := float) (lit 0.25) = Some 11025%Z /\
  n_samples_of (F := float) (lit 0.15) = Some 6615%Z /\
  n_samples_of (F := float) (lit 0.08) = Some 3528%Z.
Proof. repeat split; by vm_compute. Qed.

(** [Some x >>= f] as an equation to rewrite with: the tracks at their
    default durations are closed terms, which conversion must not try to
    evaluate. *)
Lemma bind_Some_l {A B : Type} (f : A -> option B) (x : A) :
  Some x ≫= f = f x.
Proof. reflexivity. Qed.

Ltac bind_step := rewrite bind_Some_l; cbv beta.

Ltac use_notes :=
  match goal with
  | |- context [overlay_notes ?bpm ?beat ?notes ?base] =>
      let Hok := fresh "Hok" in
      assert (Hok : notes_ok bpm beat notes = true)
        by (vm_compute; reflexivity);
      destruct (overlay_notes_length bpm beat notes base Hok) as (? & -> & ?)
  end; bind_step.

Ltac use_drums :=
  match goal with
  | |- context [overlay_drums ?count ?fires ?start_of ?amp_of ?hit ?base] =>
      let Hok := fresh "Hok" in
      assert (Hok : drums_ok count fires start_of = true)
        by (vm_compute; reflexivity);
      destruct (overlay_drums_length count fires start_of amp_of hit base Hok)
        as (? & -> & ?)
  end; bind_step.

Lemma returns_length_at_least {F : Type} (r : option (list F)) (n least : Z) :
  (least <= n)%Z -> returns_length r n least -> has_length r n.
Proof.
  intros Hle. unfold returns_length. by rewrite (proj2 (Z.leb_le _ _) Hle).
Qed.

Ltac finish_track_length :=
  unfold finish_track;
  eapply returns_length_at_least; [eassumption|];
  apply (fade_and_normalize_returns _ _ _ 4410);
  [ apply attack_samples_binary64 | lia |];
  rewrite apply_lofi_filter_length, length_replicate in *; congruence.

Lemma gen_lofi_track_01_returns (n : Z) :
  n_samples_of (F := float) (lit 12) = Some n -> (4410 <= n)%Z ->
  has_length (gen_lofi_track_01 amb (lit 12)) n.
Proof.
  intros Hn Hlong.
  destruct drum_hits_binary64 as (Hkick & Hsnare & Hhat).
  destruct (instrument_lengths M G amb (lit 0.25) _ Hkick) as ((kick & Hk & _) & _).
  destruct (instrument_lengths M G amb (lit 0.15) _ Hsnare)
    as (_ & (snare & Hs & _) & _).
  destruct (gen_hihat_length M G amb (lit 0.08) false _ Hhat) as (hihat & Hh & _).
  unfold gen_lofi_track_01. rewrite Hn. bind_step.
  assert (to_int (F := float) (lit 12 * lit 75 / of_int 60) = Some 15%Z)
    as -> by (vm_compute; reflexivity).
  assert (to_int (F := float) (lit 12 * lit 75 / of_int 30) = Some 30%Z)
    as -> by (vm_compute; reflexivity).
  use_notes. use_notes. rewrite Hk. do 2 bind_step.
  use_drums. rewrite Hs. bind_step.
  use_drums. rewrite Hh. do 2 bind_step.
  use_drums. finish_track_length.
Qed.

Lemma gen_lofi_track_02_returns (n : Z) :
  n_samples_of (F := float) (lit 13) = Some n -> (4410 <= n)%Z ->
  has_length (gen_lofi_track_02 amb (lit 13)) n.
Proof.
  intros Hn Hlong.
  destruct drum_hits_binary64 as (Hkick & Hsnare & Hhat).
  destruct (instrument_lengths M G amb (lit 0.25) _ Hkick) as ((kick & Hk & _) & _).
  destruct (instrument_lengths M G amb (lit 0.15) _ Hsnare)
    as (_ & (snare & Hs & _) & _).
  destruct (gen_hihat_length M G amb (lit 0.08) true _ eq_refl) as (hihat & Hh & _).
  unfold gen_lofi_track_02. rewrite Hn. bind_step.
  assert (to_int (F := float) (lit 13 * lit 68 / of_int 60) = Some 14%Z)
    as -> by (vm_compute; reflexivity).
  use_notes. use_notes. rewrite Hk. do 2 bind_step.
  use_drums. rewrite Hs. bind_step.
  use_drums. rewrite Hh. bind_step.
  use_drums. finish_track_length.
Qed.

Lemma gen_lofi_track_03_returns (n : Z) :
  n_samples_of (F := float) (lit 14) = Some n -> (4410 <= n)%Z ->
  has_length (gen_lofi_track_03 amb (lit 14)) n.
Proof.
  intros Hn Hlong.
  destruct drum_hits_binary64 as (Hkick & Hsnare & Hhat).
  destruct (instrument_lengths M G amb (lit 0.25) _ Hkick) as ((kick & Hk & _) & _).
  destruct (instrument_lengths M G amb (lit 0.15) _ Hsnare)
    as (_ & (snare & Hs & _) & _).
  destruct (gen_hihat_length M G amb (lit 0.08) false _ Hhat) as (hihat & Hh & _).
  unfold gen_lofi_track_03. rewrite Hn. bind_step.
  assert (to_int (F := float) (lit 14 * lit 80 / of_int 60) = Some 18%Z)
    as -> by (vm_compute; reflexivity).
  assert (to_int (F := float) (lit 14 * lit 80 / of_int 30) = Some 37%Z)
    as -> by (vm_compute; reflexivity).
  use_notes. use_notes. rewrite Hk. do 2 bind_step.
  use_drums. rewrite Hs. bind_step.
  use_drums. rewrite Hh. do 2 bind_step.
  use_drums. finish_track_length.
Qed.

Lemma track_lengths_binary64 :
  n_samples_of (F := float) (lit 12) = Some 529200%Z /\
  n_samples_of (F := float) (lit 13) = Some 573300%Z /\
  n_samples_of (F := float) (lit 14) = Some 617400%Z.
Proof. repeat split; vm_compute; reflexivity. Qed.

End TracksBinary64.



(** ** Sequencer placement *)

(** The beat counts of the drum loops of track 01 at its default duration:
    [int(12.0 * 75.0 / 60)] beats and [int(12.0 * 75.0 / 30)] half beats. *)
Lemma track_01_beats :
  to_int (F := float) (lit 12 * lit 75 / of_int 60)%py = Some 15%Z /\
  to_int (F := float) (lit 12 * lit 75 / of_int 30)%py = Some 30%Z.
Proof. split; by vm_compute. Qed.



(** * Further properties of the code

    What the code shows beyond the claims above: its behaviour at the
    edges (short buffers, negative offsets, NaN), the invariants of the
    filters, of the oscillators and of the normaliser, and how the stages
    compose up to the encoder. *)

(** ** The front end of the encoder *)

Lemma trunc_opp (x : R) : Exact.trunc (- x) = (- Exact.trunc x)%Z.
Proof.
  unfold Exact.trunc.
  destruct (Rle_dec 0 x) as [Hx|Hx], (Rle_dec 0 (- x)) as [Hn|Hn]; try lra.
  - assert (x = 0%R) as -> by lra. rewrite Ropp_0.
    rewrite <- (Int_part_spec 0 0); [done|lra].
  - by rewrite Ropp_involutive.
  - lia.
Qed.

(** [int(x)] on a real: the integer of largest magnitude between 0 and [x]. *)
Lemma trunc_spec (x : R) :
  let z := Exact.trunc x in
  ((0 <= x)%R -> (0 <= z)%Z /\ (IZR z <= x < IZR z + 1)%R) /\
  ((x <= 0)%R -> (z <= 0)%Z /\ (IZR z - 1 < x <= IZR z)%R).
Proof.
  assert (Hpos : forall y, (0 <= y)%R ->
            (0 <= Exact.trunc y)%Z /\
            (IZR (Exact.trunc y) <= y < IZR (Exact.trunc y) + 1)%R).
  { intros y Hy. unfold Exact.trunc. destruct (Rle_dec 0 y); [|lra].
    destruct (base_Int_part y) as [Hlo Hhi]. split; [|lra].
    apply le_IZR. apply Rnot_lt_le. intros Hneg.
    assert (IZR (Int_part y) <= -1)%R.
    { apply (IZR_le _ (-1)). apply lt_IZR in Hneg. lia. }
    lra. }
  cbv zeta. split; intros Hx; [by apply Hpos|].
  destruct (Hpos (- x)%R) as [Hz Hb]; [lra|].
  rewrite trunc_opp in Hz, Hb. rewrite opp_IZR in Hb. split; [lia|lra].
Qed.

Lemma trunc_monotone (x y : R) :
  (x <= y)%R -> (Exact.trunc x <= Exact.trunc y)%Z.
Proof.
  intros Hxy.
  destruct (Rle_dec 0 x) as [Hx|Hx], (Rle_dec 0 y) as [Hy|Hy].
  - destruct (proj1 (trunc_spec x) Hx) as [_ Hbx].
    destruct (proj1 (trunc_spec y) Hy) as [_ Hby].
    apply Z.lt_succ_r. apply lt_IZR. rewrite succ_IZR. lra.
  - lra.
  - destruct (proj2 (trunc_spec x)) as [Hzx _]; [lra|].
    destruct (proj1 (trunc_spec y) Hy) as [Hzy _]. lia.
  - destruct (proj2 (trunc_spec x)) as [_ Hbx]; [lra|].
    destruct (proj2 (trunc_spec y)) as [_ Hby]; [lra|].
    apply Z.lt_pred_le. apply lt_IZR. unfold Z.pred. rewrite plus_IZR. lra.
Qed.

(** The clamp of the source, written with comparisons, is the clamp to
    [-1, 1]. *)
Lemma clamp_exact (s : R) :
  py_max2 (- lit 1)%py (py_min2 (lit 1) s) = clamp_unit s.
Proof.
  unfold py_max2, py_min2, clamp_unit. exact_literals.
  change (@fltb R Exact.ops) with Exact.ltb.
  change (@fneg R Exact.ops) with Ropp.
  replace (1 * / 1)%R with 1%R by lra.
  unfold Rmax, Rmin.
  destruct (Exact.ltb s 1) eqn:H1.
  - apply ltb_true in H1. destruct (Rle_dec 1 s); [lra|].
    destruct (Exact.ltb (- (1)) s) eqn:H2.
    + apply ltb_true in H2. destruct (Rle_dec (-1) s); lra.
    + apply ltb_false in H2. destruct (Rle_dec (-1) s); lra.
  - apply ltb_false in H1. destruct (Rle_dec 1 s); [|lra].
    destruct (Exact.ltb (- (1)) 1) eqn:H2.
    + destruct (Rle_dec (-1) 1); lra.
    + apply ltb_false in H2. lra.
Qed.

Lemma clamp_unit_range (s : R) : (-1 <= clamp_unit s <= 1)%R.
Proof.
  unfold clamp_unit, Rmax, Rmin.
  destruct (Rle_dec 1 s); destruct (Rle_dec _ _); lra.
Qed.

Lemma Rabs_le_between (x B : R) : (Rabs x <= B)%R -> (- B <= x <= B)%R.
Proof. unfold Rabs. destruct (Rcase_abs x); lra. Qed.

(** A sample within [-1, 1] passes the clamp unchanged. *)
Lemma clamp_unit_inside (y : R) : (Rabs y <= 1)%R -> clamp_unit y = y.
Proof.
  intros Hy. apply Rabs_le_between in Hy.
  unfold clamp_unit, Rmax, Rmin.
  destruct (Rle_dec 1 y); destruct (Rle_dec _ _); lra.
Qed.

Lemma int16_sample_exact (s : R) :
  int16_sample s = Some (Exact.trunc (clamp_unit s * 32767)).
Proof. unfold int16_sample. by rewrite clamp_exact. Qed.

Lemma int16_sample_range (s : R) :
  (-32767 <= Exact.trunc (clamp_unit s * 32767) <= 32767)%Z.
Proof.
  pose proof (clamp_unit_range s) as Hc.
  pose proof (trunc_monotone (IZR (-32767)) (clamp_unit s * 32767)) as Hlo.
  pose proof (trunc_monotone (clamp_unit s * 32767) (IZR 32767)) as Hhi.
  rewrite trunc_IZR in Hlo, Hhi. split; [apply Hlo|apply Hhi]; lra.
Qed.

Lemma struct_pack_h_length (vs : list Z) :
  Forall (fun v => (-32768 <= v <= 32767)%Z) vs ->
  exists raw, struct_pack_h vs = Some raw /\
              length raw = (2 * length vs)%nat /\
              Forall (fun b => (0 <= b < 256)%Z) raw.
Proof.
  unfold struct_pack_h. induction 1 as [|v vs Hv Hvs IH].
  - by exists [].
  - destruct IH as (raw & Hraw & Hlen & Hbytes).
    apply bind_Some in Hraw as (bss & Hbss & [= <-]).
    assert (Hpack : pack_h v
                    = Some [((v mod 65536) mod 256)%Z; ((v mod 65536) / 256)%Z]).
    { unfold pack_h.
      by rewrite (proj2 (Z.leb_le _ _) (proj1 Hv)),
        (proj2 (Z.leb_le _ _) (proj2 Hv)). }
    cbn [mapM]. rewrite Hpack. cbn [mbind option_bind]. rewrite Hbss. cbn.
    eexists. split; [done|]. split; [simpl in *; lia|].
    repeat apply Forall_cons_2; [| |done].
    + apply Z.mod_pos_bound. lia.
    + split; [apply Z.div_pos; [apply Z.mod_pos_bound|]; lia|].
      apply Z.div_lt_upper_bound; [lia|].
      pose proof (Z.mod_pos_bound v 65536). lia.
Qed.

(** X1.  In exact arithmetic the front end of [encode_mp3] never raises,
    whatever the samples: the clamp keeps every scaled sample within
    [-32767, 32767] (the value -32768 is never produced), so [int] and
    [struct.pack] accept them all; there is one 16-bit value per sample and
    two bytes per value. *)
Theorem encode_mp3_raw_total (pcm_samples : list R) :
  exists vs raw,
    int16_samples pcm_samples = Some vs /\
    length vs = length pcm_samples /\
    Forall (fun v => (-32767 <= v <= 32767)%Z) vs /\
    encode_mp3_raw pcm_samples = Some raw /\
    length raw = (2 * length pcm_samples)%nat /\
    Forall (fun b => (0 <= b < 256)%Z) raw.
Proof.
  assert (Hvs : exists vs, int16_samples pcm_samples = Some vs /\
                  length vs = length pcm_samples /\
                  Forall (fun v => (-32767 <= v <= 32767)%Z) vs).
  { unfold int16_samples. induction pcm_samples as [|s rest IH].
    - by exists [].
    - destruct IH as (vs & Hvs & Hlen & Hall).
      cbn [mapM]. rewrite int16_sample_exact, Hvs. cbn.
      eexists. split; [done|]. split; [simpl; lia|].
      apply Forall_cons_2; [apply int16_sample_range|done]. }
  destruct Hvs as (vs & Hvs & Hlen & Hall).
  destruct (struct_pack_h_length vs) as (raw & Hraw & Hrlen & Hbytes).
  { eapply Forall_impl; [exact Hall|]. simpl. lia. }
  exists vs, raw. unfold encode_mp3_raw. rewrite Hvs. cbn [mbind option_bind].
  repeat split; try done. lia.
Qed.

(** X2.  The quantiser [int(max(-1.0, min(1.0, s)) * 32767)] in exact
    arithmetic: it is odd ([int] truncates toward zero, so a sample and its
    negation get opposite values), it saturates at 32767 from 1.0 up and at
    -32767 from -1.0 down, in between the magnitude of its value is
    [32767 |s|] rounded down, and it is monotone. *)
Theorem int16_sample_laws (s : R) :
  exists v,
    int16_sample s = Some v /\
    int16_sample (- s)%R = Some (- v)%Z /\
    ((1 <= s)%R -> v = 32767%Z) /\
    ((s <= -1)%R -> v = (-32767)%Z) /\
    ((-1 <= s <= 1)%R ->
       (IZR (Z.abs v) <= 32767 * Rabs s < IZR (Z.abs v) + 1)%R) /\
    (forall s' v', (s <= s')%R -> int16_sample s' = Some v' -> (v <= v')%Z).
Proof.
  exists (Exact.trunc (clamp_unit s * 32767)).
  split; [apply int16_sample_exact|].
  assert (Hodd : clamp_unit (- s) = (- clamp_unit s)%R).
  { unfold clamp_unit, Rmax, Rmin.
    destruct (Rle_dec 1 s), (Rle_dec 1 (- s));
      repeat destruct (Rle_dec _ _); lra. }
  split; [|split; [|split; [|split]]].
  - rewrite int16_sample_exact, Hodd, <- trunc_opp. do 2 f_equal. lra.
  - intros Hs. assert (clamp_unit s = 1%R) as ->.
    { unfold clamp_unit, Rmax, Rmin.
      destruct (Rle_dec 1 s); [|lra]. destruct (Rle_dec _ _); lra. }
    rewrite Rmult_1_l. apply trunc_IZR.
  - intros Hs. assert (clamp_unit s = (-1)%R) as ->.
    { unfold clamp_unit, Rmax, Rmin.
      destruct (Rle_dec 1 s); [lra|]. destruct (Rle_dec _ _); lra. }
    replace (-1 * 32767)%R with (IZR (-32767)) by lra. apply trunc_IZR.
  - intros Hs. assert (clamp_unit s = s) as ->.
    { unfold clamp_unit, Rmax, Rmin.
      destruct (Rle_dec 1 s); destruct (Rle_dec _ _); lra. }
    destruct (Rle_dec 0 s) as [Hpos|Hneg].
    + destruct (proj1 (trunc_spec (s * 32767))) as [Hz Hb]; [lra|].
      rewrite Z.abs_eq, Rabs_right by (lia || lra). lra.
    + destruct (proj2 (trunc_spec (s * 32767))) as [Hz Hb]; [lra|].
      rewrite Z.abs_neq, Rabs_left, opp_IZR by (lia || lra). lra.
  - intros s' v' Hle. rewrite int16_sample_exact. intros [= <-].
    apply trunc_monotone. apply Rmult_le_compat_r; [lra|].
    unfold clamp_unit, Rmax, Rmin.
    destruct (Rle_dec 1 s), (Rle_dec 1 s'); repeat destruct (Rle_dec _ _); lra.
Qed.

Lemma int16_sample_laws_witness :
  exists v, int16_sample 2%R = Some v /\ v = 32767%Z.
Proof.
  destruct (int16_sample_laws 2%R) as (v & Hv & _ & Htop & _).
  exists v. split; [exact Hv|]. apply Htop. lra.
Defined.

(** X3.  In binary64 the clamp of [encode_mp3] absorbs what is not a
    number in range: every sample that does not compare below 1.0, NaN and
    +infinity among them, is written as 32767, and every sample below 1.0
    that does not compare above -1.0, -infinity among them, as -32767; [int]
    never sees a NaN or an infinity. *)
Theorem int16_sample_saturates (s : float) :
  ((s <? lit 1)%py = false -> int16_sample s = Some 32767%Z) /\
  ((s <? lit 1)%py = true -> (s >? - lit 1)%py = false ->
     int16_sample s = Some (-32767)%Z).
Proof.
  unfold int16_sample, py_max2, py_min2. split.
  - intros ->. by vm_compute.
  - intros -> ->. by vm_compute.
Qed.

Lemma int16_sample_saturates_witness :
  int16_sample nan = Some 32767%Z /\
  int16_sample infinity = Some 32767%Z /\
  int16_sample neg_infinity = Some (-32767)%Z /\
  int16_sample (-2)%float = Some (-32767)%Z.
Proof.
  split; [|split; [|split]].
  - apply (proj1 (int16_sample_saturates nan)). by vm_compute.
  - apply (proj1 (int16_sample_saturates infinity)). by vm_compute.
  - apply (proj2 (int16_sample_saturates neg_infinity)); by vm_compute.
  - apply (proj2 (int16_sample_saturates (-2)%float)); by vm_compute.
Defined.

(** ** When [apply_envelope] and [overlay_samples] raise *)

(** A Python index inside [-len, len) addresses an element. *)
Lemma py_index_is_Some (len : nat) (idx : Z) :
  (- Z.of_nat len <= idx < Z.of_nat len)%Z -> is_Some (py_index len idx).
Proof.
  intros [Hlo Hhi]. unfold py_index.
  destruct (Z.leb_spec 0 idx), (Z.ltb_spec idx (Z.of_nat len));
    simpl; try done; try lia.
  destruct (Z.leb_spec (- Z.of_nat len) idx), (Z.ltb_spec idx 0);
    simpl; try done; lia.
Qed.

Lemma py_index_below (len : nat) (idx : Z) :
  (idx < - Z.of_nat len)%Z -> py_index len idx = None.
Proof.
  intros Hlt. unfold py_index.
  destruct (Z.leb_spec 0 idx), (Z.ltb_spec idx (Z.of_nat len));
    simpl; try lia;
  destruct (Z.leb_spec (- Z.of_nat len) idx), (Z.ltb_spec idx 0);
    simpl; try done; lia.
Qed.

Lemma py_index_negative (len : nat) (idx : Z) :
  (- Z.of_nat len <= idx < 0)%Z ->
  py_index len idx = Some (Z.to_nat (Z.of_nat len + idx)).
Proof.
  intros [Hlo Hhi]. unfold py_index.
  destruct (Z.leb_spec 0 idx); [lia|]. simpl.
  by rewrite (proj2 (Z.leb_le _ _) Hlo), (proj2 (Z.ltb_lt _ _) Hhi).
Qed.

Lemma list_update_is_Some {A : Type} (f : A -> A) (idx : Z) (l : list A) :
  (- Z.of_nat (length l) <= idx < Z.of_nat (length l))%Z ->
  exists l', list_update f idx l = Some l' /\ length l' = length l.
Proof.
  intros Hidx. unfold list_update.
  destruct (py_index_is_Some _ _ Hidx) as [i ->]. simpl.
  eexists. split; [done|]. apply length_alter.
Qed.

Section EnvelopeErrors.
Context {F : Type} `{PyFloat F}.
Local Open Scope py_scope.

(** X4.  [apply_envelope] on a buffer of [n] samples, with an attack ramp
    of [a] and a release ramp of [r] samples: it returns, with a buffer of
    [n] samples, exactly when [a <= n] and [r <= 2 n], and raises
    ([IndexError]) otherwise.  The attack ramp indexes from the start and
    runs off the end of a shorter buffer; the release ramp indexes
    [n - r + i], which for [n < r <= 2 n] is a negative index that Python
    counts from the end, and only below [-n] an error. *)
Theorem apply_envelope_raises_iff (samples : list F) (attack release : F)
    (a r : Z) :
  to_int (attack * of_int SAMPLE_RATE) = Some a ->
  to_int (release * of_int SAMPLE_RATE) = Some r ->
  let n := Z.of_nat (length samples) in
  ((a <= n)%Z /\ (r <= 2 * n)%Z ->
     exists result, apply_envelope samples attack release = Some result /\
                    length result = length samples) /\
  ((n < a)%Z \/ (2 * n < r)%Z -> apply_envelope samples attack release = None).
Proof.
  intros Ha Hr n. unfold apply_envelope. rewrite Ha, Hr.
  cbn [mbind option_bind]. fold n. split.
  - intros [Han Hrn].
    destruct (for_range_err_ind (fun _ res => length res = length samples)
                (fun i result =>
                   list_update
                     (fun v => v * (of_int (Z.of_nat i) / of_int a))
                     (Z.of_nat i) result)
                samples (range_len a)) as (r1 & -> & Hlen1); [done| |].
    { intros i st Hi Hst. unfold range_len in Hi.
      destruct (list_update_is_Some
                  (fun v => v * (of_int (Z.of_nat i) / of_int a))
                  (Z.of_nat i) st) as (st' & -> & Hst'); [lia|].
      exists st'. split; [done|congruence]. }
    cbn [mbind option_bind].
    apply (for_range_err_ind (fun _ res => length res = length samples));
      [done|].
    intros i st Hi Hst. unfold range_len in Hi.
    match goal with
    | |- context [list_update ?f ?idx st] =>
        destruct (list_update_is_Some f idx st) as (st' & -> & Hst'); [lia|]
    end.
    exists st'. split; [done|congruence].
  - intros [Hshort|Hshort].
    + rewrite (for_range_err_None (fun _ res => length res = length samples)
                 _ _ _ (length samples)); [done|unfold range_len; lia|done|..].
      * intros i st Hi Hst st' Hupd. apply list_update_length in Hupd. congruence.
      * intros st Hst. unfold list_update. by rewrite py_index_above by lia.
    + destruct (for_range_err _ _ samples) as [r1|] eqn:Hr1; [|done].
      cbn [mbind option_bind].
      assert (Hlen1 : length r1 = length samples).
      { destruct (decide (a <= n)%Z) as [Han|Han].
        - destruct (for_range_err_ind
                      (fun _ res => length res = length samples)
                      (fun i result =>
                         list_update
                           (fun v => v * (of_int (Z.of_nat i) / of_int a))
                           (Z.of_nat i) result)
                      samples (range_len a)) as (r1' & Hr1' & Hlen1); [done| |].
          { intros i st Hi Hst. unfold range_len in Hi.
            destruct (list_update_is_Some
                        (fun v => v * (of_int (Z.of_nat i) / of_int a))
                        (Z.of_nat i) st) as (st' & -> & Hst'); [lia|].
            exists st'. split; [done|congruence]. }
          congruence.
        - rewrite (for_range_err_None
                     (fun _ res => length res = length samples)
                     _ _ _ (length samples)) in Hr1;
            [done|unfold range_len; lia|done|..].
          + intros i st Hi Hst st' Hupd.
            apply list_update_length in Hupd. congruence.
          + intros st Hst. unfold list_update.
            by rewrite py_index_above by lia. }
      rewrite (for_range_err_None (fun _ res => length res = length samples)
                 _ _ _ 0%nat); [done|unfold range_len; lia|done|..].
      * intros i st Hi. lia.
      * intros st Hst. unfold list_update.
        by rewrite py_index_below by lia.
Qed.

End EnvelopeErrors.

Lemma apply_envelope_raises_iff_witness :
  (exists result : list float,
     apply_envelope [1; 1; 1]%float (lit 0.00005) (lit 0.0001) = Some result /\
     length result = 3%nat) /\
  apply_envelope [1; 1; 1]%float (lit 0.0001) (lit 0.00005) = None /\
  apply_envelope [1; 1; 1]%float (lit 0.00005) (lit 0.0002) = None.
Proof.
  assert (H2 : to_int (F := float) (lit 0.00005 * of_int SAMPLE_RATE)%py
               = Some 2%Z) by (vm_compute; reflexivity).
  assert (H4 : to_int (F := float) (lit 0.0001 * of_int SAMPLE_RATE)%py
               = Some 4%Z) by (vm_compute; reflexivity).
  assert (H8 : to_int (F := float) (lit 0.0002 * of_int SAMPLE_RATE)%py
               = Some 8%Z) by (vm_compute; reflexivity).
  split; [|split].
  - apply (proj1 (apply_envelope_raises_iff [1; 1; 1]%float _ _ 2 4 H2 H4)).
    simpl. lia.
  - apply (proj2 (apply_envelope_raises_iff [1; 1; 1]%float _ _ 4 2 H4 H2)).
    simpl. lia.
  - apply (proj2 (apply_envelope_raises_iff [1; 1; 1]%float _ _ 2 8 H2 H8)).
    simpl. lia.
Defined.

Section OverlayErrors.
Context {F : Type} `{PyFloat F}.
Local Open Scope py_scope.

Lemma overlay_samples_raised (overlay : list (nat * F)) (start : Z) (amp : F) :
  fold_left
    (fun acc '(i, s) =>
       result ← acc;
       let idx := (start + Z.of_nat i)%Z in
       if (idx <? Z.of_nat (length result))%Z
       then list_update (fun v => v + s * amp) idx result
       else Some result)
    overlay None = None.
Proof. induction overlay as [|[i s] overlay IH]; [done|exact IH]. Qed.

(** X5.  [overlay_samples] with any start offset: it raises ([IndexError])
    exactly when the overlay is not empty and [start_sample < -len(base)],
    and returns a buffer of the length of [base] otherwise.  The guard
    [idx < len(result)] lets a negative index through, and Python counts it
    from the end: with [-len(base) <= start_sample < 0] the first overlay
    sample is added at index [len(base) + start_sample]. *)
Theorem overlay_samples_raises_iff (base overlay : list F) (start : Z) (amp : F) :
  let n := Z.of_nat (length base) in
  ((- n <= start)%Z \/ overlay = [] ->
     exists result, overlay_samples base overlay start amp = Some result /\
                    length result = length base) /\
  ((start < - n)%Z -> overlay <> [] ->
     overlay_samples base overlay start amp = None) /\
  (forall o, (- n <= start < 0)%Z ->
     overlay_samples base [o] start amp
     = Some (alter (fun v => v + o * amp) (Z.to_nat (n + start)) base)).
Proof.
  intros n. split; [|split].
  - intros [Hstart| ->]; [|by exists base].
    induction overlay as [|x overlay IH] using rev_ind; [by exists base|].
    destruct IH as (result & Hres & Hlen).
    rewrite overlay_samples_snoc, Hres. cbn [mbind option_bind]. cbv zeta.
    destruct (Z.ltb_spec (start + Z.of_nat (length overlay))
                (Z.of_nat (length result))) as [Hin|Hout].
    + match goal with
      | |- context [list_update ?f ?idx result] =>
          destruct (list_update_is_Some f idx result) as (res' & -> & Hlen');
            [lia|]
      end.
      exists res'. split; [done|congruence].
    + by exists result.
  - intros Hlow Hne. destruct overlay as [|o overlay]; [done|].
    unfold overlay_samples, enumerate. cbn [length seq zip zip_with fold_left].
    cbn [mbind option_bind]. rewrite Z.add_0_r.
    destruct (Z.ltb_spec start (Z.of_nat (length base))); [|lia].
    unfold list_update. rewrite py_index_below by (fold n; lia).
    cbn [mbind option_bind]. apply overlay_samples_raised.
  - intros o Hstart. unfold overlay_samples, enumerate.
    cbn [length seq zip zip_with fold_left mbind option_bind].
    rewrite Z.add_0_r.
    destruct (Z.ltb_spec start (Z.of_nat (length base))); [|lia].
    unfold list_update. rewrite py_index_negative by (fold n; lia). done.
Qed.

End OverlayErrors.

Lemma overlay_samples_raises_iff_witness :
  (exists result : list float,
     overlay_samples [0; 0; 0]%float [1; 1]%float (-3) 1%float = Some result /\
     length result = 3%nat) /\
  overlay_samples [0; 0; 0]%float [1; 1]%float (-4) 1%float = None /\
  overlay_samples [0; 0; 0]%float [1]%float (-1) 1%float
  = Some [0; 0; 1]%float.
Proof.
  split; [|split].
  - apply (proj1 (overlay_samples_raises_iff [0; 0; 0]%float [1; 1]%float
                    (-3) 1%float)).
    left. simpl. lia.
  - apply (proj1 (proj2 (overlay_samples_raises_iff [0; 0; 0]%float [1; 1]%float
                           (-4) 1%float))); [simpl; lia|done].
  - exact (proj2 (proj2 (overlay_samples_raises_iff [0; 0; 0]%float [1]%float
                           (-1) 1%float)) 1%float ltac:(simpl; lia)).
Defined.

(** X6.  In exact arithmetic two overlays at non-negative offsets commute:
    overlaying [o1] then [o2] gives the buffer that [o2] then [o1] gives,
    so the order in which a sequencer places its events does not matter. *)
Theorem overlay_samples_commute (base o1 o2 : list R) (s1 s2 : Z) (a1 a2 : R) :
  (0 <= s1)%Z -> (0 <= s2)%Z ->
  exists result,
    overlay_samples base o1 s1 a1 ≫= (fun r => overlay_samples r o2 s2 a2)
    = Some result /\
    overlay_samples base o2 s2 a2 ≫= (fun r => overlay_samples r o1 s1 a1)
    = Some result.
Proof.
  intros H1 H2.
  destruct (overlay_samples_lookup base o1 s1 a1 H1) as (r1 & E1 & Hl1 & Hr1).
  destruct (overlay_samples_lookup r1 o2 s2 a2 H2) as (r12 & E12 & Hl12 & Hr12).
  destruct (overlay_samples_lookup base o2 s2 a2 H2) as (r2 & E2 & Hl2 & Hr2).
  destruct (overlay_samples_lookup r2 o1 s1 a1 H1) as (r21 & E21 & Hl21 & Hr21).
  rewrite E1, E2. cbn [mbind option_bind]. rewrite E12, E21.
  exists r12. split; [done|]. f_equal.
  apply list_eq. intros i. rewrite Hr12, Hr21, Hr1, Hr2.
  destruct (base !! i) as [b|]; [|done]. simpl. f_equal.
  unfold overlaid_at.
  destruct (if decide _ then o1 !! _ else None),
           (if decide _ then o2 !! _ else None); simpl; lra.
Qed.

Lemma overlay_samples_commute_witness :
  exists result : list R,
    overlay_samples [0; 0; 0]%R [1]%R 1 1%R
      ≫= (fun r => overlay_samples r [2; 3]%R 0 1%R) = Some result /\
    overlay_samples [0; 0; 0]%R [2; 3]%R 0 1%R
      ≫= (fun r => overlay_samples r [1]%R 1 1%R) = Some result.
Proof.
  apply (overlay_samples_commute [0; 0; 0]%R [1]%R [2; 3]%R 1 0 1%R 1%R); lia.
Defined.

(** ** The one-pole filters *)

Section Filters.
Context {F : Type} `{PyFloat F}.
Local Open Scope py_scope.

Lemma lowpass_filter_from (samples : list F) (cutoff_hz : F) :
  lowpass_filter samples cutoff_hz
  = lowpass_from (lowpass_alpha cutoff_hz) (lit 0) samples.
Proof.
  unfold lowpass_filter, lowpass_alpha. cbv zeta.
  set (alpha := _ / _).
  assert (Hgen : forall acc prev,
            (fold_left
               (fun '(filtered, prev) s =>
                  (filtered ++ [prev + alpha * (s - prev)],
                   prev + alpha * (s - prev)))
               samples (acc, prev)).1
            = acc ++ lowpass_from alpha prev samples).
  { induction samples as [|s rest IH]; intros acc prev; simpl.
    - by rewrite app_nil_r.
    - by rewrite IH, <- app_assoc. }
  apply (Hgen [] (lit 0)).
Qed.

Lemma highpass_filter_from (samples : list F) (cutoff_hz : F) :
  highpass_filter samples cutoff_hz
  = highpass_from (highpass_alpha cutoff_hz) (lit 0) (lit 0) samples.
Proof.
  unfold highpass_filter, highpass_alpha. cbv zeta.
  set (alpha := _ / _).
  assert (Hgen : forall acc px py,
            (fold_left
               (fun '(filtered, prev_x, prev_y) s =>
                  (filtered ++ [alpha * (prev_y + s - prev_x)], s,
                   alpha * (prev_y + s - prev_x)))
               samples (acc, px, py)).1.1
            = acc ++ highpass_from alpha px py samples).
  { induction samples as [|s rest IH]; intros acc px py; simpl.
    - by rewrite app_nil_r.
    - by rewrite IH, <- app_assoc. }
  specialize (Hgen [] (lit 0) (lit 0)).
  by destruct (fold_left _ _ _) as [[filtered ?] ?].
Qed.

Lemma lowpass_from_prefix (alpha prev : F) (xs ys : list F) :
  lowpass_from alpha prev xs `prefix_of` lowpass_from alpha prev (xs ++ ys).
Proof.
  induction xs as [|x xs IH] in prev |- *; simpl.
  - apply prefix_nil.
  - apply prefix_cons, IH.
Qed.

Lemma highpass_from_prefix (alpha px py : F) (xs ys : list F) :
  highpass_from alpha px py xs `prefix_of` highpass_from alpha px py (xs ++ ys).
Proof.
  induction xs as [|x xs IH] in px, py |- *; simpl.
  - apply prefix_nil.
  - apply prefix_cons, IH.
Qed.

(** X7.  The three filters are causal, in every number model: the output
    for a buffer is a prefix of the output for any extension of it, so
    output sample [i] depends on the input samples [0..i] only. *)
Theorem filters_causal (xs ys : list F) (cutoff_hz low_hz high_hz : F) :
  lowpass_filter xs cutoff_hz `prefix_of` lowpass_filter (xs ++ ys) cutoff_hz /\
  highpass_filter xs cutoff_hz `prefix_of` highpass_filter (xs ++ ys) cutoff_hz /\
  bandpass_filter xs low_hz high_hz
    `prefix_of` bandpass_filter (xs ++ ys) low_hz high_hz.
Proof.
  split; [|split].
  - rewrite !lowpass_filter_from. apply lowpass_from_prefix.
  - rewrite !highpass_filter_from. apply highpass_from_prefix.
  - unfold bandpass_filter.
    destruct (lowpass_from_prefix (lowpass_alpha high_hz) (lit 0) xs ys)
      as [more Hmore].
    rewrite <- !lowpass_filter_from in Hmore. rewrite Hmore.
    rewrite !highpass_filter_from. apply highpass_from_prefix.
Qed.

End Filters.

(** The coefficients of both filters lie strictly between 0 and 1 for a
    positive cutoff, and add up to 1. *)
Lemma filter_alpha_range (cutoff_hz : R) :
  (0 < cutoff_hz)%R ->
  (0 < lowpass_alpha cutoff_hz < 1)%R /\
  (0 < highpass_alpha cutoff_hz < 1)%R /\
  (lowpass_alpha cutoff_hz + highpass_alpha cutoff_hz = 1)%R.
Proof.
  intros Hc. unfold lowpass_alpha, highpass_alpha. exact_literals.
  unfold SAMPLE_RATE. simpl.
  pose proof PI_RGT_0 as Hpi.
  set (rc := (1 * / 1 / (2 * / 1 * PI * cutoff_hz))%R).
  set (dt := (1 * / 1 / 44100)%R).
  assert (Hrc : (0 < rc)%R).
  { unfold rc. apply Rdiv_lt_0_compat; [lra|].
    apply Rmult_lt_0_compat; lra. }
  assert (Hdt : (0 < dt)%R) by (unfold dt; lra).
  assert (Hsum : (0 < rc + dt)%R) by lra.
  assert (Hl : (0 < dt / (rc + dt))%R) by (by apply Rdiv_lt_0_compat).
  assert (Hh : (0 < rc / (rc + dt))%R) by (by apply Rdiv_lt_0_compat).
  assert (Hone : (dt / (rc + dt) + rc / (rc + dt) = 1)%R) by (field; lra).
  lra.
Qed.

Lemma lit_zero_exact : (lit 0 : R) = 0%R.
Proof. change (lit 0 : R) with (Q2R 0). unfold Q2R. simpl. lra. Qed.

Lemma lit_one_exact : (lit 1 : R) = 1%R.
Proof. change (lit 1 : R) with (Q2R 1). unfold Q2R. simpl. lra. Qed.

Lemma lowpass_from_bounded (alpha prev B : R) (samples : list R) :
  (0 <= alpha <= 1)%R -> (Rabs prev <= B)%R ->
  Forall (fun s => (Rabs s <= B)%R) samples ->
  Forall (fun y => (Rabs y <= B)%R) (lowpass_from alpha prev samples).
Proof.
  intros Halpha Hprev Hall.
  induction Hall as [|s rest Hs Hrest IH] in prev, Hprev |- *; simpl.
  - constructor.
  - assert (Hy : (Rabs (prev + alpha * (s - prev)) <= B)%R).
    { apply Rabs_le. apply Rabs_le_between in Hprev, Hs.
      replace (prev + alpha * (s - prev))%R
        with ((1 - alpha) * prev + alpha * s)%R by ring.
      split; nra. }
    constructor; [exact Hy|]. by apply IH.
Qed.

(** X8.  In exact arithmetic [lowpass_filter] with a positive cutoff never
    overshoots: when every input sample lies within [-B, B], so does every
    output sample (each output is a convex combination of the previous
    output and the input). *)
Theorem lowpass_filter_bounded (samples : list R) (cutoff_hz B : R) :
  (0 < cutoff_hz)%R ->
  Forall (fun s => (Rabs s <= B)%R) samples ->
  Forall (fun y => (Rabs y <= B)%R) (lowpass_filter samples cutoff_hz).
Proof.
  intros Hc Hall. rewrite lowpass_filter_from.
  destruct samples as [|s rest]; [constructor|].
  destruct (filter_alpha_range cutoff_hz Hc) as (Hl & _ & _).
  apply lowpass_from_bounded; [lra| |done].
  apply Forall_cons in Hall as [Hs _].
  rewrite lit_zero_exact, Rabs_R0. pose proof (Rabs_pos s). lra.
Qed.

Lemma lowpass_filter_bounded_witness :
  Forall (fun y => (Rabs y <= 1)%R) (lowpass_filter [1; -1; 1]%R 200%R).
Proof.
  apply lowpass_filter_bounded; [lra|].
  repeat (apply Forall_cons_2; [apply Rabs_le; lra|]). apply Forall_nil_2.
Defined.

Lemma lowpass_from_constant (alpha prev c : R) (n i : nat) :
  (i < n)%nat ->
  lowpass_from alpha prev (replicate n c) !! i
  = Some (c - (c - prev) * (1 - alpha) ^ S i)%R.
Proof.
  induction n as [|n IH] in prev, i |- *; intros Hi; [lia|].
  destruct i as [|i]; simpl.
  - f_equal. ring.
  - rewrite IH by lia. f_equal. simpl. ring.
Qed.

Lemma highpass_from_constant (alpha px py c : R) (n i : nat) :
  (i < n)%nat ->
  highpass_from alpha px py (replicate n c) !! i
  = Some ((py + c - px) * alpha ^ S i)%R.
Proof.
  induction n as [|n IH] in px, py, i |- *; intros Hi; [lia|].
  destruct i as [|i]; simpl.
  - f_equal. ring.
  - rewrite IH by lia. f_equal. simpl. ring.
Qed.

(** X9.  The response of the filters to a constant input [c], in exact
    arithmetic and for a positive cutoff, with [alpha = rc / (rc + dt)]
    strictly between 0 and 1: [highpass_filter] returns [c alpha^(i+1)] at
    index [i], a geometric decay to 0 (it blocks the constant), and
    [lowpass_filter] returns [c (1 - alpha^(i+1))], which rises to [c]. *)
Theorem filters_step_response (cutoff_hz c : R) (n i : nat) :
  (0 < cutoff_hz)%R -> (i < n)%nat ->
  lowpass_filter (replicate n c) cutoff_hz !! i
  = Some (c * (1 - highpass_alpha cutoff_hz ^ S i))%R /\
  highpass_filter (replicate n c) cutoff_hz !! i
  = Some (c * highpass_alpha cutoff_hz ^ S i)%R /\
  (0 < highpass_alpha cutoff_hz < 1)%R.
Proof.
  intros Hc Hi.
  destruct (filter_alpha_range cutoff_hz Hc) as (Hl & Hh & Hsum).
  split; [|split; [|done]].
  - rewrite lowpass_filter_from, lowpass_from_constant, lit_zero_exact by done.
    f_equal. replace (1 - lowpass_alpha cutoff_hz)%R
      with (highpass_alpha cutoff_hz) by lra. ring.
  - rewrite highpass_filter_from, highpass_from_constant, lit_zero_exact by done.
    f_equal. ring.
Qed.

Lemma filters_step_response_witness :
  lowpass_filter (replicate 3 1%R) 200%R !! 2%nat
  = Some (1 * (1 - highpass_alpha 200%R ^ 3))%R /\
  highpass_filter (replicate 3 1%R) 200%R !! 2%nat
  = Some (1 * highpass_alpha 200%R ^ 3)%R /\
  (0 < highpass_alpha 200%R < 1)%R.
Proof.
  apply (filters_step_response 200%R 1%R 3 2); [lra|lia].
Defined.

Lemma lowpass_from_linear (alpha a b px py : R) (xs ys : list R) :
  lowpass_from alpha (a * px + b * py)%R
    (zip_with (fun x y => a * x + b * y)%R xs ys)
  = zip_with (fun x y => a * x + b * y)%R
      (lowpass_from alpha px xs) (lowpass_from alpha py ys).
Proof.
  induction xs as [|x xs IH] in px, py, ys |- *; [done|].
  destruct ys as [|y ys]; [done|]. simpl.
  replace (a * px + b * py + alpha * (a * x + b * y - (a * px + b * py)))%R
    with (a * (px + alpha * (x - px)) + b * (py + alpha * (y - py)))%R by ring.
  by rewrite IH.
Qed.

Lemma highpass_from_linear (alpha a b px py qx qy : R) (xs ys : list R) :
  highpass_from alpha (a * px + b * qx)%R (a * py + b * qy)%R
    (zip_with (fun x y => a * x + b * y)%R xs ys)
  = zip_with (fun x y => a * x + b * y)%R
      (highpass_from alpha px py xs) (highpass_from alpha qx qy ys).
Proof.
  induction xs as [|x xs IH] in px, py, qx, qy, ys |- *; [done|].
  destruct ys as [|y ys]; [done|]. simpl.
  replace (alpha * (a * py + b * qy + (a * x + b * y) - (a * px + b * qx)))%R
    with (a * (alpha * (py + x - px)) + b * (alpha * (qy + y - qx)))%R by ring.
  by rewrite IH.
Qed.

(** X10.  In exact arithmetic the three filters are linear: filtering the
    sample-wise combination [a x + b y] of two buffers gives the same
    combination of the two filtered buffers.  A gain applied before a
    filter can be applied after it, and silence stays silence. *)
Theorem filters_linear (a b cutoff_hz low_hz high_hz : R) (xs ys : list R) :
  let combine := zip_with (fun x y => a * x + b * y)%R in
  lowpass_filter (combine xs ys) cutoff_hz
  = combine (lowpass_filter xs cutoff_hz) (lowpass_filter ys cutoff_hz) /\
  highpass_filter (combine xs ys) cutoff_hz
  = combine (highpass_filter xs cutoff_hz) (highpass_filter ys cutoff_hz) /\
  bandpass_filter (combine xs ys) low_hz high_hz
  = combine (bandpass_filter xs low_hz high_hz)
            (bandpass_filter ys low_hz high_hz).
Proof.
  intros combine.
  assert (Hzero : (lit 0 : R) = (a * lit 0 + b * lit 0)%R).
  { rewrite lit_zero_exact. lra. }
  assert (Hlow : forall c us vs,
            lowpass_filter (combine us vs) c
            = combine (lowpass_filter us c) (lowpass_filter vs c)).
  { intros c us vs. rewrite !lowpass_filter_from.
    rewrite Hzero at 1. apply lowpass_from_linear. }
  assert (Hhigh : forall c us vs,
            highpass_filter (combine us vs) c
            = combine (highpass_filter us c) (highpass_filter vs c)).
  { intros c us vs. rewrite !highpass_filter_from.
    rewrite Hzero at 1 2. apply highpass_from_linear. }
  split; [apply Hlow|]. split; [apply Hhigh|].
  unfold bandpass_filter. by rewrite Hlow, Hhigh.
Qed.

(** ** [sine_wave] and [sine_wave_varying] *)

Lemma sine_wave_lookup (freq phase amp : R) (n_samples : Z) (i : nat) :
  (i < Z.to_nat n_samples)%nat ->
  sine_wave freq n_samples phase amp !! i
  = Some (amp * Rtrigo_def.sin (2 * PI * freq * INR i / 44100 + phase))%R.
Proof.
  intros Hi. unfold sine_wave, range_len.
  rewrite list_lookup_fmap, lookup_seq_lt by done. simpl.
  by rewrite <- INR_IZR_INZ.
Qed.

(** X11.  [sine_wave] in exact arithmetic: [n_samples] samples (none for a
    negative count), sample [i] being [amp sin(2 pi freq i / 44100 +
    phase)]; no sample exceeds [|amp|]; and when [k] samples hold a whole
    number [m] of cycles ([freq k = 44100 m]) the wave repeats every [k]
    samples. *)
Theorem sine_wave_spec (freq phase amp : R) (n_samples : Z) :
  let wave := sine_wave freq n_samples phase amp in
  length wave = Z.to_nat n_samples /\
  (forall i, (i < Z.to_nat n_samples)%nat ->
     wave !! i
     = Some (amp * Rtrigo_def.sin (2 * PI * freq * INR i / 44100 + phase))%R) /\
  Forall (fun y => (Rabs y <= Rabs amp)%R) wave /\
  (forall k m i : nat,
     (freq * INR k = 44100 * INR m)%R -> (i + k < Z.to_nat n_samples)%nat ->
     wave !! (i + k)%nat = wave !! i).
Proof.
  intros wave. subst wave. split; [|split; [|split]].
  - unfold sine_wave, range_len. by rewrite length_fmap, length_seq.
  - intros i Hi. by apply sine_wave_lookup.
  - apply Forall_forall. intros y Hy.
    apply list_elem_of_fmap in Hy as (i & -> & _).
    change (Rabs (amp * Rtrigo_def.sin
              (of_int 2 * pi * freq * of_int (Z.of_nat i) / of_int SAMPLE_RATE
               + phase)%py) <= Rabs amp)%R.
    rewrite Rabs_mult. rewrite <- (Rmult_1_r (Rabs amp)) at 2.
    apply Rmult_le_compat_l; [apply Rabs_pos|].
    apply Rabs_le. apply SIN_bound.
  - intros k m i Hper Hi.
    rewrite !sine_wave_lookup by lia. do 2 f_equal.
    rewrite plus_INR.
    replace (2 * PI * freq * (INR i + INR k) / 44100 + phase)%R
      with (2 * PI * freq * INR i / 44100 + phase + 2 * INR m * PI)%R.
    + apply sin_period.
    + replace (2 * PI * freq * (INR i + INR k) / 44100)%R
        with (2 * PI * freq * INR i / 44100
              + 2 * PI * (freq * INR k) / 44100)%R by (field; lra).
      rewrite Hper. field.
Qed.

Lemma sine_wave_spec_witness :
  sine_wave 441%R 300 0%R 1%R !! (7 + 100)%nat
  = sine_wave 441%R 300 0%R 1%R !! 7%nat.
Proof.
  apply (proj2 (proj2 (proj2 (sine_wave_spec 441%R 0%R 1%R 300))) 100%nat 1%nat).
  - simpl. lra.
  - simpl. lia.
Defined.

Lemma constant_sweep_loop (freq amp : R) (n : nat) :
  for_range n (sine_wave_varying_step no_wrap (fun _ => freq) amp) ([], lit 0)
  = ((fun i : nat =>
        (amp * Rtrigo_def.sin (INR i * (2 * PI * freq / 44100)))%R) <$> seq 0 n,
     (INR n * (2 * PI * freq / 44100))%R).
Proof.
  induction n as [|n IH].
  - rewrite for_range_0, lit_zero_exact. simpl. f_equal. lra.
  - rewrite for_range_S, IH. unfold sine_wave_varying_step, no_wrap.
    rewrite seq_S, fmap_app, S_INR. simpl. f_equal.
    unfold SAMPLE_RATE. lra.
Qed.

(** X12.  The two oscillators agree, in exact arithmetic: at a constant
    frequency, [sine_wave_varying], which accumulates and reduces a phase,
    returns the buffer of [sine_wave], which evaluates a closed form, with
    phase 0.0. *)
Theorem sine_wave_varying_constant (freq amp : R) (n_samples : Z) :
  sine_wave_varying (fun _ => freq) n_samples amp
  = sine_wave freq n_samples (lit 0) amp.
Proof.
  unfold sine_wave_varying, sine_wave_varying_loop.
  rewrite (respects_wrap_loop _
             (fun reduce => sine_wave_varying_step reduce (fun _ => freq) amp)
             _ _ (sine_wave_varying_respects (fun _ => freq) amp)).
  rewrite constant_sweep_loop. unfold sine_wave. cbn [fst].
  apply list_fmap_ext. intros _ i _. rewrite lit_zero_exact. simpl.
  rewrite <- INR_IZR_INZ. unfold SAMPLE_RATE.
  do 2 f_equal. lra.
Qed.

(** ** [white_noise]: the range of the samples *)

(** X13.  With a generator whose [random()] draws from [0, 1), as Python's
    does, every sample of [white_noise], [-1.0 + 2.0 * random()] in exact
    arithmetic, lies in [-1, 1): the value 1.0 is never produced. *)
Theorem white_noise_range (G : PyRandom R) (amb : Ambient R)
    (n_samples seed : Z) :
  (forall st : rng_state, (0 <= (rng_random st).1 < 1)%R) ->
  Forall (fun x => (-1 <= x < 1)%R) (white_noise amb n_samples seed).
Proof.
  intros Hdraw. apply Forall_lookup. intros i x Hx.
  rewrite white_noise_lookup in Hx. destruct (decide _); [|done].
  injection Hx as <-. unfold noise_sample.
  specialize (Hdraw (rng_after seed i)).
  destruct (rng_random (rng_after seed i)) as [u rng]. simpl in *.
  unfold Q2R. simpl. lra.
Qed.

Lemma white_noise_range_witness :
  Forall (fun x => (-1 <= x < 1)%R)
    (@white_noise R Exact.ops constant_generator constant_ambient 3 42).
Proof.
  apply (white_noise_range constant_generator). intros st. simpl. lra.
Defined.

(** ** [normalize] *)

Lemma py_max_is_peak (samples : list R) (m : R) :
  py_max (fabs <$> samples) = Some m -> is_peak samples m.
Proof.
  intros Hmax. apply py_max_exact in Hmax as [Hin Hle]. split.
  - apply list_elem_of_fmap in Hin as (s & -> & Hs). by exists s.
  - intros s Hs. apply Hle. apply list_elem_of_fmap. by exists s.
Qed.

Lemma scaled_peak (samples : list R) (m peak : R) :
  is_peak samples m -> (0 < m)%R ->
  is_peak ((fun s => s * (peak / m))%R <$> samples) (Rabs peak).
Proof.
  intros [(s & Hs & Hm) Hall] Hpos.
  assert (Hscale : forall x, Rabs (x * (peak / m)) = (Rabs x * (Rabs peak / m))%R).
  { intros x. unfold Rdiv.
    rewrite !Rabs_mult, Rabs_inv, (Rabs_right m) by lra. done. }
  split.
  - exists (s * (peak / m))%R. split.
    + apply list_elem_of_fmap. by exists s.
    + rewrite Hscale, Hm. field. lra.
  - intros y Hy. apply list_elem_of_fmap in Hy as (x & -> & Hx).
    rewrite Hscale. specialize (Hall x Hx).
    pose proof (Rabs_pos peak) as Hp.
    assert (Hq : (0 <= Rabs peak / m)%R).
    { apply Rmult_le_pos; [done|]. left. by apply Rinv_0_lt_compat. }
    replace (Rabs peak) with (m * (Rabs peak / m))%R at 2 by (field; lra).
    by apply Rmult_le_compat_r.
Qed.

(** The two branches of [normalize] on exact reals. *)
Lemma normalize_cases (samples out : list R) (peak : R) :
  normalize samples peak = Some out ->
  exists m, is_peak samples m /\
    (((m < 1 / 1000000000)%R /\ out = samples) \/
     ((1 / 1000000000 <= m)%R /\
      out = (fun s => s * (peak / m))%R <$> samples)).
Proof.
  unfold normalize. intros Hnorm.
  apply bind_Some in Hnorm as (m & Hmax & Hnorm).
  exists m. split; [by apply py_max_is_peak|].
  rewrite lit_guard in Hnorm.
  change (@fltb R Exact.ops) with Exact.ltb in Hnorm.
  destruct (Exact.ltb m _) eqn:Hcmp; injection Hnorm as <-.
  - left. by apply ltb_true in Hcmp.
  - right. by apply ltb_false in Hcmp.
Qed.

Lemma normalize_raises (samples : list R) (peak : R) :
  normalize samples peak = None -> samples = [].
Proof.
  destruct samples as [|s rest]; [done|]. unfold normalize. intros Hn.
  apply bind_None in Hn as [Hmax|(m & _ & Hn)]; [done|].
  by destruct (fltb m _) in Hn.
Qed.

Lemma normalize_within (samples out : list R) (peak : R) :
  normalize samples peak = Some out ->
  Forall (fun y => (Rabs y <= Rmax (Rabs peak) (1 / 1000000000))%R) out.
Proof.
  intros Hnorm.
  destruct (normalize_cases _ _ _ Hnorm)
    as (m & Hpeak & [[Hsmall ->]|[Hbig ->]]); apply Forall_forall; intros y Hy.
  - apply Rle_trans with m; [by apply Hpeak|].
    apply Rle_trans with (1 / 1000000000)%R; [lra|apply Rmax_r].
  - apply Rle_trans with (Rabs peak); [|apply Rmax_l].
    by apply (scaled_peak samples m peak Hpeak ltac:(lra)).
Qed.

Lemma normalize_keeps_zero (samples out : list R) (peak : R) (i : nat) :
  normalize samples peak = Some out ->
  samples !! i = Some 0%R -> out !! i = Some 0%R.
Proof.
  intros Hnorm Hi.
  destruct (normalize_cases _ _ _ Hnorm) as (m & _ & [[_ ->]|[_ ->]]); [done|].
  rewrite list_lookup_fmap, Hi. simpl. f_equal. lra.
Qed.

Lemma normalize_nonempty (samples out : list R) (peak : R) :
  normalize samples peak = Some out -> (1 <= length samples)%nat.
Proof. destruct samples; [done|]. simpl. lia. Qed.

(** X14.  [normalize] in exact arithmetic, on any buffer and for any peak:
    it raises exactly on the empty buffer ([max] of an empty sequence);
    otherwise the result has the length of the input, none of its samples
    exceeds the larger of [|peak|] and the guard [1e-9] in absolute value,
    and a sample that is exactly zero stays exactly zero. *)
Theorem normalize_bounded (samples : list R) (peak : R) :
  (normalize samples peak = None <-> samples = []) /\
  (forall out, normalize samples peak = Some out ->
     length out = length samples /\
     Forall (fun y => (Rabs y <= Rmax (Rabs peak) (1 / 1000000000))%R) out /\
     (forall i, samples !! i = Some 0%R -> out !! i = Some 0%R)).
Proof.
  split.
  - split; [apply normalize_raises|by intros ->].
  - intros out Hnorm. split; [|split].
    + destruct (normalize_cases _ _ _ Hnorm) as (m & _ & [[_ ->]|[_ ->]]);
        [done|by rewrite length_fmap].
    + exact (normalize_within _ _ _ Hnorm).
    + intros i. exact (normalize_keeps_zero _ _ _ i Hnorm).
Qed.

Lemma normalize_bounded_witness :
  exists out : list R,
    normalize [1 / 2; - (1 / 4)]%R (17 / 20)%R = Some out /\
    length out = 2%nat.
Proof.
  destruct (normalize [1 / 2; - (1 / 4)]%R (17 / 20)%R) as [out|] eqn:Hout.
  - exists out. split; [reflexivity|].
    exact (proj1 (proj2 (normalize_bounded _ _) out Hout)).
  - exfalso. apply (proj1 (proj1 (normalize_bounded _ _))) in Hout.
    discriminate.
Defined.

(** X15.  In exact arithmetic and for a non-negative peak, [normalize] is
    idempotent: normalising a normalised buffer to the same peak returns
    it unchanged. *)
Theorem normalize_idempotent (samples out : list R) (peak : R) :
  (0 <= peak)%R ->
  normalize samples peak = Some out -> normalize out peak = Some out.
Proof.
  intros Hpeak Hnorm.
  destruct (normalize_cases _ _ _ Hnorm)
    as (m & Hm & [[Hsmall ->]|[Hbig ->]]); [done|].
  pose proof (scaled_peak samples m peak Hm ltac:(lra)) as Hout.
  rewrite Rabs_right in Hout by lra.
  unfold normalize. rewrite (py_max_peak _ _ Hout), lit_guard.
  cbn [mbind option_bind].
  change (@fltb R Exact.ops) with Exact.ltb.
  destruct (Exact.ltb peak _) eqn:Hcmp; [done|].
  apply ltb_false in Hcmp. f_equal.
  rewrite <- (list_fmap_id (_ <$> samples)) at 2.
  apply list_fmap_ext. intros _ y _. simpl.
  change (y * (peak / peak) = y)%R. field. lra.
Qed.

Lemma normalize_idempotent_witness :
  exists out : list R,
    normalize [1 / 2; - (1 / 4)]%R (17 / 20)%R = Some out /\
    normalize out (17 / 20)%R = Some out.
Proof.
  destruct (normalize [1 / 2; - (1 / 4)]%R (17 / 20)%R) as [out|] eqn:Hout.
  - exists out. split; [reflexivity|].
    apply (normalize_idempotent [1 / 2; - (1 / 4)]%R out (17 / 20)%R);
      [lra|exact Hout].
  - exfalso. by apply normalize_raises in Hout.
Defined.

(** X16.  [normalize] forgets the gain of its input, in exact arithmetic:
    a buffer and the same buffer scaled by [k > 0] normalise to the same
    result, as long as both peaks pass the [1e-9] guard. *)
Theorem normalize_gain_invariant (samples : list R) (k peak m : R) :
  is_peak samples m -> (0 < k)%R ->
  (1 / 1000000000 <= m)%R -> (1 / 1000000000 <= k * m)%R ->
  normalize ((fun s => k * s)%R <$> samples) peak = normalize samples peak.
Proof.
  intros Hpeak Hk Hm Hkm.
  assert (Hscaled : is_peak ((fun s => k * s)%R <$> samples) (k * m)).
  { destruct Hpeak as [(s & Hs & Habs) Hall]. split.
    - exists (k * s)%R. split; [apply list_elem_of_fmap; by exists s|].
      rewrite Rabs_mult, Rabs_right, Habs by lra. done.
    - intros y Hy. apply list_elem_of_fmap in Hy as (x & -> & Hx).
      rewrite Rabs_mult, Rabs_right by lra.
      apply Rmult_le_compat_l; [lra|]. by apply Hall. }
  unfold normalize.
  rewrite (py_max_peak _ _ Hpeak), (py_max_peak _ _ Hscaled), lit_guard.
  cbn [mbind option_bind]. change (@fltb R Exact.ops) with Exact.ltb.
  rewrite (proj2 (ltb_false _ _) Hm), (proj2 (ltb_false _ _) Hkm).
  f_equal. rewrite <- list_fmap_compose. apply list_fmap_ext.
  intros _ s _. simpl. field. lra.
Qed.

Lemma normalize_gain_invariant_witness :
  normalize ((fun s => 3 * s)%R <$> [1 / 2; - (1 / 4)]%R) (17 / 20)%R
  = normalize [1 / 2; - (1 / 4)]%R (17 / 20)%R.
Proof.
  apply (normalize_gain_invariant _ 3%R _ (1 / 2)%R is_peak_example); lra.
Defined.

(** *** A NaN sample in binary64 *)

Lemma ltb_nan_l (y : float) : (nan <? y)%float = false.
Proof.
  rewrite ltb_spec. change (Prim2SF nan) with S754_nan.
  by destruct (Prim2SF y).
Qed.

Lemma div_nan_r (x : float) : (x / nan)%float = nan.
Proof.
  rewrite <- (SF2Prim_Prim2SF (x / nan)), div_spec.
  change (Prim2SF nan) with S754_nan.
  by destruct (Prim2SF x).
Qed.

Lemma mul_nan_r (x : float) : (x * nan)%float = nan.
Proof.
  rewrite <- (SF2Prim_Prim2SF (x * nan)), mul_spec.
  change (Prim2SF nan) with S754_nan.
  by destruct (Prim2SF x).
Qed.

Lemma fold_max_nan (rest : list float) :
  fold_left (fun m y => if (y >? m)%py then y else m) rest nan = nan.
Proof.
  induction rest as [|y rest IH]; [done|]. cbn [fold_left].
  change (@fltb float Binary64.ops) with PrimFloat.ltb.
  by rewrite ltb_nan_l.
Qed.

(** X17.  In binary64, a NaN in first position takes the whole buffer with
    it: no later sample compares greater than it, so [max] returns NaN,
    NaN is not below the guard, the scale [peak / NaN] is NaN, and
    [normalize] returns a buffer of NaN, whatever the other samples and the
    peak; [encode_mp3] then writes every sample of it as 32767. *)
Theorem normalize_nan_first (rest : list float) (peak : float) :
  normalize (nan :: rest) peak = Some (replicate (S (length rest)) nan) /\
  int16_samples (replicate (S (length rest)) nan)
  = Some (replicate (S (length rest)) 32767%Z).
Proof.
  split.
  - unfold normalize. rewrite fmap_cons. unfold py_max.
    change (fabs nan) with nan. rewrite fold_max_nan.
    cbn [mbind option_bind].
    assert ((nan <? lit 1e-9)%py = false) as -> by (vm_compute; reflexivity).
    f_equal. change (@fdiv float Binary64.ops) with PrimFloat.div.
    change (@fmul float Binary64.ops) with PrimFloat.mul.
    rewrite div_nan_r.
    change (S (length rest)) with (length (nan :: rest)).
    generalize (nan :: rest).
    intros l. induction l as [|s l IH]; [done|].
    cbn [fmap list_fmap length replicate]. rewrite mul_nan_r. f_equal.
    exact IH.
  - unfold int16_samples. generalize (S (length rest)). intros n.
    induction n as [|n IH]; [done|].
    cbn [replicate mapM]. rewrite IH.
    assert (int16_sample nan = Some 32767%Z) as -> by (vm_compute; reflexivity).
    reflexivity.
Qed.

(** ** [mix]: the mixed samples *)

Section MixValues.
Context {F : Type} `{PyFloat F}.
Local Open Scope py_scope.

Lemma mix_add_lookup (sl : list F) (w : F) (result : list F) :
  (length sl <= length result)%nat ->
  exists result',
    mix_add sl w result = Some result' /\
    length result' = length result /\
    forall i, result' !! i =
      (fun v => match sl !! i with Some s => v + s * w | None => v end)
      <$> result !! i.
Proof.
  intros Hle. unfold mix_add.
  destruct (update_range
              (fun i v => match sl !! i with Some s => v + s * w | None => v end)
              0 (length sl) result) as (r & Hr & Hlen & Hlook); [simpl; lia|].
  exists r. split.
  - rewrite <- Hr. apply for_range_err_ext. intros i st Hi.
    destruct (lookup_lt_is_Some_2 sl i Hi) as [s Hs]. by rewrite Hs.
  - split; [done|]. intros i. rewrite Hlook.
    destruct (decide _) as [Hin|Hout].
    + by rewrite Nat.sub_0_r.
    + rewrite (lookup_ge_None_2 sl i) by lia. by destruct (result !! i).
Qed.

Lemma mix_fold_lookup (pairs : list (list F * F)) (result : list F) :
  Forall (fun p => length p.1 <= length result)%nat pairs ->
  exists result',
    fold_left (fun acc '(sl, w) => result ← acc; mix_add sl w result)
              pairs (Some result) = Some result' /\
    length result' = length result /\
    forall i, result' !! i =
      (fun v =>
         fold_left
           (fun acc '(sl, w) =>
              match sl !! i with Some s => acc + s * w | None => acc end)
           pairs v)
      <$> result !! i.
Proof.
  induction pairs as [|[sl w] pairs IH] in result |- *; intros Hall.
  - exists result. split; [done|]. split; [done|]. intros i.
    by destruct (result !! i).
  - apply Forall_cons in Hall as [Hsl Hall]. simpl in Hsl.
    destruct (mix_add_lookup sl w result Hsl) as (r & Hr & Hlen & Hlook).
    cbn [fold_left mbind option_bind]. rewrite Hr.
    destruct (IH r) as (r' & Hr' & Hlen' & Hlook'); [by rewrite Hlen|].
    exists r'. split; [exact Hr'|]. split; [congruence|].
    intros i. rewrite Hlook', Hlook. by destruct (result !! i).
Qed.

(** X18.  What [mix] computes, in every number model: for one or more
    buffers, index [i] of the result holds 0.0 plus, for each buffer in
    argument order that is longer than [i] and has a weight, its sample
    times its weight.  A buffer shorter than the longest contributes
    nothing past its end, and a buffer beyond the end of a shorter
    [weights] list contributes nothing at all ([zip] stops). *)
Theorem mix_lookup (sample_lists : list (list F)) (weights : option (list F)) :
  sample_lists <> [] ->
  exists result,
    mix sample_lists weights = Some result /\
    forall i, (i < max_list (length <$> sample_lists))%nat ->
      result !! i
      = Some (mix_at (zip sample_lists (mix_weights sample_lists weights)) i).
Proof.
  intros Hne. unfold mix, mix_at.
  destruct sample_lists as [|sl0 rest] eqn:E; [done|]. rewrite <- E.
  cbn [mbind option_bind]. fold (mix_weights sample_lists weights).
  destruct (mix_fold_lookup (zip sample_lists (mix_weights sample_lists weights))
              (replicate (max_list (length <$> sample_lists)) (lit 0)))
    as (r & Hr & Hlen & Hlook).
  - apply Forall_forall. intros [sl w] Hin. simpl.
    rewrite length_replicate. apply max_list_elem_of_le.
    apply list_elem_of_fmap. exists sl. split; [done|].
    apply (elem_of_zip_l _ _ _ _ Hin).
  - exists r. split; [exact Hr|]. intros i Hi.
    by rewrite Hlook, lookup_replicate_2.
Qed.

End MixValues.

Lemma mix_lookup_witness :
  exists result : list float,
    mix [[1; 2]%float; [3]%float] None = Some result /\
    result !! 1%nat = Some 1%float.
Proof.
  destruct (mix_lookup [[1; 2]%float; [3]%float] None ltac:(discriminate))
    as (result & Hres & Hlook).
  exists result. split; [exact Hres|].
  exact (Hlook 1%nat ltac:(simpl; lia)).
Defined.

(** ** The levels of the recipes *)

Lemma normalize_within_peak (samples : list R) (q : Q) (peak : R) :
  Q2R q = peak -> (1 / 1000000000 <= peak)%R ->
  within_peak (normalize samples (lit q)) peak.
Proof.
  intros Hq Hpeak out Hnorm. apply normalize_within in Hnorm.
  change (@lit R Exact.ops q) with (Q2R q) in Hnorm. rewrite Hq in Hnorm.
  rewrite Rabs_right, Rmax_left in Hnorm by lra. exact Hnorm.
Qed.

(** Strips a recipe that returned down to its last call. *)
Ltac last_call H :=
  repeat match type of H with
  | mbind _ _ = Some _ => apply bind_Some in H as (? & _ & H)
  end.

Ltac peak_of_normalize :=
  match goal with
  | H : normalize _ (lit ?q) = Some ?out
    |- Forall (fun y => (Rabs y <= ?peak)%R) ?out =>
      refine (normalize_within_peak _ q peak _ _ out H);
      [ let n := eval vm_compute in (Qnum q) in
        let d := eval vm_compute in (Z.pos (Qden q)) in
        change (Q2R q) with (IZR n * / IZR d)%R; lra
      | lra ]
  end.

(** A run of two samples, in exact arithmetic. *)
Lemma two_samples_exact : n_samples_of (F := R) (2 / 44100)%R = Some 2%Z.
Proof.
  unfold n_samples_of, SAMPLE_RATE. simpl. f_equal.
  replace (2 / 44100 * 44100)%R with (IZR 2) by lra. apply trunc_IZR.
Qed.

Lemma gen_coin_collect_two :
  exists out, gen_coin_collect (F := R) (2 / 44100)%R = Some out.
Proof.
  unfold gen_coin_collect. rewrite two_samples_exact.
  cbn [mbind option_bind].
  pose proof (coin_loop_length (F := R) (range_len 2)) as Hlen.
  destruct (coin_loop (range_len 2)) as [[[samples p1] p2] p3].
  simpl in Hlen.
  destruct (normalize_length samples (lit 0.85)) as (out & Hout & _).
  - intros ->. simpl in Hlen. unfold range_len in Hlen. lia.
  - by exists out.
Qed.

(** X19.  No recipe of the manifest clips, in exact arithmetic: whatever
    the duration and the generator, when a recipe returns, every sample of
    its buffer is within its normalisation peak in absolute value (0.85,
    0.6 for the wind, 0.80 for the tracks and the click, 0.82 for the
    altitude sweep), hence within the [-1.0, 1.0] of the encoder. *)
Theorem recipes_within_peak (G : PyRandom R) (amb : Ambient R) (duration : R) :
  within_peak (gen_biplane_engine amb duration) (85 / 100) /\
  within_peak (gen_prop_engine amb duration) (85 / 100) /\
  within_peak (gen_bomber_engine amb duration) (85 / 100) /\
  within_peak (gen_jet_engine amb duration) (85 / 100) /\
  within_peak (gen_rocket_engine amb duration) (85 / 100) /\
  within_peak (gen_wind amb duration) (6 / 10) /\
  within_peak (gen_lofi_track_01 amb duration) (8 / 10) /\
  within_peak (gen_lofi_track_02 amb duration) (8 / 10) /\
  within_peak (gen_lofi_track_03 amb duration) (8 / 10) /\
  within_peak (gen_clue_pop duration) (85 / 100) /\
  within_peak (gen_landing_success duration) (85 / 100) /\
  within_peak (gen_coin_collect duration) (85 / 100) /\
  within_peak (gen_ui_click amb duration) (8 / 10) /\
  within_peak (gen_altitude_change amb duration) (82 / 100) /\
  within_peak (gen_boost_start amb duration) (85 / 100).
Proof.
  repeat split; intros out Hout.
  - unfold gen_biplane_engine, fade_and_normalize in Hout.
    last_call Hout. peak_of_normalize.
  - unfold gen_prop_engine, fade_and_normalize in Hout.
    last_call Hout. peak_of_normalize.
  - unfold gen_bomber_engine, fade_and_normalize in Hout.
    last_call Hout. peak_of_normalize.
  - unfold gen_jet_engine, fade_and_normalize in Hout.
    last_call Hout. peak_of_normalize.
  - unfold gen_rocket_engine, fade_and_normalize in Hout.
    last_call Hout. peak_of_normalize.
  - unfold gen_wind, fade_and_normalize in Hout.
    last_call Hout. peak_of_normalize.
  - unfold gen_lofi_track_01, finish_track, fade_and_normalize in Hout.
    last_call Hout. peak_of_normalize.
  - unfold gen_lofi_track_02, finish_track, fade_and_normalize in Hout.
    last_call Hout. peak_of_normalize.
  - unfold gen_lofi_track_03, finish_track, fade_and_normalize in Hout.
    last_call Hout. peak_of_normalize.
  - unfold gen_clue_pop in Hout. last_call Hout. peak_of_normalize.
  - unfold gen_landing_success in Hout. last_call Hout. peak_of_normalize.
  - unfold gen_coin_collect in Hout. last_call Hout.
    destruct (coin_loop _) as [[[samples ?] ?] ?]. peak_of_normalize.
  - unfold gen_ui_click in Hout. last_call Hout. peak_of_normalize.
  - unfold gen_altitude_change in Hout. last_call Hout. peak_of_normalize.
  - unfold gen_boost_start in Hout. last_call Hout. peak_of_normalize.
Qed.

Lemma recipes_within_peak_witness :
  exists out : list R,
    gen_coin_collect (2 / 44100)%R = Some out /\
    Forall (fun y => (Rabs y <= 85 / 100)%R) out.
Proof.
  destruct gen_coin_collect_two as (out & Hout).
  exists out. split; [exact Hout|].
  destruct (recipes_within_peak constant_generator constant_ambient
              (2 / 44100)%R)
    as (_ & _ & _ & _ & _ & _ & _ & _ & _ & _ & _ & Hcoin & _).
  exact (Hcoin out Hout).
Defined.

(** X20.  [normalize] followed by the quantiser of [encode_mp3], in exact
    arithmetic and for a peak between the guard and 1.0: the clamp changes
    no sample, every value is [int(y * 32767)] of its sample [y], and all
    values lie within [int(peak * 32767)] of zero (27851 for the 0.85 of
    most recipes). *)
Theorem normalized_encoding (samples out : list R) (peak : R) (top : Z) :
  normalize samples peak = Some out ->
  (1 / 1000000000 <= peak <= 1)%R ->
  Exact.trunc (peak * 32767) = top ->
  exists vs,
    int16_samples out = Some vs /\
    (forall i y, out !! i = Some y ->
       vs !! i = Some (Exact.trunc (y * 32767))) /\
    Forall (fun v => (- top <= v <= top)%Z) vs.
Proof.
  intros Hnorm Hpeak Htop.
  pose proof (normalize_within _ _ _ Hnorm) as Hall.
  rewrite Rabs_right, Rmax_left in Hall by lra. clear Hnorm.
  unfold int16_samples. induction Hall as [|y out Hy Hout IH].
  - exists []. split; [done|]. split; [|constructor]. intros i y Hi.
    by rewrite lookup_nil in Hi.
  - destruct IH as (vs & Hvs & Hlook & Hrange).
    cbn [mapM]. rewrite int16_sample_exact, Hvs. cbn [mbind option_bind].
    rewrite clamp_unit_inside by lra.
    eexists. split; [done|]. split.
    + intros [|i] z Hi; simpl in *; [by injection Hi as <-|by apply Hlook].
    + apply Forall_cons_2; [|done].
      apply Rabs_le_between in Hy. subst top. split.
      * rewrite <- trunc_opp. apply trunc_monotone. lra.
      * apply trunc_monotone. lra.
Qed.

Lemma normalized_encoding_witness :
  exists (out : list R) (vs : list Z),
    normalize [1 / 2; - (1 / 4)]%R (1 / 2)%R = Some out /\
    int16_samples out = Some vs /\
    Forall (fun v => (- 16383 <= v <= 16383)%Z) vs.
Proof.
  destruct (normalize [1 / 2; - (1 / 4)]%R (1 / 2)%R) as [out|] eqn:Hout.
  - destruct (normalized_encoding [1 / 2; - (1 / 4)]%R out (1 / 2)%R 16383 Hout)
      as (vs & Hvs & _ & Hrange); [lra| |].
    + apply trunc_nonneg; [|lia]. lra.
    + exists out, vs. split; [reflexivity|]. split; [exact Hvs|exact Hrange].
  - exfalso. by apply normalize_raises in Hout.
Defined.

(** ** Amplitudes of the instruments *)

Ltac exact_ops :=
  change (@fmul R Exact.ops) with Rmult in *;
  change (@fadd R Exact.ops) with Rplus in *;
  change (@fsub R Exact.ops) with Rminus in *;
  change (@fdiv R Exact.ops) with Rdiv in *;
  change (@fneg R Exact.ops) with Ropp in *;
  change (@of_int R Exact.ops) with IZR in *;
  change (@pi R Exact.ops) with PI in *;
  change (@sin R Exact.math) with Rtrigo_def.sin in *;
  change (@exp R Exact.math) with Rtrigo_def.exp in *.

Lemma exp_nonpos (x : R) : (x <= 0)%R -> (0 < Rtrigo_def.exp x <= 1)%R.
Proof.
  intros Hx. split; [apply exp_pos|].
  destruct (Req_dec x 0) as [->|Hne]; [rewrite exp_0; lra|].
  left. rewrite <- exp_0. apply exp_increasing. lra.
Qed.

Lemma time_of_exact (i : nat) : time_of i = (INR i / 44100)%R.
Proof. unfold time_of, SAMPLE_RATE. simpl. by rewrite <- INR_IZR_INZ. Qed.

Lemma time_of_nonneg (i : nat) : (0 <= time_of i)%R.
Proof.
  rewrite time_of_exact. pose proof (pos_INR i).
  apply Rmult_le_pos; lra.
Qed.

(** An attack-decay envelope [exp(-t a) (1 - exp(-t b))] lies in [0, 1]. *)
Lemma envelope_range (t a b : R) :
  (0 <= t)%R -> (0 <= a)%R -> (0 <= b)%R ->
  (0 <= Rtrigo_def.exp (- t * a) * (1 - Rtrigo_def.exp (- t * b)) <= 1)%R.
Proof.
  intros Ht Ha Hb.
  destruct (exp_nonpos (- t * a)) as [Ha0 Ha1]; [nra|].
  destruct (exp_nonpos (- t * b)) as [Hb0 Hb1]; [nra|].
  split; nra.
Qed.

Lemma piano_loop_bounded (reduce : R -> R) (freq amp : R) (n : nat) :
  Forall (fun y => (Rabs y <= Rabs amp)%R)
    (for_range n (piano_step reduce freq amp) ([], lit 0)).1.
Proof.
  apply (for_range_ind
           (fun _ st => Forall (fun y => (Rabs y <= Rabs amp)%R) st.1)).
  - constructor.
  - intros i [ss p] _ Hss. simpl in Hss. unfold piano_step. cbn [fst].
    apply Forall_app. split; [done|]. apply Forall_singleton.
    pose proof (time_of_nonneg i) as Ht. set (t := time_of i) in *.
    exact_literals.
    change (@fmul R Exact.ops) with Rmult. change (@fadd R Exact.ops) with Rplus.
    change (@fsub R Exact.ops) with Rminus. change (@fneg R Exact.ops) with Ropp.
    change (@sin R Exact.math) with Rtrigo_def.sin.
    change (@exp R Exact.math) with Rtrigo_def.exp.
    change (@of_int R Exact.ops) with IZR.
    pose proof (SIN_bound p) as H1.
    pose proof (SIN_bound (2 * p)) as H2.
    pose proof (SIN_bound (3 * p)) as H3.
    pose proof (SIN_bound (4 * p)) as H4.
    pose proof (SIN_bound (6 * p)) as H6.
    pose proof (envelope_range t (35 * / 10) (60 * / 1) Ht ltac:(lra) ltac:(lra))
      as He.
    replace (1 * / 1)%R with 1%R by lra.
    set (e := (Rtrigo_def.exp (- t * (35 * / 10))
               * (1 - Rtrigo_def.exp (- t * (60 * / 1))))%R) in *.
    set (s := (_ + _ + _ + _ + _)%R).
    assert (Hs : (Rabs s <= 1)%R) by (apply Rabs_le; subst s; lra).
    rewrite !Rabs_mult. rewrite (Rabs_right e) by lra.
    pose proof (Rabs_pos amp) as Hamp. pose proof (Rabs_pos s) as Hs0.
    clearbody e s. clear H1 H2 H3 H4 H6.
    assert (Hse : (Rabs s * e <= 1)%R) by nra.
    rewrite <- (Rmult_1_l (Rabs amp)) at 2.
    by apply Rmult_le_compat_r.
Qed.

(** X21.  The level of two instruments before any mixing, in exact
    arithmetic.  A piano note never exceeds its [amp]: its harmonic weights
    add up to 1.0 and its envelope [exp(-3.5 t) (1 - exp(-60 t))] stays in
    [0, 1].  A kick never exceeds 1.5, and its first sample, the click
    transient, is exactly 0.5: unlike the piano note it does not start from
    zero. *)
Theorem instrument_envelopes (freq duration amp : R) :
  (forall out, gen_piano_note freq duration amp = Some out ->
     Forall (fun y => (Rabs y <= Rabs amp)%R) out) /\
  (forall out, gen_kick duration = Some out ->
     Forall (fun y => (Rabs y <= 3 / 2)%R) out /\
     (out <> [] -> out !! 0%nat = Some (1 / 2)%R)).
Proof.
  split.
  - intros out Hout. unfold gen_piano_note in Hout.
    apply bind_Some in Hout as (n & _ & [= <-]). apply piano_loop_bounded.
  - intros out Hout. unfold gen_kick in Hout.
    apply bind_Some in Hout as (n & _ & [= <-]). split.
    + apply Forall_forall. intros y Hy.
      apply list_elem_of_fmap in Hy as (i & -> & _).
      change (@fmul R Exact.ops) with Rmult. change (@fadd R Exact.ops) with Rplus.
      change (@fneg R Exact.ops) with Ropp. exact_literals.
      change (@sin R Exact.math) with Rtrigo_def.sin.
      change (@exp R Exact.math) with Rtrigo_def.exp.
      change (@of_int R Exact.ops) with IZR.
      change (IZR (Z.of_nat i) / IZR SAMPLE_RATE)%R with (time_of i).
      pose proof (time_of_nonneg i) as Ht. set (t := time_of i) in *.
      match goal with |- context [Rtrigo_def.sin ?x] =>
        pose proof (SIN_bound x) as Hs; set (s := Rtrigo_def.sin x) in * end.
      destruct (exp_nonpos (- t * 18)) as [He0 He1]; [nra|].
      destruct (exp_nonpos (- t * 200)) as [Hc0 Hc1]; [nra|].
      set (e := Rtrigo_def.exp (- t * 18)) in *.
      set (c := Rtrigo_def.exp (- t * 200)) in *.
      clearbody s e c. apply Rabs_le. split; nra.
    + intros Hne. destruct (range_len n) as [|k] eqn:Hk; [done|].
      simpl. f_equal. change (Z.of_nat 0) with 0%Z.
      assert (Ht0 : (IZR 0 / IZR SAMPLE_RATE = 0)%R)
        by (unfold SAMPLE_RATE; lra).
      rewrite Ht0, Ropp_0, !Rmult_0_l, exp_0, Rmult_0_r, sin_0.
      unfold Q2R. simpl. lra.
Qed.

Lemma instrument_envelopes_witness :
  exists out : list R,
    gen_kick (2 / 44100)%R = Some out /\
    Forall (fun y => (Rabs y <= 3 / 2)%R) out /\
    out !! 0%nat = Some (1 / 2)%R.
Proof.
  destruct (gen_kick (F := R) (2 / 44100)%R) as [out|] eqn:Hout.
  - exists out. split; [reflexivity|].
    destruct (proj2 (instrument_envelopes 440%R (2 / 44100)%R 1%R) out Hout)
      as [Hall Hfirst].
    split; [exact Hall|]. apply Hfirst.
    unfold gen_kick in Hout. rewrite two_samples_exact in Hout.
    cbn [mbind option_bind] in Hout. injection Hout as <-. discriminate.
  - exfalso. unfold gen_kick in Hout. by rewrite two_samples_exact in Hout.
Defined.

(** ** The saturation of [apply_lofi_filter] *)

Lemma tanh_range (x : R) : (-1 < Rtrigo_def.tanh x < 1)%R.
Proof.
  unfold Rtrigo_def.tanh, sinh, cosh.
  pose proof (exp_pos x) as Hp. pose proof (exp_pos (- x)) as Hn.
  set (a := Rtrigo_def.exp x) in *. set (b := Rtrigo_def.exp (- x)) in *.
  replace ((a - b) / 2 / ((a + b) / 2))%R with ((a - b) / (a + b))%R
    by (field; lra).
  split.
  - apply Rmult_lt_reg_r with (a + b)%R; [lra|].
    unfold Rdiv. rewrite Rmult_assoc, Rinv_l by lra. lra.
  - apply Rmult_lt_reg_r with (a + b)%R; [lra|].
    unfold Rdiv. rewrite Rmult_assoc, Rinv_l by lra. lra.
Qed.

(** X22.  [apply_lofi_filter] keeps the length of its input and, in exact
    arithmetic, soft-clips it: every output sample is [0.77 tanh(1.3 y)],
    strictly below 0.77 in absolute value however loud the input. *)
Theorem apply_lofi_filter_saturates (samples : list R) :
  length (apply_lofi_filter samples) = length samples /\
  Forall (fun y => (Rabs y < 77 / 100)%R) (apply_lofi_filter samples).
Proof.
  split; [apply apply_lofi_filter_length|].
  unfold apply_lofi_filter. apply Forall_forall. intros y Hy.
  apply list_elem_of_fmap in Hy as (s & -> & _).
  change (@fmul R Exact.ops) with Rmult. exact_literals.
  change (@tanh R Exact.math) with Rtrigo_def.tanh.
  pose proof (tanh_range (s * (13 * / 10))) as Ht.
  apply Rabs_def1; lra.
Qed.

(** ** The phase accumulators that are reduced *)

(** One pass [phase += inc; if phase > T: phase -= T] keeps the phase in
    [0, T] when the increment is. *)
Lemma wrap_at_range (threshold phase inc : R) :
  (0 <= phase <= threshold)%R -> (0 <= inc <= threshold)%R ->
  (0 <= wrap_at threshold (phase + inc)%R <= threshold)%R.
Proof.
  intros Hp Hi. unfold wrap_at.
  change (@fltb R Exact.ops) with Exact.ltb.
  destruct (Exact.ltb _ _) eqn:Hcmp.
  - apply ltb_true in Hcmp. simpl. lra.
  - apply ltb_false in Hcmp. lra.
Qed.

Lemma phase_increment_range (k f : R) :
  (0 <= f)%R -> (f <= k * 22050)%R ->
  (0 <= 2 * PI * f / 44100 <= k * PI)%R.
Proof.
  intros Hlo Hhi. pose proof PI_RGT_0 as Hpi. split.
  - apply Rmult_le_pos; [|lra]. apply Rmult_le_pos; lra.
  - replace (k * PI)%R with (2 * PI * (k * 22050) / 44100)%R by (field; lra).
    apply Rmult_le_compat_r; [lra|]. apply Rmult_le_compat_l; lra.
Qed.

(** X23.  Where the code does reduce its phase, the accumulator stays
    bounded, in exact arithmetic and for any number of samples: within
    [0, 2 pi] in [sine_wave_varying] for frequencies between 0 and the
    sample rate, within [0, 10 pi], [0, 4 pi] and [0, 6 pi] in the
    propeller, jet and rocket loops, whose frequencies the code fixes, and
    within [0, 12 pi] and [0, 8 pi] in the piano and chime loops for
    frequencies up to 6 and 4 times the sample rate. *)
Theorem reduced_phase_bounded (n : Z) :
  (forall (freq_fn : R -> R) (amp : R),
     (forall t, 0 <= freq_fn t <= 44100)%R ->
     (0 <= (sine_wave_varying_loop (wrap_at (of_int 2 * pi)%py) freq_fn n amp).2
        <= 2 * PI)%R) /\
  (0 <= (prop_loop (F := R) (wrap_at (of_int 10 * pi)%py) n).2 <= 10 * PI)%R /\
  (0 <= (jet_loop (F := R) (wrap_at (of_int 4 * pi)%py) n).2 <= 4 * PI)%R /\
  (0 <= (rocket_loop (F := R) (wrap_at (of_int 6 * pi)%py) n).2 <= 6 * PI)%R /\
  (forall freq amp : R, (0 <= freq <= 264600)%R ->
     (0 <= (piano_loop (wrap_at (of_int 12 * pi)%py) freq amp n).2
        <= 12 * PI)%R) /\
  (forall freq amp : R, (0 <= freq <= 176400)%R ->
     (0 <= (chime_loop (wrap_at (of_int 8 * pi)%py) freq amp n).2
        <= 8 * PI)%R).
Proof.
  pose proof PI_RGT_0 as Hpi.
  assert (Hzero : (lit 0 : R) = 0%R) by apply lit_zero_exact.
  split; [|split; [|split; [|split; [|split]]]].
  - intros freq_fn amp Hfreq.
    exact (sine_wave_varying_phase_bound freq_fn amp (range_len n) Hfreq).
  - unfold prop_loop.
    apply (for_range_ind (fun _ (st : list R * R) => (0 <= st.2 <= 10 * PI)%R)).
    + rewrite Hzero. simpl. lra.
    + intros i [ss p] _ Hp. simpl in Hp. unfold prop_step. cbn [snd].
      exact_ops. exact_literals.
      match goal with |- context [Rtrigo_def.sin ?x] =>
        pose proof (SIN_bound x) as Hs; set (s := Rtrigo_def.sin x) in * end.
      apply wrap_at_range; [done|]. unfold SAMPLE_RATE.
      apply (phase_increment_range 10); lra.
  - unfold jet_loop.
    apply (for_range_ind (fun _ (st : list R * R) => (0 <= st.2 <= 4 * PI)%R)).
    + rewrite Hzero. simpl. lra.
    + intros i [ss p] _ Hp. simpl in Hp. unfold jet_step. cbn [snd].
      exact_ops. exact_literals.
      match goal with |- context [Rtrigo_def.sin ?x] =>
        pose proof (SIN_bound x) as Hs; set (s := Rtrigo_def.sin x) in * end.
      apply wrap_at_range; [done|]. unfold SAMPLE_RATE.
      apply (phase_increment_range 4); lra.
  - unfold rocket_loop.
    apply (for_range_ind (fun _ (st : list R * R) => (0 <= st.2 <= 6 * PI)%R)).
    + rewrite Hzero. simpl. lra.
    + intros i [ss p] _ Hp. simpl in Hp. unfold rocket_step. cbn [snd].
      exact_ops. exact_literals.
      match goal with |- context [Rtrigo_def.sin ?x] =>
        pose proof (SIN_bound x) as Hs; set (s := Rtrigo_def.sin x) in * end.
      apply wrap_at_range; [done|]. unfold SAMPLE_RATE.
      apply (phase_increment_range 6); lra.
  - intros freq amp Hfreq. unfold piano_loop.
    apply (for_range_ind (fun _ (st : list R * R) => (0 <= st.2 <= 12 * PI)%R)).
    + rewrite Hzero. simpl. lra.
    + intros i [ss p] _ Hp. simpl in Hp. unfold piano_step. cbn [snd].
      exact_ops.
      apply wrap_at_range; [done|]. unfold SAMPLE_RATE.
      apply (phase_increment_range 12); lra.
  - intros freq amp Hfreq. unfold chime_loop.
    apply (for_range_ind (fun _ (st : list R * R) => (0 <= st.2 <= 8 * PI)%R)).
    + rewrite Hzero. simpl. lra.
    + intros i [ss p] _ Hp. simpl in Hp. unfold chime_step. cbn [snd].
      exact_ops.
      apply wrap_at_range; [done|]. unfold SAMPLE_RATE.
      apply (phase_increment_range 8); lra.
Qed.

Lemma reduced_phase_bounded_witness :
  (0 <= (sine_wave_varying_loop (wrap_at (of_int 2 * pi)%py)
           (fun _ => 440%R) 100 1%R).2 <= 2 * PI)%R /\
  (0 <= (piano_loop (wrap_at (of_int 12 * pi)%py) 440%R 1%R 100).2
     <= 12 * PI)%R /\
  (0 <= (chime_loop (wrap_at (of_int 8 * pi)%py) 440%R 1%R 100).2
     <= 8 * PI)%R.
Proof.
  split; [|split].
  - apply (proj1 (reduced_phase_bounded 100)). intros t. lra.
  - apply (proj1 (proj2 (proj2 (proj2 (proj2 (reduced_phase_bounded 100)))))).
    lra.
  - apply (proj2 (proj2 (proj2 (proj2 (proj2 (reduced_phase_bounded 100)))))).
    lra.
Defined.

(** ** The first sample of every file *)

(** The first sample of a loop that appends one sample per pass. *)
Lemma append_loop_first {St : Type} (proj : St -> list R)
    (step : nat -> St -> St) (init : St) (x0 : R) (n : nat) :
  (forall i st, exists x, proj (step i st) = proj st ++ [x]) ->
  proj (step 0%nat init) = [x0] ->
  (1 <= n)%nat ->
  proj (for_range n step init) !! 0%nat = Some x0.
Proof.
  intros Happ H0 Hn. destruct n as [|n]; [lia|]. clear Hn.
  induction n as [|n IH].
  - rewrite for_range_S, for_range_0, H0. done.
  - rewrite for_range_S.
    destruct (Happ (S n) (for_range (S n) step init)) as [x ->].
    rewrite lookup_app_l; [exact IH|].
    by apply lookup_lt_Some with x0.
Qed.

Lemma reading_loop_first {St : Type} (proj : St -> list R)
    (step : nat -> St -> option St) (init : St) (x0 : R) (n : nat) (st : St) :
  (forall i s s', step i s = Some s' -> exists x, proj s' = proj s ++ [x]) ->
  (forall s1, step 0%nat init = Some s1 -> proj s1 = [x0]) ->
  (1 <= n)%nat ->
  for_range_err n step init = Some st ->
  proj st !! 0%nat = Some x0.
Proof.
  intros Happ H0 Hn. destruct n as [|n]; [lia|]. clear Hn.
  induction n as [|n IH] in st |- *; rewrite for_range_err_S; intros Hst;
    apply bind_Some in Hst as (s & Hs & Hstep).
  - injection Hs as <-. by rewrite (H0 _ Hstep).
  - destruct (Happ _ _ _ Hstep) as [x ->].
    rewrite lookup_app_l; [by apply IH|].
    apply lookup_lt_Some with x0. by apply IH.
Qed.

(** The first sample of a loop that rewrites sample [i] at pass [i]. *)
Lemma updating_loop_first (step : nat -> list R * R -> option (list R * R))
    (init : list R * R) (x0 : R) (n : nat) (st : list R * R) :
  (forall i s s', step i s = Some s' -> exists f, s'.1 = alter f i s.1) ->
  (forall s1, step 0%nat init = Some s1 -> s1.1 !! 0%nat = Some x0) ->
  (1 <= n)%nat ->
  for_range_err n step init = Some st ->
  st.1 !! 0%nat = Some x0.
Proof.
  intros Halt H0 Hn. destruct n as [|n]; [lia|]. clear Hn.
  induction n as [|n IH] in st |- *; rewrite for_range_err_S; intros Hst;
    apply bind_Some in Hst as (s & Hs & Hstep).
  - injection Hs as <-. by apply H0.
  - destruct (Halt _ _ _ Hstep) as [f ->].
    rewrite list_lookup_alter_ne by lia. by apply IH.
Qed.

Lemma time_of_zero : time_of (F := R) 0 = 0%R.
Proof. rewrite time_of_exact. simpl. lra. Qed.

Lemma time_zero_exact : (IZR 0 / IZR SAMPLE_RATE)%R = 0%R.
Proof. unfold SAMPLE_RATE. lra. Qed.

(** At [t = 0] an onset factor [exp(-t a) (1 - exp(-t b))] vanishes. *)
Ltac zero_onset :=
  cbn [fst snd app];
  rewrite ?time_of_zero, ?lit_zero_exact; exact_ops; exact_literals;
  change (Z.of_nat 0) with 0%Z; rewrite ?time_zero_exact;
  unfold Rdiv;
  repeat (rewrite Ropp_0 || rewrite Rmult_0_l || rewrite Rmult_0_r
          || rewrite exp_0 || rewrite sin_0);
  try ring.

(** The lengths of the attack ramps, in exact arithmetic. *)
Lemma attack_samples_exact :
  to_int (F := R) (lit 0.04 * of_int SAMPLE_RATE)%py = Some 1764%Z /\
  to_int (F := R) (lit 0.05 * of_int SAMPLE_RATE)%py = Some 2205%Z /\
  to_int (F := R) (lit 0.06 * of_int SAMPLE_RATE)%py = Some 2646%Z /\
  to_int (F := R) (lit 0.08 * of_int SAMPLE_RATE)%py = Some 3528%Z /\
  to_int (F := R) (lit 0.1 * of_int SAMPLE_RATE)%py = Some 4410%Z /\
  to_int (F := R) (lit 0.15 * of_int SAMPLE_RATE)%py = Some 6615%Z.
Proof.
  unfold SAMPLE_RATE. exact_ops. exact_literals.
  change (@to_int R Exact.ops) with (fun x => Some (Exact.trunc x)).
  cbv beta.
  repeat split; f_equal;
    match goal with
    | |- Exact.trunc ?x = ?z =>
        replace x with (IZR z) by lra; apply trunc_IZR
    end.
Qed.

Lemma fade_starts_at_zero (result out : list R) (attack peak : R) (a : Z) :
  to_int (attack * of_int SAMPLE_RATE)%py = Some a -> (1 <= a)%Z ->
  fade_and_normalize result attack peak = Some out ->
  out !! 0%nat = Some 0%R.
Proof.
  intros Ha Hpos Hout. unfold fade_and_normalize in Hout.
  apply bind_Some in Hout as (env & Henv & Hnorm).
  apply (normalize_keeps_zero _ _ _ _ Hnorm).
  assert (Hlong : (a <= Z.of_nat (length result))%Z).
  { apply Z.le_ngt. intros Hshort.
    by rewrite (apply_envelope_short result attack attack a Ha Hshort) in Henv. }
  rewrite <- (Z2Nat.id a) in Ha by lia.
  destruct (apply_envelope_lookup result attack attack _ _ Ha Ha)
    as (env' & Henv' & _ & Hlook); [lia..|].
  rewrite Henv in Henv'. injection Henv' as <-.
  rewrite Hlook.
  destruct (lookup_lt_is_Some_2 result 0) as [s ->]; [lia|]. simpl.
  f_equal. change (Z.of_nat 0) with 0%Z.
  repeat case_decide; try lia; unfold Rdiv; ring.
Qed.

Ltac fade_zero a :=
  match goal with
  | H : _ = Some ?out |- ?out !! 0%nat = Some 0%R =>
      unfold finish_track in H; last_call H;
      apply (fade_starts_at_zero _ _ _ _ a ltac:(apply attack_samples_exact)
               ltac:(lia) H)
  end.

Section ZeroStart.
Context (G : PyRandom R) (amb : Ambient R).
Local Open Scope py_scope.

Lemma gen_clue_pop_zero (duration : R) : starts_at_zero (gen_clue_pop duration).
Proof.
  intros out Hout. unfold gen_clue_pop in Hout. last_call Hout.
  apply (normalize_keeps_zero _ _ _ _ Hout).
  pose proof (normalize_nonempty _ _ _ Hout) as Hlen.
  rewrite clue_pop_loop_length in Hlen. unfold clue_pop_loop.
  apply (append_loop_first fst); [| |done].
  - intros i [ss p]. unfold clue_pop_step. by eexists.
  - unfold clue_pop_step. cbn [fst app]. f_equal. zero_onset.
Qed.

Lemma gen_coin_collect_zero (duration : R) :
  starts_at_zero (gen_coin_collect duration).
Proof.
  intros out Hout. unfold gen_coin_collect in Hout. last_call Hout.
  pose proof (coin_loop_length (F := R) (range_len x)) as Hlen.
  assert (Hfirst : (1 <= range_len x)%nat ->
            (coin_loop (F := R) (range_len x)).1.1.1 !! 0%nat = Some 0%R).
  { intros Hn. unfold coin_loop.
    apply (append_loop_first (fun st : list R * R * R * R => st.1.1.1));
      [| |done].
    - intros i [[[ss p1] p2] p3]. unfold coin_step. by eexists.
    - unfold coin_step. cbn [fst app]. f_equal. zero_onset. }
  destruct (coin_loop (range_len x)) as [[[samples p1] p2] p3].
  simpl in Hlen, Hfirst.
  apply (normalize_keeps_zero _ _ _ _ Hout). apply Hfirst.
  pose proof (normalize_nonempty _ _ _ Hout). lia.
Qed.

Lemma gen_altitude_change_zero (duration : R) :
  starts_at_zero (gen_altitude_change amb duration).
Proof.
  intros out Hout. unfold gen_altitude_change in Hout.
  apply bind_Some in Hout as (n & _ & Hout).
  apply bind_Some in Hout as (st & Hst & Hout).
  apply (normalize_keeps_zero _ _ _ _ Hout).
  pose proof (normalize_nonempty _ _ _ Hout) as Hlen.
  destruct (altitude_loop_length amb (wrap_at (of_int 2 * pi)) duration n)
    as (st' & Hst' & Hlen').
  rewrite Hst in Hst'. injection Hst' as <-. rewrite Hlen' in Hlen.
  unfold altitude_loop in Hst.
  eapply (reading_loop_first fst); [| |exact Hlen|exact Hst].
  - intros i [ss p] s' Hs'. unfold altitude_step in Hs'.
    destruct (_ !! i); [|done]. injection Hs' as <-. by eexists.
  - intros s1 Hs1. unfold altitude_step in Hs1.
    destruct (_ !! 0%nat); [|done]. injection Hs1 as <-.
    cbn [fst app]. f_equal. zero_onset.
Qed.

Lemma gen_boost_start_zero (duration : R) :
  starts_at_zero (gen_boost_start amb duration).
Proof.
  intros out Hout. unfold gen_boost_start in Hout.
  apply bind_Some in Hout as (n & _ & Hout).
  apply bind_Some in Hout as (st & Hst & Hout).
  apply (normalize_keeps_zero _ _ _ _ Hout).
  pose proof (normalize_nonempty _ _ _ Hout) as Hlen.
  destruct (boost_loop_length amb (wrap_at (of_int 8 * pi)) duration n)
    as (st' & Hst' & Hlen').
  rewrite Hst in Hst'. injection Hst' as <-. rewrite Hlen' in Hlen.
  unfold boost_loop in Hst.
  eapply (reading_loop_first fst); [| |exact Hlen|exact Hst].
  - intros i [ss p] s' Hs'. unfold boost_step in Hs'.
    destruct (_ !! i); [|done]. injection Hs' as <-. by eexists.
  - intros s1 Hs1. unfold boost_step in Hs1.
    destruct (_ !! 0%nat); [|done].
    cbn [mbind option_bind] in Hs1. apply (inj Some) in Hs1. subst s1.
    cbn [fst app]. f_equal. rewrite time_of_zero.
    assert (Henv : py_max2 (lit 0)
                     (pow (0%R / duration) (lit 0.5)
                      * exp (- pow (0%R - duration) (of_int 2) * of_int 8))
                   = 0%R).
    { exact_ops. change (@pow R Exact.math) with Exact.power.
      replace (0 / duration)%R with 0%R by (unfold Rdiv; ring).
      assert (Hroot : Exact.power 0 (lit 0.5) = 0%R).
      { unfold Exact.power. exact_literals.
        destruct (Req_dec_T _ 0) as [Heq|_]; [lra|].
        destruct (Rlt_dec 0 0); [lra|].
        by destruct (Req_dec_T 0 0). }
      rewrite Hroot, Rmult_0_l. unfold py_max2.
      rewrite lit_zero_exact. by destruct (_ <? _). }
    rewrite Henv. exact_ops. ring.
Qed.

Lemma gen_ui_click_zero (duration : R) :
  starts_at_zero (gen_ui_click amb duration).
Proof.
  intros out Hout. unfold gen_ui_click in Hout.
  apply bind_Some in Hout as (n & _ & Hout).
  apply bind_Some in Hout as (st & Hst & Hout).
  apply (normalize_keeps_zero _ _ _ _ Hout).
  pose proof (normalize_nonempty _ _ _ Hout) as Hlen.
  set (bp := bandpass_filter (white_noise amb n 30) (of_int 800) (of_int 4000))
    in *.
  set (samples := _ <$> enumerate bp) in *.
  assert (Hsamples : length samples = range_len n).
  { unfold samples, bp.
    by rewrite length_fmap, enumerate_length, bandpass_filter_length,
      white_noise_length. }
  destruct (ui_click_loop_length samples (range_len n)) as (st' & Hst' & Hlen');
    [lia|].
  rewrite Hst in Hst'. injection Hst' as <-.
  assert (Hn : (1 <= range_len n)%nat) by lia.
  eapply updating_loop_first; [| |exact Hn|exact Hst].
  - intros i [ss p] s' Hs'. unfold ui_click_step in Hs'.
    apply bind_Some in Hs' as (ss' & Hupd & [= <-]). cbn [fst].
    unfold list_update in Hupd.
    apply bind_Some in Hupd as (j & Hj & [= <-]).
    unfold py_index in Hj.
    destruct (Z.leb_spec 0 (Z.of_nat i)); [|lia].
    destruct (Z.ltb_spec (Z.of_nat i) (Z.of_nat (length ss)));
      simpl in Hj; [|].
    + injection Hj as <-. rewrite Nat2Z.id. by eexists.
    + destruct ((- Z.of_nat (length ss) <=? Z.of_nat i)%Z); simpl in Hj;
        [|done].
      destruct (Z.ltb_spec (Z.of_nat i) 0); [lia|done].
  - intros s1 Hs1. unfold ui_click_step in Hs1.
    apply bind_Some in Hs1 as (ss' & Hupd & [= <-]). cbn [fst].
    rewrite list_update_inside in Hupd by lia. injection Hupd as <-.
    rewrite list_lookup_alter. unfold samples.
    rewrite list_lookup_fmap, enumerate_lookup.
    destruct (lookup_lt_is_Some_2 bp 0) as [b ->].
    { unfold bp. rewrite bandpass_filter_length, white_noise_length. lia. }
    simpl. f_equal. zero_onset.
Qed.

Lemma chime_first (freq amp : R) (note_n : Z) (o : R) :
  (chime_loop (wrap_at (of_int 8 * pi)) freq amp note_n).1 !! 0%nat = Some o ->
  o = 0%R.
Proof.
  intros Ho.
  assert (Hn : (1 <= range_len note_n)%nat).
  { apply lookup_lt_Some in Ho. rewrite chime_loop_length in Ho. lia. }
  unfold chime_loop in Ho.
  rewrite (append_loop_first fst _ _ 0%R) in Ho; [congruence| |  |done].
  - intros i [ss p]. unfold chime_step. by eexists.
  - unfold chime_step. cbn [fst app]. f_equal. zero_onset.
Qed.

Lemma chord_starts_exact :
  to_int (F := R) (lit 0 * of_int SAMPLE_RATE) = Some 0%Z /\
  to_int (F := R) (lit 0.15 * of_int SAMPLE_RATE) = Some 6615%Z /\
  to_int (F := R) (lit 0.30 * of_int SAMPLE_RATE) = Some 13230%Z /\
  to_int (F := R) (lit 0.50 * of_int SAMPLE_RATE) = Some 22050%Z.
Proof.
  unfold SAMPLE_RATE. exact_ops. exact_literals.
  change (@to_int R Exact.ops) with (fun x => Some (Exact.trunc x)).
  cbv beta.
  repeat split; f_equal;
    match goal with
    | |- Exact.trunc ?x = ?z =>
        replace x with (IZR z) by lra; apply trunc_IZR
    end.
Qed.

Lemma gen_landing_success_zero (duration : R) :
  starts_at_zero (gen_landing_success duration).
Proof.
  intros out Hout. unfold gen_landing_success in Hout.
  apply bind_Some in Hout as (n & _ & Hout).
  apply bind_Some in Hout as (result & Hchord & Hout).
  apply (normalize_keeps_zero _ _ _ _ Hout).
  pose proof (normalize_nonempty _ _ _ Hout) as Hlen.
  destruct chord_starts_exact as (S0 & S1 & S2 & S3).
  unfold landing_chord, chord_notes in Hchord.
  cbn [fold_left] in Hchord.
  change (@to_int R Exact.ops ((duration - lit 0) * of_int SAMPLE_RATE))
    with (Some (Exact.trunc ((duration - lit 0) * of_int SAMPLE_RATE)))
    in Hchord.
  change (@to_int R Exact.ops ((duration - lit 0.15) * of_int SAMPLE_RATE))
    with (Some (Exact.trunc ((duration - lit 0.15) * of_int SAMPLE_RATE)))
    in Hchord.
  change (@to_int R Exact.ops ((duration - lit 0.30) * of_int SAMPLE_RATE))
    with (Some (Exact.trunc ((duration - lit 0.30) * of_int SAMPLE_RATE)))
    in Hchord.
  change (@to_int R Exact.ops ((duration - lit 0.50) * of_int SAMPLE_RATE))
    with (Some (Exact.trunc ((duration - lit 0.50) * of_int SAMPLE_RATE)))
    in Hchord.
  rewrite S0, S1, S2, S3 in Hchord. cbn [mbind option_bind] in Hchord.
  repeat match type of Hchord with
  | context [overlay_samples ?b ?o ?s ?a] =>
      lazymatch b with
      | replicate _ _ => idtac
      | _ => is_var b
      end;
      let r := fresh "r" in
      let Hr := fresh "Hr" in
      let Hl := fresh "Hl" in
      let Hk := fresh "Hk" in
      destruct (overlay_samples_lookup b o s a ltac:(lia))
        as (r & Hr & Hl & Hk);
      rewrite Hr in Hchord; cbn [mbind option_bind] in Hchord
  end.
  injection Hchord as <-.
  rewrite Hk2, Hk1, Hk0, Hk.
  rewrite !length_replicate in *.
  rewrite lookup_replicate_2 by lia. cbn [fmap option_fmap option_map].
  f_equal.
  rewrite !(overlaid_at_outside _ (Z.to_nat _)) by (left; lia).
  unfold overlaid_at. rewrite decide_True by lia.
  destruct (_ !! _) as [o|] eqn:Ho; [|apply lit_zero_exact].
  apply chime_first in Ho as ->. rewrite lit_zero_exact. exact_ops.
  rewrite lit_one_exact. ring.
Qed.

(** X24.  Every file starts from silence, in exact arithmetic: whatever
    the duration and the generator, when a recipe of the manifest returns,
    the first sample of its buffer is exactly 0.  The engines and the
    tracks owe it to the attack ramp, whose first factor is [0 / a]; the
    effects to their onset envelopes, which vanish at [t = 0]
    ([1 - exp(0)], [sin(0)], [0 ** 0.5]); [normalize] keeps a zero a
    zero. *)
Theorem recipes_start_at_zero (duration : R) :
  starts_at_zero (gen_biplane_engine amb duration) /\
  starts_at_zero (gen_prop_engine amb duration) /\
  starts_at_zero (gen_bomber_engine amb duration) /\
  starts_at_zero (gen_jet_engine amb duration) /\
  starts_at_zero (gen_rocket_engine amb duration) /\
  starts_at_zero (gen_wind amb duration) /\
  starts_at_zero (gen_lofi_track_01 amb duration) /\
  starts_at_zero (gen_lofi_track_02 amb duration) /\
  starts_at_zero (gen_lofi_track_03 amb duration) /\
  starts_at_zero (gen_clue_pop duration) /\
  starts_at_zero (gen_landing_success duration) /\
  starts_at_zero (gen_coin_collect duration) /\
  starts_at_zero (gen_ui_click amb duration) /\
  starts_at_zero (gen_altitude_change amb duration) /\
  starts_at_zero (gen_boost_start amb duration).
Proof.
  split; [intros out Hout; unfold gen_biplane_engine in Hout; fade_zero 2205%Z|].
  split; [intros out Hout; unfold gen_prop_engine in Hout; fade_zero 2205%Z|].
  split; [intros out Hout; unfold gen_bomber_engine in Hout; fade_zero 3528%Z|].
  split; [intros out Hout; unfold gen_jet_engine in Hout; fade_zero 2646%Z|].
  split; [intros out Hout; unfold gen_rocket_engine in Hout; fade_zero 1764%Z|].
  split; [intros out Hout; unfold gen_wind in Hout; fade_zero 6615%Z|].
  split; [intros out Hout; unfold gen_lofi_track_01 in Hout; fade_zero 4410%Z|].
  split; [intros out Hout; unfold gen_lofi_track_02 in Hout; fade_zero 4410%Z|].
  split; [intros out Hout; unfold gen_lofi_track_03 in Hout; fade_zero 4410%Z|].
  split; [apply gen_clue_pop_zero|].
  split; [apply gen_landing_success_zero|].
  split; [apply gen_coin_collect_zero|].
  split; [apply gen_ui_click_zero|].
  split; [apply gen_altitude_change_zero|].
  apply gen_boost_start_zero.
Qed.

End ZeroStart.

Lemma recipes_start_at_zero_witness :
  exists out : list R,
    gen_coin_collect (2 / 44100)%R = Some out /\ out !! 0%nat = Some 0%R.
Proof.
  destruct gen_coin_collect_two as (out & Hout).
  exists out. split; [exact Hout|].
  destruct (recipes_start_at_zero constant_generator constant_ambient
              (2 / 44100)%R)
    as (_ & _ & _ & _ & _ & _ & _ & _ & _ & _ & _ & Hcoin & _).
  exact (Hcoin out Hout).
Defined.

(** ** The run of [main] *)

Section MainBinary64.
Context (M : PyMath float) (G : PyRandom float) (amb : Ambient float).
Local Open Scope py_scope.

Lemma manifest_lengths_binary64 :
  n_samples_of (F := float) (lit 4) = Some 176400%Z /\
  n_samples_of (F := float) (lit 5) = Some 220500%Z /\
  n_samples_of (F := float) (lit 0.4) = Some 17640%Z /\
  n_samples_of (F := float) (lit 0.9) = Some 39690%Z /\
  n_samples_of (F := float) (lit 0.35) = Some 15434%Z /\
  n_samples_of (F := float) (lit 0.06) = Some 2646%Z /\
  n_samples_of (F := float) (lit 0.6) = Some 26460%Z /\
  n_samples_of (F := float) (lit 0.8) = Some 35280%Z.
Proof. repeat split; vm_compute; reflexivity. Qed.

Ltac returned Hlen :=
  cbn [fst snd];
  eapply returns_length_at_least; [|apply Hlen; apply manifest_lengths_binary64];
  lia.

(** X25.  The run of [main], in binary64 and whatever [sin], [exp] and the
    generator return: each of the fifteen recipe calls of the manifest
    returns (none raises at the duration [main] passes), with 176400,
    176400, 220500, 176400, 176400 and 220500 samples for the engines and
    the wind, 529200, 573300 and 617400 for the tracks, and 17640, 39690,
    15434, 2646, 26460 and 35280 for the effects; and the fifteen output
    paths are pairwise distinct, so no file overwrites another. *)
Theorem main_files_return :
  Forall2 (fun entry n => has_length (entry.1.2 entry.2) n)
    (main_files amb)
    [176400; 176400; 220500; 176400; 176400; 220500;
     529200; 573300; 617400;
     17640; 39690; 15434; 2646; 26460; 35280]%Z /\
  NoDup ((fun entry => entry.1.1) <$> main_files amb).
Proof.
  destruct (track_lengths_binary64) as (H12 & H13 & H14).
  assert (Hchord : chord_note_lengths (F := float) (lit 0.9) chord_notes
                   = Some [39690; 33075; 26460; 17640]%Z)
    by (vm_compute; reflexivity).
  pose proof (gen_landing_success_length M (lit 0.9) 39690
                ltac:(apply manifest_lengths_binary64)) as Hlanding.
  rewrite Hchord in Hlanding.
  split.
  - unfold main_files.
    apply Forall2_cons_2; [returned gen_biplane_engine_length|].
    apply Forall2_cons_2; [returned gen_prop_engine_length|].
    apply Forall2_cons_2; [returned gen_bomber_engine_length|].
    apply Forall2_cons_2; [returned gen_jet_engine_length|].
    apply Forall2_cons_2; [returned gen_rocket_engine_length|].
    apply Forall2_cons_2; [returned gen_wind_length|].
    apply Forall2_cons_2;
      [cbn [fst snd]; apply (gen_lofi_track_01_returns M G amb _ H12); lia|].
    apply Forall2_cons_2;
      [cbn [fst snd]; apply (gen_lofi_track_02_returns M G amb _ H13); lia|].
    apply Forall2_cons_2;
      [cbn [fst snd]; apply (gen_lofi_track_03_returns M G amb _ H14); lia|].
    apply Forall2_cons_2; [returned gen_clue_pop_length|].
    apply Forall2_cons_2;
      [cbn [fst snd]; by apply (returns_length_at_least _ _ 1)|].
    apply Forall2_cons_2; [returned gen_coin_collect_length|].
    apply Forall2_cons_2; [returned gen_ui_click_length|].
    apply Forall2_cons_2; [returned gen_altitude_change_length|].
    apply Forall2_cons_2; [returned gen_boost_start_length|].
    apply Forall2_nil_2.
  - unfold main_files. cbn [fmap list_fmap fst].
    apply (bool_decide_unpack (NoDup _)). vm_compute. exact I.
Qed.

End MainBinary64.
